(** * AndroidHostInterface: emulation thread, callback queue and FPS overlay

    A shallow embedding of [android/app/src/cpp/android_host_interface.cpp].

    The file has four parts.

    - Part I embeds the speed read-out of [DrawFPSWindow] (lines 304-310).
      The member [m_speed] is an IEEE binary32 number, represented with the
      [spec_float] type of the standard library (precision 24, emax 128),
      compared with [SFltb] as the hardware compares.

    - Part II embeds [StartEmulationThread], [StopEmulationThread],
      [RunOnEmulationThread] and [EmulationThreadEntryPoint] as an
      interleaving state machine.  Every statement is one atomic step of the
      thread that executes it; a schedule is a list of thread choices; a
      blocked thread (mutex taken, event not signalled, join target still
      running) does not move; a failed [Assert], [std::terminate] or
      undefined behaviour ends the process.  Every step puts what it did on
      top of a trace (newest entry first), and the ordering properties are
      stated over the trace of every reachable state, that is, for every
      interleaving.

    - Part III adds, over the same state machine, what a user of the three
      entry points relies on: mutual exclusion, what the calls leave behind
      when they return, that they do return, and how [SurfaceChanged] meets
      the life of the worker.

    - Part IV embeds the rest of [DrawFPSWindow] (lines 257-314), the
      pointer kept in the Java object ([GetNativeClass], lines 30-34, and
      [AndroidHostInterface_create], lines 366-393) and [JNI_OnLoad]
      (lines 328-358) as functions.

    What lies outside the source file enters as follows.  The results of the
    collaborators (display, audio stream, system) are inputs of each start.
    A queued [std::function] is an identity together with its effect on the
    base-class members the loop reads.  Logging is left out.  The life-cycle
    entry points are called by one thread, as their assertions demand; any
    thread may submit commands. *)

From Stdlib Require Import ZArith List Bool Arith Lia String DecimalString.
From Stdlib Require Import Floats.SpecFloat.
Import ListNotations.

(* ================================================================== *)
(** * Part I: the speed read-out of [DrawFPSWindow]                    *)
(* ================================================================== *)

Open Scope Z_scope.

(** [float] of the source: IEEE binary32. *)
Definition prec32 : Z := 24.
Definition emax32 : Z := 128.

Definition is_float32 (x : spec_float) : Prop := valid_binary prec32 emax32 x = true.

(** The literals of lines 305-310, in canonical binary32 form. *)
Definition f32_90  : spec_float := S754_finite false 11796480 (-17). (* 90.0f  *)
Definition f32_110 : spec_float := S754_finite false 14417920 (-17). (* 110.0f *)
Definition f32_1   : spec_float := S754_finite false 8388608 (-23).  (* 1.0f   *)
Definition f32_0_4 : spec_float := S754_finite false 13421773 (-25). (* 0.4f   *)

Record ImVec4 : Type := mkImVec4 { vx : spec_float; vy : spec_float; vz : spec_float; vw : spec_float }.

Definition color_slow    : ImVec4 := mkImVec4 f32_1 f32_0_4 f32_0_4 f32_1. (* line 306 *)
Definition color_nominal : ImVec4 := mkImVec4 f32_1 f32_1 f32_1 f32_1.     (* line 308 *)
Definition color_fast    : ImVec4 := mkImVec4 f32_0_4 f32_1 f32_0_4 f32_1. (* line 310 *)

(** [std::round]: nearest integer, halfway cases away from zero.  The result
    of rounding a binary32 value is again a binary32 value, so it is kept as
    an exact integer; NaN and the infinities have no integer value. *)
Definition round_magnitude (m : positive) (e : Z) : Z :=
  match e with
  | Zneg d => (2 * Zpos m + 2 ^ Zpos d) / (2 * 2 ^ Zpos d)
  | _ => Zpos m * 2 ^ e
  end.

Definition std_round (x : spec_float) : option Z :=
  match x with
  | S754_zero _ => Some 0
  | S754_finite s m e => Some (if s then - round_magnitude m e else round_magnitude m e)
  | S754_infinity _ | S754_nan => None
  end.

(** [static_cast<u32>] of a floating value: defined only when the value
    fits in 32 unsigned bits, undefined behaviour otherwise. *)
Definition u32_max : Z := 2 ^ 32 - 1.

Definition cast_u32 (r : option Z) : option Z :=
  match r with
  | Some z => if (0 <=? z) && (z <=? u32_max) then Some z else None
  | None => None
  end.

(** Line 304. *)
Definition rounded_speed (m_speed : spec_float) : option Z := cast_u32 (std_round m_speed).

(** The three branches of lines 305-310. *)
Inductive band : Type := Slow | Nominal | Fast.

Definition speed_band (m_speed : spec_float) : band :=
  if SFltb m_speed f32_90 then Slow
  else if SFltb m_speed f32_110 then Nominal
  else Fast.

Definition band_color (b : band) : ImVec4 :=
  match b with
  | Slow => color_slow
  | Nominal => color_nominal
  | Fast => color_fast
  end.

(** The format ["%u%%"]. *)
Definition format_percent (n : Z) : string :=
  (NilZero.string_of_uint (N.to_uint (Z.to_N n)) ++ "%")%string.

(** What the overlay receives for the speed figure (lines 304-310 of
    [DrawFPSWindow]). *)
Inductive draw_cmd : Type :=
| TextColored (c : ImVec4) (text : string).

Definition DrawFPSWindow_speed (m_speed : spec_float) : option draw_cmd :=
  match rounded_speed m_speed with
  | Some n => Some (TextColored (band_color (speed_band m_speed)) (format_percent n))
  | None => None
  end.

(** The exact value of a finite binary32 number, counted in units of
    2^-149 (the smallest positive binary32 number), so that it is an
    integer; [None] for NaN and the infinities. *)
Definition units_per_one : Z := 2 ^ 149.

Definition f32_units (x : spec_float) : option Z :=
  match x with
  | S754_zero _ => Some 0
  | S754_finite s m e => Some ((if s then -1 else 1) * (Zpos m * 2 ^ (e + 149)))
  | S754_infinity _ | S754_nan => None
  end.

(** The bands as the specification words them: 90 to 110 inclusive is
    nominal. *)
Definition spec_band_inclusive (units : Z) : band :=
  if units <? 90 * units_per_one then Slow
  else if units <=? 110 * units_per_one then Nominal
  else Fast.

(** The bands as the code draws them: 110 itself is already fast. *)
Definition band_of_units (units : Z) : band :=
  if units <? 90 * units_per_one then Slow
  else if units <? 110 * units_per_one then Nominal
  else Fast.

(** The values of scenario D, and the upper end of the nominal band. *)
Definition f32_85  : spec_float := S754_finite false 11141120 (-17). (* 85.0f  *)
Definition f32_100 : spec_float := S754_finite false 13107200 (-17). (* 100.0f *)
Definition f32_120 : spec_float := S754_finite false 15728640 (-17). (* 120.0f *)

Close Scope Z_scope.

(* ================================================================== *)
(** * Part II: the emulation thread and the callback queue             *)
(* ================================================================== *)

(** ** Threads, commands and collaborators *)

Inductive tid : Type :=
| Worker            (* the thread running EmulationThreadEntryPoint *)
| Caller (n : nat). (* any other thread *)

(** Lifecycle calls ([StartEmulationThread], [StopEmulationThread]) come
    from one thread, the one that owns the activity; every thread may call
    [RunOnEmulationThread]. *)
Definition controller : nat := 0.

(** Members of the [HostInterface] base class read by the frame loop. *)
Record Host : Type := mkHost {
  m_system : bool;                (* m_system != nullptr *)
  m_paused : bool;
  m_speed_limiter_enabled : bool
}.

(** A [std::function<void()>]: an identity, for the trace, and what running
    it does to the host members.  An entry is taken to return: a fault
    inside an entry (the surface-change entry of lines 427-428 dereferences
    [m_display], see [SurfaceChanged] below) is not represented, and the
    [aborted] flag of the machine records the assertions and library
    preconditions of the thread functions only. *)
Record Command : Type := mkCommand {
  cmd_id : nat;
  cmd_run : Host -> Host
}.

(** What the collaborators answer during one start-up: they are outside
    this file, so their results are inputs. *)
Record StartArgs : Type := mkStartArgs {
  display_created : bool;     (* AndroidGLESHostDisplay::Create(surface) != nullptr *)
  audio_created : bool;       (* AndroidAudioStream::Create() != nullptr *)
  audio_reconfigured : bool;  (* m_audio_stream->Reconfigure(44100, 2) *)
  system_created : bool;      (* CreateSystem() *)
  system_booted : bool;       (* BootSystem(filename, state_filename) *)
  host_after_boot : Host      (* base-class members as CreateSystem/BootSystem leave them *)
}.

Definition display_ok (a : StartArgs) : bool := display_created a.
Definition audio_ok (a : StartArgs) : bool := audio_created a && audio_reconfigured a.
Definition boot_ok (a : StartArgs) : bool := system_created a && system_booted a.

(** All three acquisition steps succeed. *)
Definition start_ok (a : StartArgs) : bool := display_ok a && audio_ok a && boot_ok a.

Definition no_args : StartArgs :=
  mkStartArgs false false false false false (mkHost false false false).

(** ** Trace entries *)

Inductive event : Type :=
(* worker, start-up and shutdown *)
| EvCreateImGui
| EvCreateDisplay (ok : bool)
| EvCreateAudio (created : bool) (configured : bool)
| EvBootSystem (ok : bool)
| EvResetAudio
| EvResetDisplay
| EvDestroyImGui
| EvStoreResult (b : bool)
| EvSignal
| EvFirstNewFrame
(* worker, frame loop *)
| EvLoopCheck (stop : bool)
| EvDrainEmpty
| EvExec (t : tid) (id : nat)
| EvRunFrame
| EvDrawImGui
| EvResetGfx
| EvImGuiRender
| EvDisplayRender
| EvNewFrame
| EvRestoreGfx
| EvThrottle
| EvUpdatePerf
(* callers *)
| EvStartCall
| EvStoreStop (b : bool)
| EvSpawn
| EvJoin
| EvStartReturn (b : bool)
| EvStopCall
| EvStopReturn
| EvRunCall (t : nat) (id : nat) (blocking : bool)
| EvAppend (t : nat) (id : nat)
| EvSeenEmpty (t : nat)
| EvRunReturn (t : nat) (id : nat) (blocking : bool) (queued : bool)
| EvAbort.

(** ** Program points *)

(** [EmulationThreadEntryPoint]; the numbers are source lines.  The three
    failure exits run the same statements, and share their points. *)
Inductive worker_pc : Type :=
| W_idle                  (* no thread has been started yet *)
| W_create_imgui          (* 139 *)
| W_create_display        (* 142-143 *)
| W_create_audio          (* 153-154 *)
| W_boot                  (* 166-167 *)
| W_fail_reset_audio      (* 157, 171 *)
| W_fail_reset_display    (* 158, 172 *)
| W_fail_destroy_imgui    (* 146, 159, 173 *)
| W_fail_store            (* 147, 160, 174 *)
| W_fail_signal           (* 148, 161, 175 *)
| W_store_ok              (* 180 *)
| W_signal_ok             (* 181 *)
| W_first_newframe        (* 183 *)
| W_loop_check            (* 185 *)
| W_lock                  (* 188 *)
| W_drain_test            (* 191 *)
| W_pop                   (* 194-195 *)
| W_unlock_cb (callback : Command) (* 196 *)
| W_call (callback : Command)      (* 197 *)
| W_relock                (* 198 *)
| W_drain_unlock          (* 200 *)
| W_simulate              (* 203-204 *)
| W_draw_imgui            (* 208 *)
| W_reset_gfx             (* 210-211 *)
| W_imgui_render          (* 213 *)
| W_display_render        (* 214 *)
| W_newframe              (* 216 *)
| W_restore_gfx           (* 218-220 *)
| W_limiter               (* 222-223 *)
| W_update_perf           (* 226 *)
| W_shut_display          (* 230 *)
| W_shut_audio            (* 231 *)
| W_shut_imgui            (* 232 *)
| W_exited.               (* 233, and the returns of 149, 162, 176 *)

(** The three entry points a caller thread can be inside. *)
Inductive caller_pc : Type :=
| C_idle
(* StartEmulationThread *)
| S_assert (a : StartArgs)       (* 83 *)
| S_store_stop (a : StartArgs)   (* 86 *)
| S_spawn (a : StartArgs)        (* 87 *)
| S_wait (a : StartArgs)         (* 89 *)
| S_load (a : StartArgs)         (* 90 *)
| S_join (a : StartArgs)         (* 92 *)
| S_ret (a : StartArgs) (result : bool) (* 94, 97 *)
(* StopEmulationThread *)
| T_assert                       (* 102 *)
| T_store                        (* 104 *)
| T_join                         (* 105 *)
| T_ret                          (* 107 *)
(* RunOnEmulationThread *)
| R_check (f : Command) (blocking : bool)   (* 111 *)
| R_inline (f : Command) (blocking : bool)  (* 113 *)
| R_lock (f : Command) (blocking : bool)    (* 117 *)
| R_push (f : Command) (blocking : bool)    (* 118, 120 *)
| R_test (f : Command)                      (* 125 *)
| R_spin_unlock (f : Command)               (* 128 *)
| R_spin_lock (f : Command)                 (* 129 *)
| R_unlock (f : Command) (blocking : bool)  (* 133 *)
| R_ret (f : Command) (blocking : bool) (queued : bool). (* 114, 134 *)

(** ** The state of the whole program *)

Record State : Type := mkState {
  m_emulation_thread_stop_request : bool; (* std::atomic_bool *)
  m_emulation_thread_start_result : bool; (* std::atomic_bool *)
  m_emulation_thread_started : bool; (* Event: signalled or not *)
  m_emulation_thread_joinable : bool; (* m_emulation_thread.joinable() *)
  m_callback_mutex : option tid; (* owner of the mutex, if locked *)
  m_callback_queue : list Command; (* std::deque, front first *)
  imgui_context : bool; (* ImGui context exists *)
  m_display : bool; (* m_display != nullptr *)
  m_audio_stream : bool; (* m_audio_stream != nullptr *)
  host : Host; (* base-class members *)
  wargs : StartArgs; (* arguments captured by the thread *)
  wpc : worker_pc; (* program point of the worker *)
  cpcs : nat -> caller_pc; (* program point of every caller thread *)
  aborted : bool; (* a thread function aborted (failed Assert, std::terminate) *)
  trace : list event (* what happened so far, newest first *)
}.

Definition set_m_emulation_thread_stop_request (v : bool) (s : State) : State :=
  mkState v (m_emulation_thread_start_result s) (m_emulation_thread_started s)
    (m_emulation_thread_joinable s) (m_callback_mutex s) (m_callback_queue s)
    (imgui_context s) (m_display s) (m_audio_stream s) (host s) (wargs s) (wpc s)
    (cpcs s) (aborted s) (trace s).

Definition set_m_emulation_thread_start_result (v : bool) (s : State) : State :=
  mkState (m_emulation_thread_stop_request s) v (m_emulation_thread_started s)
    (m_emulation_thread_joinable s) (m_callback_mutex s) (m_callback_queue s)
    (imgui_context s) (m_display s) (m_audio_stream s) (host s) (wargs s) (wpc s)
    (cpcs s) (aborted s) (trace s).

Definition set_m_emulation_thread_started (v : bool) (s : State) : State :=
  mkState (m_emulation_thread_stop_request s) (m_emulation_thread_start_result s) v
    (m_emulation_thread_joinable s) (m_callback_mutex s) (m_callback_queue s)
    (imgui_context s) (m_display s) (m_audio_stream s) (host s) (wargs s) (wpc s)
    (cpcs s) (aborted s) (trace s).

Definition set_m_emulation_thread_joinable (v : bool) (s : State) : State :=
  mkState (m_emulation_thread_stop_request s) (m_emulation_thread_start_result s)
    (m_emulation_thread_started s) v (m_callback_mutex s) (m_callback_queue s)
    (imgui_context s) (m_display s) (m_audio_stream s) (host s) (wargs s) (wpc s)
    (cpcs s) (aborted s) (trace s).

Definition set_m_callback_mutex (v : option tid) (s : State) : State :=
  mkState (m_emulation_thread_stop_request s) (m_emulation_thread_start_result s)
    (m_emulation_thread_started s) (m_emulation_thread_joinable s) v
    (m_callback_queue s) (imgui_context s) (m_display s) (m_audio_stream s) (host s)
    (wargs s) (wpc s) (cpcs s) (aborted s) (trace s).

Definition set_m_callback_queue (v : list Command) (s : State) : State :=
  mkState (m_emulation_thread_stop_request s) (m_emulation_thread_start_result s)
    (m_emulation_thread_started s) (m_emulation_thread_joinable s) (m_callback_mutex s)
    v (imgui_context s) (m_display s) (m_audio_stream s) (host s) (wargs s) (wpc s)
    (cpcs s) (aborted s) (trace s).

Definition set_imgui_context (v : bool) (s : State) : State :=
  mkState (m_emulation_thread_stop_request s) (m_emulation_thread_start_result s)
    (m_emulation_thread_started s) (m_emulation_thread_joinable s) (m_callback_mutex s)
    (m_callback_queue s) v (m_display s) (m_audio_stream s) (host s) (wargs s) (wpc s)
    (cpcs s) (aborted s) (trace s).

Definition set_m_display (v : bool) (s : State) : State :=
  mkState (m_emulation_thread_stop_request s) (m_emulation_thread_start_result s)
    (m_emulation_thread_started s) (m_emulation_thread_joinable s) (m_callback_mutex s)
    (m_callback_queue s) (imgui_context s) v (m_audio_stream s) (host s) (wargs s)
    (wpc s) (cpcs s) (aborted s) (trace s).

Definition set_m_audio_stream (v : bool) (s : State) : State :=
  mkState (m_emulation_thread_stop_request s) (m_emulation_thread_start_result s)
    (m_emulation_thread_started s) (m_emulation_thread_joinable s) (m_callback_mutex s)
    (m_callback_queue s) (imgui_context s) (m_display s) v (host s) (wargs s) (wpc s)
    (cpcs s) (aborted s) (trace s).

Definition set_host (v : Host) (s : State) : State :=
  mkState (m_emulation_thread_stop_request s) (m_emulation_thread_start_result s)
    (m_emulation_thread_started s) (m_emulation_thread_joinable s) (m_callback_mutex s)
    (m_callback_queue s) (imgui_context s) (m_display s) (m_audio_stream s) v (wargs s)
    (wpc s) (cpcs s) (aborted s) (trace s).

Definition set_wargs (v : StartArgs) (s : State) : State :=
  mkState (m_emulation_thread_stop_request s) (m_emulation_thread_start_result s)
    (m_emulation_thread_started s) (m_emulation_thread_joinable s) (m_callback_mutex s)
    (m_callback_queue s) (imgui_context s) (m_display s) (m_audio_stream s) (host s) v
    (wpc s) (cpcs s) (aborted s) (trace s).

Definition set_wpc (v : worker_pc) (s : State) : State :=
  mkState (m_emulation_thread_stop_request s) (m_emulation_thread_start_result s)
    (m_emulation_thread_started s) (m_emulation_thread_joinable s) (m_callback_mutex s)
    (m_callback_queue s) (imgui_context s) (m_display s) (m_audio_stream s) (host s)
    (wargs s) v (cpcs s) (aborted s) (trace s).

Definition set_cpcs (v : nat -> caller_pc) (s : State) : State :=
  mkState (m_emulation_thread_stop_request s) (m_emulation_thread_start_result s)
    (m_emulation_thread_started s) (m_emulation_thread_joinable s) (m_callback_mutex s)
    (m_callback_queue s) (imgui_context s) (m_display s) (m_audio_stream s) (host s)
    (wargs s) (wpc s) v (aborted s) (trace s).

Definition set_aborted (v : bool) (s : State) : State :=
  mkState (m_emulation_thread_stop_request s) (m_emulation_thread_start_result s)
    (m_emulation_thread_started s) (m_emulation_thread_joinable s) (m_callback_mutex s)
    (m_callback_queue s) (imgui_context s) (m_display s) (m_audio_stream s) (host s)
    (wargs s) (wpc s) (cpcs s) v (trace s).

Definition set_trace (v : list event) (s : State) : State :=
  mkState (m_emulation_thread_stop_request s) (m_emulation_thread_start_result s)
    (m_emulation_thread_started s) (m_emulation_thread_joinable s) (m_callback_mutex s)
    (m_callback_queue s) (imgui_context s) (m_display s) (m_audio_stream s) (host s)
    (wargs s) (wpc s) (cpcs s) (aborted s) v.
Notation "s |> f" := (f s) (at level 45, left associativity, only parsing).

Definition emit (e : event) (s : State) : State := set_trace (e :: trace s) s.
Definition goto (pc : worker_pc) (s : State) : State := set_wpc pc s.
Definition cgoto (t : nat) (pc : caller_pc) (s : State) : State :=
  set_cpcs (fun t' => if Nat.eqb t' t then pc else cpcs s t') s.

(** A failed [Assert], [std::terminate], or undefined behaviour: the process
    is gone and no thread moves any more. *)
Definition abort (s : State) : State := s |> set_aborted true |> emit EvAbort.

(** Modelled from the spec: [IsEmulationThreadRunning] is declared in the
    header, which is not among the sources.  The specification gives the
    worker handle a running flag that holds from the start request until
    the join; this is [m_emulation_thread.joinable()]. *)
Definition IsEmulationThreadRunning (s : State) : bool := m_emulation_thread_joinable s.

(** Modelled from the spec: the [Event] class is not among the sources.
    The specification describes the ready signal as a one-shot rendezvous
    that is fresh for every start cycle: [Signal] sets it, [Wait] blocks
    until it is set and leaves it cleared for the next cycle. *)
Definition Event_Signal (s : State) : State := set_m_emulation_thread_started true s.
Definition Event_Wait (s : State) : option State :=
  if m_emulation_thread_started s then Some (set_m_emulation_thread_started false s) else None.

(** [std::mutex::lock]: [None] while another thread holds the mutex. *)
Definition mutex_lock (t : tid) (s : State) : option State :=
  match m_callback_mutex s with
  | None => Some (set_m_callback_mutex (Some t) s)
  | Some _ => None
  end.
Definition mutex_unlock (s : State) : State := set_m_callback_mutex None s.

(** [std::thread::join]: blocks until the thread function has returned;
    on a handle that is not joinable it throws, and nothing catches. *)
Definition thread_join (s : State) : option State :=
  if m_emulation_thread_joinable s then
    match wpc s with
    | W_exited => Some (s |> set_m_emulation_thread_joinable false |> emit EvJoin)
    | _ => None
    end
  else Some (abort s).

(** A blocked step leaves the state as it is. *)
Definition or_wait (s : State) (r : option State) : State :=
  match r with Some s' => s' | None => s end.

(** ** [EmulationThreadEntryPoint], one statement per step *)

Definition EmulationThreadEntryPoint_step (s : State) : State :=
  match wpc s with
  | W_idle => s
  | W_create_imgui =>
      s |> set_imgui_context true |> emit EvCreateImGui |> goto W_create_display
  | W_create_display =>
      let ok := display_created (wargs s) in
      s |> set_m_display ok |> emit (EvCreateDisplay ok)
        |> goto (if ok then W_create_audio else W_fail_destroy_imgui)
  | W_create_audio =>
      let ok := audio_created (wargs s) && audio_reconfigured (wargs s) in
      s |> set_m_audio_stream (audio_created (wargs s))
        |> emit (EvCreateAudio (audio_created (wargs s)) ok)
        |> goto (if ok then W_boot else W_fail_reset_audio)
  | W_boot =>
      let ok := system_created (wargs s) && system_booted (wargs s) in
      s |> set_host (host_after_boot (wargs s)) |> emit (EvBootSystem ok)
        |> goto (if ok then W_store_ok else W_fail_reset_audio)
  | W_fail_reset_audio =>
      s |> set_m_audio_stream false |> emit EvResetAudio |> goto W_fail_reset_display
  | W_fail_reset_display =>
      s |> set_m_display false |> emit EvResetDisplay |> goto W_fail_destroy_imgui
  | W_fail_destroy_imgui =>
      s |> set_imgui_context false |> emit EvDestroyImGui |> goto W_fail_store
  | W_fail_store =>
      s |> set_m_emulation_thread_start_result false |> emit (EvStoreResult false)
        |> goto W_fail_signal
  | W_fail_signal =>
      s |> Event_Signal |> emit EvSignal |> goto W_exited
  | W_store_ok =>
      s |> set_m_emulation_thread_start_result true |> emit (EvStoreResult true)
        |> goto W_signal_ok
  | W_signal_ok =>
      s |> Event_Signal |> emit EvSignal |> goto W_first_newframe
  | W_first_newframe =>
      s |> emit EvFirstNewFrame |> goto W_loop_check
  | W_loop_check =>
      let stop := m_emulation_thread_stop_request s in
      s |> emit (EvLoopCheck stop) |> goto (if stop then W_shut_display else W_lock)
  | W_lock =>
      or_wait s (option_map (goto W_drain_test) (mutex_lock Worker s))
  | W_drain_test =>
      match m_callback_queue s with
      | [] => s |> emit EvDrainEmpty |> goto W_drain_unlock
      | _ :: _ => s |> goto W_pop
      end
  | W_pop =>
      match m_callback_queue s with
      | callback :: rest => s |> set_m_callback_queue rest |> goto (W_unlock_cb callback)
      | [] => abort s (* front() of an empty deque *)
      end
  | W_unlock_cb callback =>
      s |> mutex_unlock |> goto (W_call callback)
  | W_call callback =>
      s |> set_host (cmd_run callback (host s)) |> emit (EvExec Worker (cmd_id callback))
        |> goto W_relock
  | W_relock =>
      or_wait s (option_map (goto W_drain_test) (mutex_lock Worker s))
  | W_drain_unlock =>
      s |> mutex_unlock |> goto W_simulate
  | W_simulate =>
      (if m_system (host s) && negb (m_paused (host s)) then emit EvRunFrame s else s)
        |> goto W_draw_imgui
  | W_draw_imgui =>
      s |> emit EvDrawImGui |> goto W_reset_gfx
  | W_reset_gfx =>
      (if m_system (host s) then emit EvResetGfx s else s) |> goto W_imgui_render
  | W_imgui_render =>
      s |> emit EvImGuiRender |> goto W_display_render
  | W_display_render =>
      s |> emit EvDisplayRender |> goto W_newframe
  | W_newframe =>
      s |> emit EvNewFrame |> goto W_restore_gfx
  | W_restore_gfx =>
      if m_system (host s)
      then s |> emit EvRestoreGfx |> goto W_limiter
      else s |> goto W_update_perf
  | W_limiter =>
      (if m_speed_limiter_enabled (host s) then emit EvThrottle s else s)
        |> goto W_update_perf
  | W_update_perf =>
      s |> emit EvUpdatePerf |> goto W_loop_check
  | W_shut_display =>
      s |> set_m_display false |> emit EvResetDisplay |> goto W_shut_audio
  | W_shut_audio =>
      s |> set_m_audio_stream false |> emit EvResetAudio |> goto W_shut_imgui
  | W_shut_imgui =>
      s |> set_imgui_context false |> emit EvDestroyImGui |> goto W_exited
  | W_exited => s
  end.

(** ** [StartEmulationThread] *)

(** Line 87: assigning a new thread to a handle that is still joinable
    calls [std::terminate]. *)
Definition spawn (a : StartArgs) (s : State) : State :=
  if m_emulation_thread_joinable s then abort s
  else s |> set_m_emulation_thread_joinable true |> set_wargs a |> goto W_create_imgui
         |> emit EvSpawn.

Definition StartEmulationThread_step (t : nat) (pc : caller_pc) (s : State) : State :=
  match pc with
  | S_assert a =>
      if IsEmulationThreadRunning s then abort s else s |> cgoto t (S_store_stop a)
  | S_store_stop a =>
      s |> set_m_emulation_thread_stop_request false |> emit (EvStoreStop false)
        |> cgoto t (S_spawn a)
  | S_spawn a =>
      s |> spawn a |> cgoto t (S_wait a)
  | S_wait a =>
      or_wait s (option_map (cgoto t (S_load a)) (Event_Wait s))
  | S_load a =>
      if m_emulation_thread_start_result s
      then s |> cgoto t (S_ret a true)
      else s |> cgoto t (S_join a)
  | S_join a =>
      or_wait s (option_map (cgoto t (S_ret a false)) (thread_join s))
  | S_ret a result =>
      s |> emit (EvStartReturn result) |> cgoto t C_idle
  | _ => s
  end.

(** ** [StopEmulationThread] *)

Definition StopEmulationThread_step (t : nat) (pc : caller_pc) (s : State) : State :=
  match pc with
  | T_assert =>
      if IsEmulationThreadRunning s then s |> cgoto t T_store else abort s
  | T_store =>
      s |> set_m_emulation_thread_stop_request true |> emit (EvStoreStop true)
        |> cgoto t T_join
  | T_join =>
      or_wait s (option_map (cgoto t T_ret) (thread_join s))
  | T_ret =>
      s |> emit EvStopReturn |> cgoto t C_idle
  | _ => s
  end.

(** ** [RunOnEmulationThread] *)

Definition RunOnEmulationThread_step (t : nat) (pc : caller_pc) (s : State) : State :=
  match pc with
  | R_check f blocking =>
      if negb (IsEmulationThreadRunning s)
      then s |> cgoto t (R_inline f blocking)
      else s |> cgoto t (R_lock f blocking)
  | R_inline f blocking =>
      s |> set_host (cmd_run f (host s)) |> emit (EvExec (Caller t) (cmd_id f))
        |> cgoto t (R_ret f blocking false)
  | R_lock f blocking =>
      or_wait s (option_map (cgoto t (R_push f blocking)) (mutex_lock (Caller t) s))
  | R_push f blocking =>
      s |> set_m_callback_queue (m_callback_queue s ++ [f]) |> emit (EvAppend t (cmd_id f))
        |> cgoto t (if blocking then R_test f else R_unlock f false)
  | R_test f =>
      match m_callback_queue s with
      | [] => s |> emit (EvSeenEmpty t) |> cgoto t (R_unlock f true)
      | _ :: _ => s |> cgoto t (R_spin_unlock f)
      end
  | R_spin_unlock f =>
      s |> mutex_unlock |> cgoto t (R_spin_lock f)
  | R_spin_lock f =>
      or_wait s (option_map (cgoto t (R_test f)) (mutex_lock (Caller t) s))
  | R_unlock f blocking =>
      s |> mutex_unlock |> cgoto t (R_ret f blocking true)
  | R_ret f blocking queued =>
      s |> emit (EvRunReturn t (cmd_id f) blocking queued) |> cgoto t C_idle
  | _ => s
  end.

(** ** Scheduling *)

Inductive api_call : Type :=
| CallStart (a : StartArgs)
| CallStop
| CallRun (f : Command) (blocking : bool).

Inductive label : Type :=
| LWorker                          (* the worker executes its next statement *)
| LCall (t : nat) (c : api_call)   (* idle caller [t] enters an entry point *)
| LStep (t : nat).                 (* caller [t] executes its next statement *)

Definition begin_call (t : nat) (c : api_call) (s : State) : State :=
  match cpcs s t with
  | C_idle =>
      match c with
      | CallStart a =>
          if Nat.eqb t controller then s |> emit EvStartCall |> cgoto t (S_assert a) else s
      | CallStop =>
          if Nat.eqb t controller then s |> emit EvStopCall |> cgoto t T_assert else s
      | CallRun f blocking =>
          s |> emit (EvRunCall t (cmd_id f) blocking) |> cgoto t (R_check f blocking)
      end
  | _ => s
  end.

Definition caller_step (t : nat) (s : State) : State :=
  match cpcs s t with
  | C_idle => s
  | S_assert _ | S_store_stop _ | S_spawn _ | S_wait _ | S_load _ | S_join _ | S_ret _ _ =>
      StartEmulationThread_step t (cpcs s t) s
  | T_assert | T_store | T_join | T_ret =>
      StopEmulationThread_step t (cpcs s t) s
  | R_check _ _ | R_inline _ _ | R_lock _ _ | R_push _ _ | R_test _ | R_spin_unlock _
  | R_spin_lock _ | R_unlock _ _ | R_ret _ _ _ =>
      RunOnEmulationThread_step t (cpcs s t) s
  end.

Definition step (l : label) (s : State) : State :=
  if aborted s then s
  else match l with
       | LWorker => EmulationThreadEntryPoint_step s
       | LCall t c => begin_call t c s
       | LStep t => caller_step t s
       end.

Definition exec (sched : list label) (s : State) : State :=
  fold_left (fun s l => step l s) sched s.

(** Before the first start: no thread, nothing acquired, nothing queued.
    The two atomic flags and the host members may hold anything. *)
Definition initial_state (stop0 result0 : bool) (h : Host) : State :=
  mkState stop0 result0 false false None [] false false false h no_args W_idle
          (fun _ => C_idle) false [].

Definition Reachable (s : State) : Prop :=
  exists stop0 result0 h sched, s = exec sched (initial_state stop0 result0 h).

(** ** Reading the trace *)

(** Identities of the commands appended to the queue, oldest first. *)
Fixpoint appended_ids (tr : list event) : list nat :=
  match tr with
  | [] => []
  | EvAppend _ id :: older => appended_ids older ++ [id]
  | _ :: older => appended_ids older
  end.

(** Identities of the commands the worker has run, oldest first. *)
Fixpoint executed_ids (tr : list event) : list nat :=
  match tr with
  | [] => []
  | EvExec Worker id :: older => executed_ids older ++ [id]
  | _ :: older => executed_ids older
  end.

(** The command the worker has removed from the queue and not run yet. *)
Definition in_flight (pc : worker_pc) : list nat :=
  match pc with
  | W_unlock_cb c | W_call c => [cmd_id c]
  | _ => []
  end.

(** Identities appended before the worker last saw the queue empty. *)
Fixpoint drained_prefix (tr : list event) : list nat :=
  match tr with
  | [] => []
  | EvDrainEmpty :: older => appended_ids older
  | _ :: older => drained_prefix older
  end.

(** Identities appended before the newest call of [StopEmulationThread]. *)
Fixpoint appended_before_stop (tr : list event) : list nat :=
  match tr with
  | [] => []
  | EvStopCall :: older => appended_ids older
  | _ :: older => appended_before_stop older
  end.

(** Number of [Signal] calls since the newest thread was started. *)
Fixpoint signals_since_spawn (tr : list event) : nat :=
  match tr with
  | [] => 0
  | EvSpawn :: _ => 0
  | EvSignal :: older => S (signals_since_spawn older)
  | _ :: older => signals_since_spawn older
  end.

(** Newest value stored into the start-result flag since the newest thread
    was started. *)
Fixpoint result_stored_since_spawn (tr : list event) : option bool :=
  match tr with
  | [] => None
  | EvSpawn :: _ => None
  | EvStoreResult b :: _ => Some b
  | _ :: older => result_stored_since_spawn older
  end.

(** Newest value stored into the stop-request flag. *)
Fixpoint last_stop_store (tr : list event) : option bool :=
  match tr with
  | [] => None
  | EvStoreStop b :: _ => Some b
  | _ :: older => last_stop_store older
  end.

(** Whether [StopEmulationThread] stored its request after the newest
    thread was started. *)
Fixpoint stop_stored_since_spawn (tr : list event) : bool :=
  match tr with
  | [] => false
  | EvSpawn :: _ => false
  | EvStoreStop b :: _ => b
  | _ :: older => stop_stored_since_spawn older
  end.

(** Whether the newest thread has been joined. *)
Fixpoint joined_since_spawn (tr : list event) : bool :=
  match tr with
  | [] => false
  | EvSpawn :: _ => false
  | EvJoin :: _ => true
  | _ :: older => joined_since_spawn older
  end.

(** What the start-up sequence acquires. *)
Inductive resource : Type := ImGuiContext | Display | AudioStream.

(** Resources acquired, and resources released, since the newest thread was
    started; oldest first. *)
Fixpoint acquired_since_spawn (tr : list event) : list resource :=
  match tr with
  | [] => []
  | EvSpawn :: _ => []
  | EvCreateImGui :: older => acquired_since_spawn older ++ [ImGuiContext]
  | EvCreateDisplay true :: older => acquired_since_spawn older ++ [Display]
  | EvCreateAudio true _ :: older => acquired_since_spawn older ++ [AudioStream]
  | _ :: older => acquired_since_spawn older
  end.

Fixpoint released_since_spawn (tr : list event) : list resource :=
  match tr with
  | [] => []
  | EvSpawn :: _ => []
  | EvDestroyImGui :: older => released_since_spawn older ++ [ImGuiContext]
  | EvResetDisplay :: older => released_since_spawn older ++ [Display]
  | EvResetAudio :: older => released_since_spawn older ++ [AudioStream]
  | _ :: older => released_since_spawn older
  end.

(** Whether a resource is held, as the trace tells it: the newest entry
    that acquires or releases it decides. *)
Definition acquires (r : resource) (e : event) : bool :=
  match r, e with
  | ImGuiContext, EvCreateImGui => true
  | Display, EvCreateDisplay true => true
  | AudioStream, EvCreateAudio true _ => true
  | _, _ => false
  end.

Definition releases (r : resource) (e : event) : bool :=
  match r, e with
  | ImGuiContext, EvDestroyImGui => true
  | Display, EvResetDisplay => true
  | AudioStream, EvResetAudio => true
  | _, _ => false
  end.

Fixpoint holds_since_spawn (r : resource) (tr : list event) : bool :=
  match tr with
  | [] => false
  | EvSpawn :: _ => false
  | e :: older =>
      if releases r e then false
      else if acquires r e then true
      else holds_since_spawn r older
  end.

(** The same, as the members tell it. *)
Definition held_flag (r : resource) (s : State) : bool :=
  match r with
  | ImGuiContext => imgui_context s
  | Display => m_display s
  | AudioStream => m_audio_stream s
  end.

(** No resource of the start-up sequence is held. *)
Definition nothing_held (s : State) : Prop :=
  imgui_context s = false /\ m_display s = false /\ m_audio_stream s = false.

(** Overlay context, display and audio stream are all held. *)
Definition all_held (s : State) : Prop :=
  imgui_context s = true /\ m_display s = true /\ m_audio_stream s = true.

(** Caller [t] enters [RunOnEmulationThread]. *)
Definition is_run_call (t : nat) (e : event) : bool :=
  match e with
  | EvRunCall t' _ _ => Nat.eqb t' t
  | _ => false
  end.

Definition no_run_call (t : nat) (l : list event) : Prop :=
  forallb (fun e => negb (is_run_call t e)) l = true.

(** Within the current call of [t]: the entry was appended. *)
Definition appended_in_call (t id : nat) (tr : list event) : Prop :=
  exists b c, tr = b ++ EvAppend t id :: c /\ no_run_call t b.

(** Within the current call of [t]: the entry was appended and, later, [t]
    saw the queue empty. *)
Definition seen_empty_after_append (t id : nat) (tr : list event) : Prop :=
  exists a b c,
    tr = a ++ EvSeenEmpty t :: b ++ EvAppend t id :: c /\ no_run_call t (a ++ b).

(** Trace entries of caller [t]. *)
Definition is_event_of (t : nat) (e : event) : bool :=
  match e with
  | EvExec (Caller t') _ | EvRunCall t' _ _ | EvAppend t' _ | EvSeenEmpty t'
  | EvRunReturn t' _ _ _ => Nat.eqb t' t
  | _ => false
  end.

Definition events_of (t : nat) (tr : list event) : list event :=
  filter (is_event_of t) tr.

(** The schedule entry moves caller [t]. *)
Definition moves (t : nat) (l : label) : bool :=
  match l with
  | LWorker => false
  | LCall t' _ | LStep t' => Nat.eqb t' t
  end.

(** ** The shape of one loop iteration *)

Definition is_frame_event (e : event) : bool :=
  match e with
  | EvDrainEmpty | EvRunFrame | EvDrawImGui | EvResetGfx | EvImGuiRender
  | EvDisplayRender | EvNewFrame | EvRestoreGfx | EvThrottle | EvUpdatePerf => true
  | _ => false
  end.

(** What the worker did in the loop since it last tested the stop flag,
    newest first; the commands it ran are left out. *)
Fixpoint iteration_events (tr : list event) : list event :=
  match tr with
  | [] => []
  | EvLoopCheck _ :: _ => []
  | e :: older =>
      if is_frame_event e then e :: iteration_events older else iteration_events older
  end.

Definition opt (b : bool) (e : event) : list event := if b then [e] else [].

(** Lines 200-216, newest first: drain finished, optional [RunFrame],
    overlay, optional graphics reset, render, present, new frame. *)
Definition rendered (sim reset : bool) : list event :=
  [EvNewFrame; EvDisplayRender; EvImGuiRender] ++ opt reset EvResetGfx
  ++ [EvDrawImGui] ++ opt sim EvRunFrame ++ [EvDrainEmpty].

(** Lines 218-224, newest first: nothing, the graphics restore alone, or the
    restore followed by the throttle. *)
Definition valid_tail (tail : list event) : Prop :=
  tail = [] \/ tail = [EvRestoreGfx] \/ tail = [EvThrottle; EvRestoreGfx].

(** ** Classification of program points *)

(** The worker has been started and has not called [Signal] yet. *)
Definition in_startup (pc : worker_pc) : bool :=
  match pc with
  | W_create_imgui | W_create_display | W_create_audio | W_boot
  | W_fail_reset_audio | W_fail_reset_display | W_fail_destroy_imgui
  | W_fail_store | W_fail_signal | W_store_ok | W_signal_ok => true
  | _ => false
  end.

(** The worker has called [Signal]. *)
Definition after_signal (pc : worker_pc) : bool :=
  match pc with
  | W_idle => false
  | _ => negb (in_startup pc)
  end.

(** The worker holds [m_callback_mutex]. *)
Definition worker_holds (pc : worker_pc) : bool :=
  match pc with
  | W_drain_test | W_pop | W_unlock_cb _ | W_drain_unlock => true
  | _ => false
  end.

(** A caller holds [m_callback_mutex]. *)
Definition caller_holds (pc : caller_pc) : bool :=
  match pc with
  | R_push _ _ | R_test _ | R_spin_unlock _ | R_unlock _ _ => true
  | _ => false
  end.

(** The caller is inside [StartEmulationThread] or [StopEmulationThread]. *)
Definition in_lifecycle_call (pc : caller_pc) : bool :=
  match pc with
  | S_assert _ | S_store_stop _ | S_spawn _ | S_wait _ | S_load _ | S_join _ | S_ret _ _
  | T_assert | T_store | T_join | T_ret => true
  | _ => false
  end.

(** Outside the drain, what the worker has run is what was appended before
    it last saw the queue empty. *)
Definition in_drain (pc : worker_pc) : bool :=
  match pc with
  | W_drain_test | W_pop | W_unlock_cb _ | W_call _ | W_relock => true
  | _ => false
  end.

(** ** Invariants of the life cycle *)

(** What the worker's program point says about the resources, the
    start-up arguments and the result flag. *)
Definition worker_inv (s : State) : Prop :=
  match wpc s with
  | W_idle => nothing_held s /\ m_emulation_thread_joinable s = false
  | W_create_imgui => nothing_held s
  | W_create_display =>
      imgui_context s = true /\ m_display s = false /\ m_audio_stream s = false
  | W_create_audio =>
      imgui_context s = true /\ m_display s = true /\ m_audio_stream s = false
      /\ display_ok (wargs s) = true
  | W_boot =>
      all_held s /\ display_ok (wargs s) = true /\ audio_ok (wargs s) = true
  | W_fail_reset_audio =>
      imgui_context s = true /\ m_display s = true /\ start_ok (wargs s) = false
  | W_fail_reset_display =>
      imgui_context s = true /\ m_display s = true /\ m_audio_stream s = false
      /\ start_ok (wargs s) = false
  | W_fail_destroy_imgui =>
      imgui_context s = true /\ m_display s = false /\ m_audio_stream s = false
      /\ start_ok (wargs s) = false
  | W_fail_store => nothing_held s /\ start_ok (wargs s) = false
  | W_fail_signal =>
      nothing_held s /\ start_ok (wargs s) = false
      /\ m_emulation_thread_start_result s = false
  | W_store_ok => all_held s /\ start_ok (wargs s) = true
  | W_signal_ok =>
      all_held s /\ start_ok (wargs s) = true /\ m_emulation_thread_start_result s = true
  | W_shut_audio =>
      imgui_context s = true /\ m_display s = false /\ m_audio_stream s = true
      /\ start_ok (wargs s) = true
  | W_shut_imgui =>
      imgui_context s = true /\ m_display s = false /\ m_audio_stream s = false
      /\ start_ok (wargs s) = true
  | W_exited => nothing_held s
  | _ => all_held s /\ start_ok (wargs s) = true
  end.

(** What the controller's program point says about the thread handle, the
    event and the result flag. *)
Definition quiet (s : State) : Prop :=
  m_emulation_thread_started s = false /\ in_startup (wpc s) = false.

Definition controller_inv (s : State) : Prop :=
  match cpcs s controller with
  | S_assert _ => quiet s
  | S_store_stop _ => quiet s /\ m_emulation_thread_joinable s = false
  | S_spawn _ =>
      quiet s /\ m_emulation_thread_joinable s = false
      /\ m_emulation_thread_stop_request s = false
  | S_wait a =>
      m_emulation_thread_joinable s = true /\ wargs s = a
      /\ (if m_emulation_thread_started s
          then after_signal (wpc s) = true
               /\ m_emulation_thread_start_result s = start_ok a
          else in_startup (wpc s) = true)
  | S_load a =>
      quiet s /\ m_emulation_thread_joinable s = true /\ wargs s = a
      /\ after_signal (wpc s) = true /\ m_emulation_thread_start_result s = start_ok a
  | S_join a =>
      quiet s /\ m_emulation_thread_joinable s = true /\ wargs s = a
      /\ after_signal (wpc s) = true /\ start_ok a = false
  | S_ret a result =>
      quiet s /\ result = start_ok a
      /\ (if result then m_emulation_thread_joinable s = true
          else m_emulation_thread_joinable s = false /\ wpc s = W_exited)
  | T_store | T_join => quiet s /\ m_emulation_thread_joinable s = true
  | T_ret => quiet s /\ m_emulation_thread_joinable s = false /\ wpc s = W_exited
  | _ => quiet s
  end.

Definition Inv_life (s : State) : Prop :=
  worker_inv s /\ controller_inv s
  /\ (m_emulation_thread_joinable s = false -> wpc s = W_idle \/ wpc s = W_exited)
  /\ (forall t, t <> controller -> in_lifecycle_call (cpcs s t) = false).

Definition Inv_join (s : State) : Prop :=
  match cpcs s controller with
  | S_ret _ false | T_ret => joined_since_spawn (trace s) = true
  | _ => True
  end.

(** While a thread exists, the stop flag tells whether
    [StopEmulationThread] stored its request after that thread was
    started. *)
Definition Inv_stop (s : State) : Prop :=
  (m_emulation_thread_joinable s = true ->
   m_emulation_thread_stop_request s = stop_stored_since_spawn (trace s))
  /\ (forall a, cpcs s controller = S_spawn a -> last_stop_store (trace s) = Some false).

(** The trace and the members agree on what is held; the signal count and
    the stored result follow the worker's program point. *)
Definition Inv_signal (s : State) : Prop :=
  (forall r, holds_since_spawn r (trace s) = held_flag r s)
  /\ signals_since_spawn (trace s) = (if after_signal (wpc s) then 1 else 0)
  /\ match wpc s with
     | W_fail_signal => result_stored_since_spawn (trace s) = Some false
     | W_signal_ok => result_stored_since_spawn (trace s) = Some true
     | _ => True
     end.

(** On the path of a successful start: what has been acquired and what has
    been released since the thread was started, by program point. *)
Definition Inv_release (s : State) : Prop :=
  start_ok (wargs s) = true ->
  match wpc s with
  | W_idle => True
  | W_create_imgui =>
      acquired_since_spawn (trace s) = [] /\ released_since_spawn (trace s) = []
  | W_create_display =>
      acquired_since_spawn (trace s) = [ImGuiContext]
      /\ released_since_spawn (trace s) = []
  | W_create_audio =>
      acquired_since_spawn (trace s) = [ImGuiContext; Display]
      /\ released_since_spawn (trace s) = []
  | W_shut_audio =>
      acquired_since_spawn (trace s) = [ImGuiContext; Display; AudioStream]
      /\ released_since_spawn (trace s) = [Display]
  | W_shut_imgui =>
      acquired_since_spawn (trace s) = [ImGuiContext; Display; AudioStream]
      /\ released_since_spawn (trace s) = [Display; AudioStream]
  | W_exited =>
      acquired_since_spawn (trace s) = [ImGuiContext; Display; AudioStream]
      /\ released_since_spawn (trace s) = [Display; AudioStream; ImGuiContext]
  | _ =>
      acquired_since_spawn (trace s) = [ImGuiContext; Display; AudioStream]
      /\ released_since_spawn (trace s) = []
  end.

(** ** Invariants of the callback queue *)

(** Mutual exclusion: the owner recorded in the mutex is the one thread
    whose program point lies inside a locked region. *)
Definition Inv_mutex (s : State) : Prop :=
  match m_callback_mutex s with
  | None =>
      worker_holds (wpc s) = false /\ forall t, caller_holds (cpcs s t) = false
  | Some Worker =>
      worker_holds (wpc s) = true /\ forall t, caller_holds (cpcs s t) = false
  | Some (Caller t0) =>
      worker_holds (wpc s) = false
      /\ caller_holds (cpcs s t0) = true
      /\ forall t, t <> t0 -> caller_holds (cpcs s t) = false
  end.

(** What the worker knows about the queue between the test of line 191
    and the statement that follows it. *)
Definition Inv_queue (s : State) : Prop :=
  match wpc s with
  | W_pop => m_callback_queue s <> []
  | W_drain_unlock => m_callback_queue s = []
  | _ => True
  end.

(** First in, first out: what was appended is what the worker has run,
    then the command it holds, then the queue, in this order. *)
Definition Inv_fifo (s : State) : Prop :=
  appended_ids (trace s)
  = executed_ids (trace s) ++ in_flight (wpc s) ++ map cmd_id (m_callback_queue s).

Definition Inv_drained (s : State) : Prop :=
  in_drain (wpc s) = false -> executed_ids (trace s) = drained_prefix (trace s).

(** What the trace holds about the current call of caller [t], by the
    program point of [t]. *)
Definition block_ok (t : nat) (pc : caller_pc) (tr : list event) : Prop :=
  match pc with
  | R_test f | R_spin_unlock f | R_spin_lock f => appended_in_call t (cmd_id f) tr
  | R_unlock f true | R_ret f true true => seen_empty_after_append t (cmd_id f) tr
  | _ => True
  end.

Definition Inv_block (s : State) : Prop :=
  forall t, block_ok t (cpcs s t) (trace s).

(** ** Invariant of the frame loop *)

Definition Inv_frame (s : State) : Prop :=
  let it := iteration_events (trace s) in
  match wpc s with
  | W_lock | W_drain_test | W_pop | W_unlock_cb _ | W_call _ | W_relock => it = []
  | W_drain_unlock | W_simulate => it = [EvDrainEmpty]
  | W_draw_imgui => exists sim, it = opt sim EvRunFrame ++ [EvDrainEmpty]
  | W_reset_gfx => exists sim, it = [EvDrawImGui] ++ opt sim EvRunFrame ++ [EvDrainEmpty]
  | W_imgui_render =>
      exists sim reset,
        it = opt reset EvResetGfx ++ [EvDrawImGui] ++ opt sim EvRunFrame ++ [EvDrainEmpty]
  | W_display_render =>
      exists sim reset,
        it = [EvImGuiRender] ++ opt reset EvResetGfx ++ [EvDrawImGui]
             ++ opt sim EvRunFrame ++ [EvDrainEmpty]
  | W_newframe =>
      exists sim reset,
        it = [EvDisplayRender; EvImGuiRender] ++ opt reset EvResetGfx ++ [EvDrawImGui]
             ++ opt sim EvRunFrame ++ [EvDrainEmpty]
  | W_restore_gfx => exists sim reset, it = rendered sim reset
  | W_limiter => exists sim reset, it = [EvRestoreGfx] ++ rendered sim reset
  | W_update_perf =>
      exists sim reset tail, valid_tail tail /\ it = tail ++ rendered sim reset
  | _ => True
  end.

(** ** The property of scenario C *)

(** The property of the specification: every command appended before
    [StopEmulationThread] was called has been run by the worker when the
    call returns. *)
Definition all_submitted_before_stop_executed : Prop :=
  forall s, Reachable s -> cpcs s controller = T_ret ->
  forall id, In id (appended_before_stop (trace s)) -> In id (executed_ids (trace s)).

(** ** Schedules used as examples *)

Definition valid_game : StartArgs :=
  mkStartArgs true true true true true (mkHost true false true).

Definition corrupt_game : StartArgs :=
  mkStartArgs true true true true false (mkHost true false true).

Definition fresh_state : State := initial_state false false (mkHost false false false).

Definition command (id : nat) : Command := mkCommand id (fun h => h).

(** A command that destroys the system; once the worker has run it, the
    worker is about to simulate, no system exists, and the speed limiter is
    still enabled. *)
Definition destroy_system : Command :=
  mkCommand 9 (fun h => mkHost false (m_paused h) (m_speed_limiter_enabled h)).

(** A command that pauses the emulation. *)
Definition pause_emulation : Command :=
  mkCommand 5 (fun h => mkHost (m_system h) true (m_speed_limiter_enabled h)).

(** What running the entries of a queue, front first, does to the host
    members. *)
Definition run_all (q : list Command) (h : Host) : Host :=
  fold_left (fun h c => cmd_run c h) q h.

(** The caller runs [StartEmulationThread] up to the wait, the worker runs
    its start-up, the caller wakes and reaches its [return]. *)
Definition start_schedule (a : StartArgs) : list label :=
  LCall controller (CallStart a) :: repeat (LStep controller) 3
  ++ repeat LWorker 9
  ++ repeat (LStep controller) (if start_ok a then 2 else 3).

(** Two cycles: a successful start, a stop, and a second successful start.
    The stop request of the first cycle is still in the flag when the second
    [StartEmulationThread] begins. *)
Definition stop_schedule : list label :=
  LCall controller CallStop :: repeat (LStep controller) 2
  ++ repeat LWorker 20
  ++ [LStep controller].

(** A successful start followed by a stop, up to the [return] of
    [StopEmulationThread]. *)
Definition start_stop_schedule : list label :=
  start_schedule valid_game ++ [LStep controller] ++ stop_schedule.

Definition restart_schedule : list label :=
  start_schedule valid_game ++ [LStep controller]
  ++ stop_schedule ++ [LStep controller]
  ++ [LCall controller (CallStart valid_game); LStep controller].

(** The controller returns from a successful start and the worker finishes
    its first, empty drain. *)
Definition running_schedule : list label :=
  start_schedule valid_game ++ [LStep controller] ++ repeat LWorker 2.

(** Caller 1 submits commands 1, 2 and 3 with [blocking = false] while the
    worker is past its drain; then the controller calls
    [StopEmulationThread], the worker finishes its iteration, sees the
    request and shuts down, and the controller joins it. *)
Definition submit (t id : nat) : list label :=
  LCall t (CallRun (command id) false) :: repeat (LStep t) 5.

(** Caller 1 submits command 7 with [blocking = true]: it appends, finds the
    queue non-empty and lets go of the mutex; the worker completes its
    iteration, starts the next one and drains; the caller then finds the queue
    empty and reaches its [return]. *)
Definition blocking_schedule : list label :=
  running_schedule
  ++ LCall 1 (CallRun (command 7) true) :: repeat (LStep 1) 5
  ++ repeat LWorker 18
  ++ repeat (LStep 1) 3.

Definition submit_then_stop_schedule : list label :=
  running_schedule ++ submit 1 1 ++ submit 1 2 ++ submit 1 3 ++ stop_schedule.

(** The worker is running command 1 when caller 2 appends command 2. *)
Definition mid_drain_schedule : list label :=
  running_schedule ++ submit 1 1
  ++ repeat LWorker 14
  ++ [LCall 2 (CallRun (command 2) false); LStep 2].

(** Caller 1 has submitted [pause_emulation] without blocking; the worker
    has finished its iteration, locked the mutex and stands at the test of
    line 191 with that one entry queued. *)
Definition pause_queued_schedule : list label :=
  running_schedule
  ++ LCall 1 (CallRun pause_emulation false) :: repeat (LStep 1) 5
  ++ repeat LWorker 11.

Definition no_system_schedule : list label :=
  running_schedule
  ++ LCall 1 (CallRun destroy_system false) :: repeat (LStep 1) 5
  ++ repeat LWorker 18.

(* ================================================================== *)
(** * Part III: further properties of the thread and the queue         *)
(* ================================================================== *)

(** ** More example schedules *)

(** Caller 1 has taken the mutex and is about to append command 1
    (line 118). *)
Definition pushing_schedule : list label :=
  running_schedule ++ [LCall 1 (CallRun (command 1) false); LStep 1; LStep 1].

(** Caller 1 has appended and still holds the mutex; caller 2 has arrived
    at line 117 and cannot pass. *)
Definition contended_schedule : list label :=
  pushing_schedule
  ++ [LStep 1; LCall 2 (CallRun (command 2) false); LStep 2; LStep 2].

(** Caller 1 has appended command 1; the worker has finished its
    iteration, locked the mutex, found the queue non-empty and stands at
    line 194. *)
Definition popping_schedule : list label :=
  running_schedule ++ submit 1 1 ++ repeat LWorker 12.

(** ** The running thread *)

(** The worker is between the first [ImGui::NewFrame] (line 183) and the
    end of the loop body (line 226). *)
Definition in_frame_loop (pc : worker_pc) : bool :=
  match pc with
  | W_first_newframe | W_loop_check | W_lock | W_drain_test | W_pop
  | W_unlock_cb _ | W_call _ | W_relock | W_drain_unlock | W_simulate
  | W_draw_imgui | W_reset_gfx | W_imgui_render | W_display_render
  | W_newframe | W_restore_gfx | W_limiter | W_update_perf => true
  | _ => false
  end.

(** The controller is inside [StartEmulationThread], past line 87. *)
Definition after_spawn (pc : caller_pc) : bool :=
  match pc with
  | S_wait _ | S_load _ | S_join _ | S_ret _ _ => true
  | _ => false
  end.

(** The worker leaves the loop only on a stop request of its own cycle, and
    no such request is stored while [StartEmulationThread] is waiting. *)
Definition Inv_running (s : State) : Prop :=
  match wpc s with
  | W_shut_display | W_shut_audio | W_shut_imgui =>
      stop_stored_since_spawn (trace s) = true
  | W_exited =>
      m_emulation_thread_joinable s = true -> start_ok (wargs s) = true ->
      stop_stored_since_spawn (trace s) = true
  | _ => True
  end
  /\ (after_spawn (cpcs s controller) = true ->
      stop_stored_since_spawn (trace s) = false)
  /\ (forall a result, cpcs s controller = S_ret a result -> wargs s = a).

(** The worker is in the part of the loop body that follows the drain, or
    at the loop test. *)
Definition past_drain (pc : worker_pc) : bool :=
  match pc with
  | W_first_newframe | W_loop_check | W_drain_unlock | W_simulate
  | W_draw_imgui | W_reset_gfx | W_imgui_render | W_display_render
  | W_newframe | W_restore_gfx | W_limiter | W_update_perf => true
  | _ => false
  end.

(** Caller 1 has appended command 1 without blocking and has returned; the
    controller has stored its stop request and waits in [join]. *)
Definition stop_requested_schedule : list label :=
  running_schedule ++ submit 1 1
  ++ [LCall controller CallStop; LStep controller; LStep controller].

(** ** Blocking submissions and the life of the worker *)

(** What the worker has taken out of the queue: the commands it has run and
    the one it is holding. *)
Definition taken_ids (s : State) : list nat :=
  executed_ids (trace s) ++ in_flight (wpc s).

(** A blocking call that went through the queue is past its loop. *)
Definition Inv_taken (s : State) : Prop :=
  forall t f,
    cpcs s t = R_unlock f true \/ cpcs s t = R_ret f true true ->
    In (cmd_id f) (taken_ids s).

(** Caller 1 submits command 7 with [blocking = true] and lets go of the
    mutex; the worker completes its iteration, pops the command and unlocks
    to run it; before it does, the caller finds the queue empty and reaches
    its [return]. *)
Definition early_return_schedule : list label :=
  running_schedule
  ++ LCall 1 (CallRun (command 7) true) :: repeat (LStep 1) 5
  ++ repeat LWorker 14
  ++ repeat (LStep 1) 3.

(** The caller is inside the loop of lines 123-130. *)
Definition in_spin (pc : caller_pc) : bool :=
  match pc with
  | R_test _ | R_spin_unlock _ | R_spin_lock _ => true
  | _ => false
  end.

(** The caller is inside [StartEmulationThread]. *)
Definition in_start_call (pc : caller_pc) : bool :=
  match pc with
  | S_assert _ | S_store_stop _ | S_spawn _ | S_wait _ | S_load _ | S_join _
  | S_ret _ _ => true
  | _ => false
  end.

Definition is_start (l : label) : bool :=
  match l with
  | LCall _ (CallStart _) => true
  | _ => false
  end.

(** The controller has stored its stop request; caller 1 then appends
    command 7 with [blocking = true]; the worker, past its drain, finishes
    the iteration, finds the request and returns. *)
Definition late_blocking_schedule : list label :=
  running_schedule
  ++ [LCall controller CallStop; LStep controller; LStep controller]
  ++ LCall 1 (CallRun (command 7) true) :: repeat (LStep 1) 3
  ++ repeat LWorker 13.

(** ** The overlay frame protocol *)

(** Calls into the overlay library made by the worker: context creation
    and destruction, [NewFrame] (lines 183 and 216), [DrawImGui] (line 208)
    and [Render] (line 213). *)
Definition is_imgui_event (e : event) : bool :=
  match e with
  | EvCreateImGui | EvDestroyImGui | EvFirstNewFrame | EvNewFrame
  | EvDrawImGui | EvImGuiRender => true
  | _ => false
  end.

(** The newest call into the overlay library. *)
Fixpoint last_imgui_event (tr : list event) : option event :=
  match tr with
  | [] => None
  | e :: older => if is_imgui_event e then Some e else last_imgui_event older
  end.

(** A frame is open: the newest overlay call is a [NewFrame]. *)
Definition frame_open (tr : list event) : Prop :=
  last_imgui_event tr = Some EvNewFrame \/ last_imgui_event tr = Some EvFirstNewFrame.

Definition Inv_imgui (s : State) : Prop :=
  match wpc s with
  | W_loop_check | W_lock | W_drain_test | W_pop | W_unlock_cb _ | W_call _
  | W_relock | W_drain_unlock | W_simulate | W_draw_imgui | W_restore_gfx
  | W_limiter | W_update_perf => frame_open (trace s)
  | W_reset_gfx => last_imgui_event (trace s) = Some EvDrawImGui
  | W_imgui_render => last_imgui_event (trace s) = Some EvDrawImGui
  | W_display_render | W_newframe => last_imgui_event (trace s) = Some EvImGuiRender
  | W_create_display | W_create_audio | W_boot | W_store_ok | W_signal_ok
  | W_first_newframe => last_imgui_event (trace s) = Some EvCreateImGui
  | _ => True
  end.

(** ** [SurfaceChanged] *)

(** The display object, reduced to the window it renders to; window
    handles are addresses, [0] is [nullptr]. *)
Record HostDisplay : Type := mkHostDisplay {
  GetRenderWindow : Z
}.

(** The two calls [SurfaceChanged] can make on the display. *)
Inductive display_call : Type :=
| WindowResized
| ChangeRenderWindow (window : Z).

(** Lines 316-326.  [m_display] is dereferenced without a test: [None]
    is the null dereference. *)
Definition SurfaceChanged (display : option HostDisplay) (window : Z)
  : option display_call :=
  match display with
  | None => None
  | Some d =>
      if Z.eqb (GetRenderWindow d) window
      then Some WindowResized
      else Some (ChangeRenderWindow window)
  end.

(** The display as [SurfaceChanged] finds it in a state of the program:
    [d] when [m_display] is set. *)
Definition display_of (s : State) (d : HostDisplay) : option HostDisplay :=
  if m_display s then Some d else None.

(** Caller 1 submits command 7 with [blocking = true], finds the queue
    non-empty and lets go of the mutex (line 128). *)
Definition spinning_schedule : list label :=
  running_schedule ++ LCall 1 (CallRun (command 7) true) :: repeat (LStep 1) 5.

(** ** Unwinding a failed start *)

Definition resource_eqb (a b : resource) : bool :=
  match a, b with
  | ImGuiContext, ImGuiContext | Display, Display | AudioStream, AudioStream => true
  | _, _ => false
  end.

(** What a start-up acquires before it fails at the audio stream or at the
    boot: the overlay context, the display, and the audio stream if it was
    created. *)
Definition acquired_before_failure (a : StartArgs) : list resource :=
  [ImGuiContext; Display] ++ (if audio_created a then [AudioStream] else []).

(** The failure exit has run to its end: either the display could not be
    created and the overlay context alone was acquired and released, or
    lines 157-159 (171-173) have run. *)
Definition unwound (s : State) : Prop :=
  (display_created (wargs s) = false
   /\ acquired_since_spawn (trace s) = [ImGuiContext]
   /\ released_since_spawn (trace s) = [ImGuiContext])
  \/ (display_created (wargs s) = true
      /\ acquired_since_spawn (trace s) = acquired_before_failure (wargs s)
      /\ released_since_spawn (trace s) = [AudioStream; Display; ImGuiContext]).

Definition Inv_unwind (s : State) : Prop :=
  match wpc s with
  | W_create_imgui =>
      acquired_since_spawn (trace s) = [] /\ released_since_spawn (trace s) = []
  | W_create_display =>
      acquired_since_spawn (trace s) = [ImGuiContext]
      /\ released_since_spawn (trace s) = []
  | W_create_audio =>
      acquired_since_spawn (trace s) = [ImGuiContext; Display]
      /\ released_since_spawn (trace s) = []
  | W_boot =>
      acquired_since_spawn (trace s) = [ImGuiContext; Display; AudioStream]
      /\ released_since_spawn (trace s) = [] /\ audio_created (wargs s) = true
  | W_fail_reset_audio =>
      acquired_since_spawn (trace s) = acquired_before_failure (wargs s)
      /\ released_since_spawn (trace s) = [] /\ display_created (wargs s) = true
  | W_fail_reset_display =>
      acquired_since_spawn (trace s) = acquired_before_failure (wargs s)
      /\ released_since_spawn (trace s) = [AudioStream]
      /\ display_created (wargs s) = true
  | W_fail_destroy_imgui =>
      (display_created (wargs s) = false
       /\ acquired_since_spawn (trace s) = [ImGuiContext]
       /\ released_since_spawn (trace s) = [])
      \/ (display_created (wargs s) = true
          /\ acquired_since_spawn (trace s) = acquired_before_failure (wargs s)
          /\ released_since_spawn (trace s) = [AudioStream; Display])
  | W_fail_store | W_fail_signal => unwound s
  | W_exited => start_ok (wargs s) = false -> unwound s
  | _ => True
  end.

(** A start during which the audio stream cannot be created. *)
Definition no_audio_game : StartArgs :=
  mkStartArgs true false false true true (mkHost true false true).

(** ** Progress *)

(** The step changes the state: the thread is not blocked. *)
Definition enabled (l : label) (s : State) : Prop := step l s <> s.

(** The worker, or a caller that is inside a call, can execute its next
    statement.  Entering a new call does not count. *)
Definition can_move (s : State) : Prop :=
  enabled LWorker s \/ exists t, cpcs s t <> C_idle /\ enabled (LStep t) s.

(** Some thread is inside the code of this file. *)
Definition active (s : State) : Prop :=
  (wpc s <> W_idle /\ wpc s <> W_exited) \/ exists t, cpcs s t <> C_idle.

(* ================================================================== *)
(** * Part IV: the overlay window and the JNI glue                     *)
(* ================================================================== *)

(** ** [DrawFPSWindow] as a whole *)

Record ImVec2 : Type := mkImVec2 { v2x : spec_float; v2y : spec_float }.

(** The literals of lines 263-264. *)
Definition f32_175 : spec_float := S754_finite false 11468800 (-16). (* 175.0f *)
Definition f32_16  : spec_float := S754_finite false 8388608 (-19).  (* 16.0f  *)
Definition f32_0   : spec_float := S754_zero false.                  (* 0.0f   *)

(** The calls [DrawFPSWindow] makes into the overlay library.  The window
    flags of [Begin] are constants and are left out; ["%.2f"] formatting is
    the library's, so [ImGui_Text_f2] carries the number. *)
Inductive imgui_call : Type :=
| ImGui_SetNextWindowPos (pos : ImVec2)
| ImGui_SetNextWindowSize (size : ImVec2)
| ImGui_Begin (name : string)
| ImGui_Text_f2 (value : spec_float)  (* Text("%.2f", value) *)
| ImGui_Text (text : string)
| ImGui_SameLine
| ImGui_TextColored (cmd : draw_cmd)
| ImGui_End.

(** Lines 263-266, up to and including [Begin]. *)
Definition fps_window_setup (display_x : spec_float) : list imgui_call :=
  [ ImGui_SetNextWindowPos (mkImVec2 (SFsub prec32 emax32 display_x f32_175) f32_0);
    ImGui_SetNextWindowSize (mkImVec2 f32_175 f32_16);
    ImGui_Begin "FPSWindow" ].

(** Lines 286-288 and 299-301. *)
Definition fps_separator : list imgui_call :=
  [ImGui_SameLine; ImGui_Text "/"; ImGui_SameLine].

(** Lines 257-314, with the three constants of lines 259-261 as
    parameters.  [begin_ok] is what [ImGui::Begin] returns; the local
    [first] is threaded through the three blocks as the source does.
    [None]: the cast of line 304 is undefined. *)
Definition DrawFPSWindow_with (show_fps show_vps show_speed : bool)
    (display_x : spec_float) (begin_ok : bool) (m_fps m_vps m_speed : spec_float)
  : option (list imgui_call) :=
  if negb begin_ok then Some (fps_window_setup display_x ++ [ImGui_End])
  else
    let first := true in
    let '(fps_calls, first) :=
      if show_fps then ([ImGui_Text_f2 m_fps], false) else ([], first) in
    let '(vps_calls, first) :=
      if show_vps
      then ((if first then [] else fps_separator) ++ [ImGui_Text_f2 m_vps], false)
      else ([], first) in
    let speed_calls :=
      if show_speed
      then match DrawFPSWindow_speed m_speed with
           | Some cmd =>
               Some ((if first then [] else fps_separator) ++ [ImGui_TextColored cmd])
           | None => None
           end
      else Some [] in
    match speed_calls with
    | Some calls =>
        Some (fps_window_setup display_x ++ fps_calls ++ vps_calls ++ calls ++ [ImGui_End])
    | None => None
    end.

(** The function as compiled: all three figures are shown. *)
Definition DrawFPSWindow : spec_float -> bool -> spec_float -> spec_float -> spec_float
                           -> option (list imgui_call) :=
  DrawFPSWindow_with true true true.

(** The figures on one line, with a separator between neighbours. *)
Fixpoint separated (figures : list imgui_call) : list imgui_call :=
  match figures with
  | [] => []
  | [x] => [x]
  | x :: rest => x :: fps_separator ++ separated rest
  end.

Definition is_begin (c : imgui_call) : bool :=
  match c with ImGui_Begin _ => true | _ => false end.

Definition is_end (c : imgui_call) : bool :=
  match c with ImGui_End => true | _ => false end.

(** ** The native pointer kept in the Java object *)

Open Scope Z_scope.

(** Conversions between integer types: the value modulo [2 ^ bits], in the
    unsigned range or in the two's complement range. *)
Definition to_unsigned (bits x : Z) : Z := x mod 2 ^ bits.
Definition to_signed (bits x : Z) : Z :=
  (x + 2 ^ (bits - 1)) mod 2 ^ bits - 2 ^ (bits - 1).

(** Widths of [uintptr_t] and of [long].  On the Android ABIs the two
    agree: 32 bits (armeabi-v7a, x86) or 64 bits (arm64-v8a, x86_64). *)
Record ABI : Type := mkABI { pointer_bits : Z; long_bits : Z }.

Definition abi32 : ABI := mkABI 32 32.
Definition abi64 : ABI := mkABI 64 64.

Definition valid_abi (abi : ABI) : Prop :=
  0 < pointer_bits abi /\ pointer_bits abi <= long_bits abi /\ long_bits abi <= 64.

(** The Java object, reduced to its field [nativePointer], a [long] of
    Java: 64 bits, signed. *)
Record JObject : Type := mkJObject { nativePointer : Z }.

Definition GetLongField (obj : JObject) : Z := nativePointer obj.
Definition SetLongField (obj : JObject) (value : Z) : JObject :=
  mkJObject (to_signed 64 value).

(** Lines 30-34: the field, converted to [uintptr_t], is the address. *)
Definition GetNativeClass (abi : ABI) (obj : JObject) : Z :=
  to_unsigned (pointer_bits abi) (GetLongField obj).

(** Lines 366-393.  The inputs are what [NewObject] and [NewGlobalRef]
    return ([None] for null) and the address [new] returns.  The outer
    [None] is the failed assertion of line 377, the inner one the
    [nullptr] of line 373.  The test of line 381 cannot succeed, since
    [new] does not return null.  Line 390 converts the address to
    [long]. *)
Definition AndroidHostInterface_create (abi : ABI) (new_object : option JObject)
    (new_global_ref : option Z) (cpp_obj : Z) : option (option JObject) :=
  match new_object with
  | None => Some None
  | Some java_obj =>
      match new_global_ref with
      | None => None
      | Some _ =>
          Some (Some (SetLongField java_obj
                        (to_signed (long_bits abi)
                           (to_unsigned (pointer_bits abi) cpp_obj))))
      end
  end.

Close Scope Z_scope.

(** ** [JNI_OnLoad] *)

Open Scope Z_scope.

(** What the virtual machine answers while the library is loaded:
    whether [GetEnv] succeeds, and the results of the four lookups ([None]
    for null).  References and identifiers are addresses. *)
Record JavaVM : Type := mkJavaVM {
  vm_GetEnv_ok : bool;              (* GetEnv(..., JNI_VERSION_1_6) == JNI_OK *)
  vm_FindClass : option Z;          (* FindClass(".../AndroidHostInterface") *)
  vm_NewGlobalRef : Z -> option Z;  (* NewGlobalRef(local reference) *)
  vm_GetMethodID : Z -> option Z;   (* GetMethodID(class, "<init>", "()V") *)
  vm_GetFieldID : Z -> option Z     (* GetFieldID(class, "nativePointer", "J") *)
}.

(** The statics of lines 16-18. *)
Record Statics : Type := mkStatics {
  s_AndroidHostInterface_class : option Z;
  s_AndroidHostInterface_constructor : option Z;
  s_AndroidHostInterface_field_nativePointer : option Z
}.

Definition JNI_VERSION_1_6 : Z := 65542. (* 0x00010006 *)

(** Lines 21-28: [true] when an environment is returned, [false] for
    [nullptr]. *)
Definition GetJNIEnv (vm : JavaVM) : bool := vm_GetEnv_ok vm.

(** Lines 328-358.  The result and the statics as the function leaves
    them; [None] when [GetJNIEnv] returns [nullptr], which line 334
    dereferences. *)
Definition JNI_OnLoad (vm : JavaVM) (st : Statics) : option (Z * Statics) :=
  if negb (GetJNIEnv vm) then None
  else
    let st := mkStatics (vm_FindClass vm) (s_AndroidHostInterface_constructor st)
                        (s_AndroidHostInterface_field_nativePointer st) in
    match s_AndroidHostInterface_class st with
    | None => Some (-1, st)
    | Some local =>
        let st := mkStatics (vm_NewGlobalRef vm local)
                            (s_AndroidHostInterface_constructor st)
                            (s_AndroidHostInterface_field_nativePointer st) in
        match s_AndroidHostInterface_class st with
        | None => Some (-1, st)
        | Some class =>
            let st := mkStatics (s_AndroidHostInterface_class st)
                                (vm_GetMethodID vm class)
                                (s_AndroidHostInterface_field_nativePointer st) in
            match s_AndroidHostInterface_constructor st with
            | None => Some (-1, st)
            | Some _ =>
                let st := mkStatics (s_AndroidHostInterface_class st)
                                    (s_AndroidHostInterface_constructor st)
                                    (vm_GetFieldID vm class) in
                match s_AndroidHostInterface_field_nativePointer st with
                | None => Some (-1, st)
                | Some _ => Some (JNI_VERSION_1_6, st)
                end
            end
        end
    end.

Definition all_set (st : Statics) : bool :=
  match s_AndroidHostInterface_class st, s_AndroidHostInterface_constructor st,
        s_AndroidHostInterface_field_nativePointer st with
  | Some _, Some _, Some _ => true
  | _, _, _ => false
  end.

(** A machine whose class has no field [nativePointer]. *)
Definition no_field_vm : JavaVM :=
  mkJavaVM true (Some 16) (fun r => Some (r + 16)) (fun c => Some (c + 1))
           (fun _ => None).

Close Scope Z_scope.
(* ================================================================== *)
(** * Theorems                                                         *)
(* ================================================================== *)

(** ** Schedules and reachability *)

Lemma exec_app (l1 l2 : list label) (s : State) :
  exec (l1 ++ l2) s = exec l2 (exec l1 s).
Proof. unfold exec. apply fold_left_app. Qed.

Lemma exec_snoc (sched : list label) (l : label) (s : State) :
  exec (sched ++ [l]) s = step l (exec sched s).
Proof. rewrite exec_app. reflexivity. Qed.

Lemma Reachable_initial (stop0 result0 : bool) (h : Host) :
  Reachable (initial_state stop0 result0 h).
Proof. exists stop0, result0, h, []. reflexivity. Qed.

Lemma Reachable_step (s : State) (l : label) :
  Reachable s -> Reachable (step l s).
Proof.
  intros (b1 & b2 & h & sched & ->).
  exists b1, b2, h, (sched ++ [l]). now rewrite exec_snoc.
Qed.

Lemma Reachable_exec (s : State) (sched : list label) :
  Reachable s -> Reachable (exec sched s).
Proof.
  revert s. induction sched as [|l sched IH]; intros s H; simpl; auto.
  apply IH. now apply Reachable_step.
Qed.

(** Induction over the reachable states: the property holds initially and
    every step of every thread keeps it. *)
Lemma Reachable_invariant (P : State -> Prop) :
  (forall stop0 result0 h, P (initial_state stop0 result0 h)) ->
  (forall s l, Reachable s -> aborted s = false -> P s -> P (step l s)) ->
  forall s, Reachable s -> P s.
Proof.
  intros Hinit Hstep s (b1 & b2 & h & sched & ->).
  induction sched as [|l sched IH] using rev_ind.
  - apply Hinit.
  - rewrite exec_snoc.
    destruct (aborted (exec sched (initial_state b1 b2 h))) eqn:Hab.
    + unfold step. rewrite Hab. exact IH.
    + apply Hstep; auto. exists b1, b2, h, sched. reflexivity.
Qed.

(** ** Proof automation for the case analysis over the steps *)

Ltac unfold_inv :=
  unfold Inv_life, worker_inv, controller_inv, quiet, nothing_held, all_held,
    start_ok, display_ok, audio_ok, boot_ok in *.

Ltac unfold_ops :=
  unfold abort, spawn, or_wait, option_map, mutex_unlock,
    Event_Signal, IsEmulationThreadRunning, cgoto, goto, emit in *.

Ltac break_if :=
  match goal with
  | |- context [thread_join ?s] =>
      unfold thread_join;
      destruct (m_emulation_thread_joinable s) eqn:?; [destruct (wpc s) eqn:?|]
  | |- context [mutex_lock ?t ?s] =>
      unfold mutex_lock; destruct (m_callback_mutex s) as [[|?]|] eqn:?
  | |- context [Event_Wait ?s] =>
      unfold Event_Wait; destruct (m_emulation_thread_started s) eqn:?
  | |- context [if ?b then _ else _] => destruct b eqn:?
  | |- context [match ?b with Some _ => _ | None => _ end] => destruct b eqn:?
  | |- context [match ?b with [] => _ | _ :: _ => _ end] => destruct b eqn:?
  end.

Ltac bools :=
  repeat match goal with
  | H : andb _ _ = true |- _ => apply andb_prop in H; destruct H
  | H : andb _ _ = false |- _ => apply andb_false_iff in H; destruct H
  | H : negb _ = true |- _ => apply negb_true_iff in H
  | H : negb _ = false |- _ => apply negb_false_iff in H
  end.

Lemma after_signal_startup (pc : worker_pc) :
  after_signal pc = true -> in_startup pc = false.
Proof. destruct pc; simpl; congruence. Qed.

Ltac finish :=
  simpl in *; intros; subst; simpl in *; bools;
  repeat match goal with
         | H : _ /\ _ |- _ => destruct H
         | H : context [if ?b then _ else _] |- _ => destruct b eqn:?
         | H : ?x = _ |- context [if ?x then _ else _] => rewrite H
         end;
  simpl; try solve [intuition (try congruence; try discriminate;
                               auto using after_signal_startup)].

Lemma cgoto_same (t : nat) (pc : caller_pc) (s : State) : cpcs (cgoto t pc s) t = pc.
Proof. unfold cgoto. simpl. now rewrite Nat.eqb_refl. Qed.

Lemma cgoto_other (t t' : nat) (pc : caller_pc) (s : State) :
  t' <> t -> cpcs (cgoto t pc s) t' = cpcs s t'.
Proof. intros H. unfold cgoto. simpl. apply Nat.eqb_neq in H. now rewrite H. Qed.

Lemma worker_inv_ext (s s' : State) :
  wpc s' = wpc s -> wargs s' = wargs s ->
  imgui_context s' = imgui_context s -> m_display s' = m_display s ->
  m_audio_stream s' = m_audio_stream s ->
  m_emulation_thread_joinable s' = m_emulation_thread_joinable s ->
  m_emulation_thread_start_result s' = m_emulation_thread_start_result s ->
  worker_inv s -> worker_inv s'.
Proof.
  intros Hp Ha Hi Hd Hau Hj Hr.
  unfold worker_inv, nothing_held, all_held. now rewrite Hp, Ha, Hi, Hd, Hau, Hj, Hr.
Qed.

Ltac args_cases a :=
  destruct (display_created a) eqn:?, (audio_created a) eqn:?,
    (audio_reconfigured a) eqn:?, (system_created a) eqn:?, (system_booted a) eqn:?;
  simpl in *; try discriminate; try solve [intuition congruence].

Lemma controller_inv_ext (s s' : State) :
  cpcs s' controller = cpcs s controller ->
  m_emulation_thread_joinable s' = m_emulation_thread_joinable s ->
  wargs s' = wargs s ->
  m_emulation_thread_stop_request s' = m_emulation_thread_stop_request s ->
  m_emulation_thread_started s' = m_emulation_thread_started s ->
  m_emulation_thread_start_result s' = m_emulation_thread_start_result s ->
  in_startup (wpc s') = in_startup (wpc s) ->
  after_signal (wpc s') = after_signal (wpc s) ->
  (wpc s = W_exited -> wpc s' = W_exited) ->
  controller_inv s -> controller_inv s'.
Proof.
  intros Hc Hj Ha Hs He Hr Hin Haf Hex.
  unfold controller_inv, quiet. rewrite Hc, Hj, Ha, Hs, He, Hr, Hin, Haf.
  destruct (cpcs s controller); auto; try destruct result; intuition.
Qed.

(** The life-cycle invariant holds in every reachable state. *)
Lemma Inv_life_reachable : forall s, Reachable s -> Inv_life s.
Proof.
  apply Reachable_invariant.
  - intros. unfold_inv. simpl. intuition.
  - intros s l Hr Hab (Hw & Hc & Hj & Ht).
    unfold step. rewrite Hab.
    destruct l as [|t c|t].
    + unfold EmulationThreadEntryPoint_step.
      destruct (wpc s) eqn:Epc; unfold_ops; simpl; repeat break_if;
        (split; [|split; [|split]];
        [ unfold_inv; simpl; rewrite ?Epc in *; finish; args_cases (wargs s)
        | try solve [ assumption
              | apply (controller_inv_ext s); try reflexivity; try assumption;
                simpl; rewrite Epc; try reflexivity; discriminate]
        | simpl; rewrite ?Epc in *; finish
        | exact Ht ]).
      all: unfold_inv; simpl; rewrite ?Epc in *;
           destruct (cpcs s controller) eqn:Ec; finish.
    + (* a caller enters an entry point *)
      unfold begin_call.
      destruct (cpcs s t) eqn:Et; try (repeat split; assumption).
      destruct (Nat.eq_dec t controller) as [->|Hne].
      * destruct c; simpl; (split; [|split; [|split]]);
          try (apply (worker_inv_ext s); [reflexivity..|assumption]);
          try assumption;
          try (intros t' Ht'; unfold cgoto; simpl;
               destruct (Nat.eqb_spec t' controller); [contradiction|auto]);
          unfold controller_inv in *; rewrite ?cgoto_same; rewrite Et in Hc; exact Hc.
      * apply Nat.eqb_neq in Hne as Hne'.
        destruct c; rewrite ?Hne'; try (repeat split; assumption);
          (split; [|split; [|split]]);
          [ apply (worker_inv_ext s); [reflexivity..|assumption]
          | apply (controller_inv_ext s); try reflexivity; try assumption; auto;
            rewrite cgoto_other by auto; reflexivity
          | exact Hj
          | intros t' Ht'; unfold cgoto, emit; simpl;
            destruct (Nat.eqb_spec t' t); [reflexivity|auto] ].
    + (* a caller executes a statement *)
      unfold caller_step.
      destruct (Nat.eq_dec t controller) as [->|Hne].
      * destruct (cpcs s controller) eqn:Ec;
          try (repeat split; assumption);
          unfold StartEmulationThread_step, StopEmulationThread_step,
            RunOnEmulationThread_step;
          unfold_ops; simpl; repeat break_if; try (repeat split; assumption).
        all: (split; [|split; [|split]]);
          [ first [ apply (worker_inv_ext s); [reflexivity..|assumption]
                  | clear Hc; unfold_inv; simpl; destruct (wpc s) eqn:Epc; finish ]
          | clear Hw; unfold_inv; simpl; rewrite ?Ec in *; finish
          | simpl; finish
          | intros t' Ht'; simpl; destruct (Nat.eqb_spec t' controller);
            [contradiction|auto] ].
      * pose proof (Ht t Hne) as Hnl. apply Nat.eqb_neq in Hne as Hne'.
        destruct (cpcs s t) eqn:Et; try discriminate Hnl;
          try (repeat split; assumption);
          unfold RunOnEmulationThread_step;
          unfold_ops; simpl; repeat break_if; try (repeat split; assumption);
          (split; [|split; [|split]];
          [ apply (worker_inv_ext s); [reflexivity..|assumption]
          | apply (controller_inv_ext s); try reflexivity; try assumption; auto;
            simpl; destruct t; [now elim Hne | reflexivity]
          | exact Hj
          | intros t' Ht'; simpl; destruct (Nat.eqb_spec t' t); [reflexivity|auto] ]).
Qed.

(** ** Case analysis over one step of any thread *)

Ltac step_cases s l t :=
  unfold step;
  match goal with H : aborted s = false |- _ => rewrite H end;
  destruct l as [|t c|t];
  [ unfold EmulationThreadEntryPoint_step; destruct (wpc s) eqn:Epc
  | unfold begin_call; destruct (cpcs s t) eqn:Et;
    [ destruct c; try destruct (Nat.eqb t controller) eqn:Econ | .. ]
  | unfold caller_step; destruct (cpcs s t) eqn:Et;
    unfold StartEmulationThread_step, StopEmulationThread_step,
      RunOnEmulationThread_step ];
  unfold_ops; simpl; repeat (break_if; simpl).

Ltac mutex_solve :=
  simpl in *;
  repeat match goal with
  | H : _ /\ _ |- _ => destruct H
  | |- _ /\ _ => split
  | |- forall _, _ => intro
  | |- context [Nat.eqb ?a ?b] => destruct (Nat.eqb_spec a b); subst
  end; simpl in *; try congruence; auto.

(** ** Mutual exclusion and the queue *)

Lemma Inv_mutex_queue_reachable : forall s, Reachable s -> Inv_mutex s /\ Inv_queue s.
Proof.
  apply Reachable_invariant.
  - intros. unfold Inv_mutex, Inv_queue; simpl; auto.
  - intros s l Hr Hab [Hm Hq].
    pose proof (Inv_life_reachable s Hr) as (_ & _ & Hj & _).
    step_cases s l t; try (split; assumption);
      unfold Inv_mutex, Inv_queue in *; simpl in *;
      rewrite ?Epc in *;
      repeat match goal with H : m_callback_mutex s = _ |- _ => rewrite H in *; clear H end;
      try (destruct (m_callback_mutex s) as [[|t0]|] eqn:Em);
      mutex_solve;
      try (rewrite Et in *; simpl in *; try discriminate);
      try match goal with
          | H : forall t0, caller_holds (cpcs s t0) = false |- _ =>
              specialize (H t); rewrite Et in H; simpl in H; discriminate H
          | H : forall t0, t0 <> ?t1 -> caller_holds (cpcs s t0) = false,
            n : ?t2 <> ?t1 |- _ =>
              specialize (H t2 n); rewrite ?Et in H; simpl in H;
              first [discriminate H | exact H]
          | H : forall t0, t0 <> ?t1 -> caller_holds (cpcs s t0) = false |- _ =>
              apply H; congruence
          end;
      try solve [destruct (wpc s); simpl in *; try discriminate; auto;
                 try (intros Hnil; apply app_eq_nil in Hnil; destruct Hnil; discriminate);
                 destruct Hj as [Hj|Hj]; auto; discriminate].
    all: destruct (Nat.eq_dec t t0) as [->|Hne];
      [ auto | specialize (H1 t Hne); rewrite Et in H1; discriminate H1 ].
Qed.

(** ** First in, first out *)

Lemma Inv_fifo_reachable : forall s, Reachable s -> Inv_fifo s.
Proof.
  apply Reachable_invariant.
  - intros. reflexivity.
  - intros s l Hr Hab Hf.
    pose proof (Inv_life_reachable s Hr) as (_ & _ & Hj & _).
    step_cases s l t; try assumption;
      unfold Inv_fifo in *; simpl in *; rewrite ?Epc in *; simpl in *;
      try assumption.
    + rewrite Heql in Hf. exact Hf.
    + rewrite Hf, <- app_assoc. reflexivity.
    + destruct Hj as [Hj|Hj]; auto; rewrite Hj in Hf; exact Hf.
    + rewrite Hf, map_app, !app_assoc. reflexivity.
    + rewrite Hf, map_app, !app_assoc. reflexivity.
Qed.



(** ** Steps and the trace *)

Lemma cons_self_neq (A : Type) (x : A) (l : list A) : l <> x :: l.
Proof.
  intros H. apply (f_equal (@List.length A)) in H. simpl in H. lia.
Qed.

Ltac no_growth :=
  match goal with
  | H : trace ?s = _ :: trace ?s |- _ => exfalso; exact (cons_self_neq _ _ _ H)
  end.

(** A step leaves the trace alone or puts one entry on top of it. *)
Lemma trace_step (s : State) (l : label) :
  trace (step l s) = trace s \/ exists e, trace (step l s) = e :: trace s.
Proof.
  destruct (aborted s) eqn:Hab.
  - left. unfold step. now rewrite Hab.
  - step_cases s l t; simpl; eauto.
Qed.

(** A property of the moment at which an entry is written: enough to check
    it at the steps that write the entry. *)
Lemma history_invariant (e0 : event) (Q : list event -> Prop) :
  (forall s l, Reachable s -> aborted s = false ->
               trace (step l s) = e0 :: trace s -> Q (trace s)) ->
  forall s, Reachable s ->
  forall post pre, trace s = post ++ e0 :: pre -> Q pre.
Proof.
  intros Hemit. apply (Reachable_invariant
    (fun s => forall post pre, trace s = post ++ e0 :: pre -> Q pre)).
  - intros b1 b2 h post pre H. simpl in H. destruct post; discriminate.
  - intros s l Hr Hab IH post pre H.
    destruct (trace_step s l) as [E|[e E]]; rewrite E in H.
    + eauto.
    + destruct post as [|e' post]; simpl in H; injection H as He Hrest.
      * subst. eapply Hemit; eauto.
      * eauto.
Qed.

(** The only thread inside a life-cycle call is the controller. *)
Lemma lifecycle_is_controller (s : State) (t : nat) :
  Reachable s -> in_lifecycle_call (cpcs s t) = true -> t = controller.
Proof.
  intros Hr H. destruct (Inv_life_reachable s Hr) as (_ & _ & _ & Ht).
  destruct (Nat.eq_dec t controller) as [|Hne]; auto.
  rewrite (Ht t Hne) in H. discriminate.
Qed.

Ltac life_facts s Hr :=
  let Hw := fresh "Hw" in let Hc := fresh "Hc" in
  let Hj := fresh "Hj" in let Ht := fresh "Ht" in
  pose proof (Inv_life_reachable s Hr) as (Hw & Hc & Hj & Ht);
  unfold controller_inv, worker_inv, quiet, nothing_held, all_held in Hw, Hc.

(** The same case analysis, with the controller told apart from the other
    callers. *)
Ltac step_cases0 s l t :=
  unfold controller in *; unfold step;
  match goal with H : aborted s = false |- _ => rewrite H end;
  destruct l as [|t c|t];
  [ unfold EmulationThreadEntryPoint_step; destruct (wpc s) eqn:Epc
  | unfold begin_call; destruct t as [|t];
    [ destruct (cpcs s 0) eqn:Et; [ destruct c | .. ]
    | destruct (cpcs s (S t)) eqn:Et; [ destruct c | .. ] ]
  | unfold caller_step; destruct t as [|t];
    [ destruct (cpcs s 0) eqn:Et | destruct (cpcs s (S t)) eqn:Et ];
    unfold StartEmulationThread_step, StopEmulationThread_step,
      RunOnEmulationThread_step ];
  unfold_ops; simpl; repeat (break_if; simpl).

Ltac not_controller Ht :=
  match goal with
  | Et : cpcs ?s (S ?t) = _ |- _ =>
      let H := fresh in
      assert (H : S t <> 0) by discriminate;
      apply Ht in H; rewrite Et in H; discriminate H
  end.

(** ** The stop flag *)

Lemma Inv_stop_reachable : forall s, Reachable s -> Inv_stop s.
Proof.
  apply Reachable_invariant.
  - intros. split; simpl; intros; discriminate.
  - intros s l Hr Hab [H1 H2]. life_facts s Hr.
    step_cases0 s l t; try (split; assumption); try not_controller Ht;
      unfold Inv_stop, controller in *; simpl in *; rewrite ?Epc, ?Et in *;
      (split; [ intros; try congruence; intuition congruence
              | intros a' Ha'; try discriminate Ha'; eauto ]).
Qed.

Ltac close :=
  simpl in *; unfold after_signal, in_startup in *;
  repeat match goal with H : _ /\ _ |- _ => destruct H end;
  try assumption; try reflexivity; try exact I; try congruence; try lia;
  try solve [repeat (break_if; simpl in *); congruence].

(** ** Resources, signal and stored result *)

Lemma Inv_signal_reachable : forall s, Reachable s -> Inv_signal s.
Proof.
  apply Reachable_invariant.
  - intros. split; [intros []; reflexivity | split; reflexivity].
  - intros s l Hr Hab (Hh & Hn & Hs). life_facts s Hr.
    pose proof (Hh ImGuiContext) as Hi; pose proof (Hh Display) as Hd;
      pose proof (Hh AudioStream) as Ha. clear Hc Ht.
    step_cases s l t; try (repeat split; assumption);
      unfold Inv_signal in *; simpl in *; rewrite ?Epc in *; simpl in *;
      (split; [ intros [] | split ]); close;
      try solve [ destruct (audio_created (wargs s)); simpl in *; congruence
                | destruct Hj as [E|E]; auto; rewrite E in *; close
                | destruct (wpc s); simpl in *; first [assumption | congruence] ].
Qed.

(** ** What the worker has run by the end of a drain *)

Lemma Inv_drained_reachable : forall s, Reachable s -> Inv_drained s.
Proof.
  apply Reachable_invariant.
  - intros. intros _. reflexivity.
  - intros s l Hr Hab Hd.
    pose proof (Inv_fifo_reachable s Hr) as Hf.
    pose proof (Inv_life_reachable s Hr) as (_ & _ & Hj & _).
    step_cases s l t; try assumption;
      unfold Inv_drained, Inv_fifo in *; simpl in *; rewrite ?Epc in *; simpl in *;
      try assumption; try discriminate; try (intros _; now apply Hd).
    + intros _. rewrite Hf, Heql. simpl. now rewrite app_nil_r.
    + intros _. apply Hd. destruct Hj as [E|E]; auto; rewrite E; reflexivity.
Qed.

(** ** The shape of a loop iteration *)

Ltac pick :=
  lazymatch goal with
  | |- exists _ : bool, _ =>
      first [ match goal with b : bool |- _ => exists b; pick end
            | exists true; pick | exists false; pick ]
  | |- exists _ : list event, _ =>
      first [ exists []; pick | exists [EvRestoreGfx]; pick
            | exists [EvThrottle; EvRestoreGfx]; pick ]
  | |- _ /\ _ => split; pick
  | |- valid_tail _ => unfold valid_tail; auto
  | |- _ = _ => simpl; congruence
  | |- True => exact I
  end.

Lemma Inv_frame_reachable : forall s, Reachable s -> Inv_frame s.
Proof.
  apply Reachable_invariant.
  - intros. exact I.
  - intros s l Hr Hab Hf.
    step_cases s l t; try assumption;
      unfold Inv_frame in *; simpl in *; rewrite ?Epc in *; simpl in *;
      try assumption; try exact I;
      repeat match goal with H : exists _, _ |- _ => destruct H end;
      repeat match goal with H : _ /\ _ |- _ => destruct H end;
      unfold rendered in *; simpl in *;
      try solve [pick].
Qed.


(** ** Which steps write which entries *)

Ltac emitter :=
  intros;
  repeat match goal with
  | H : _ :: trace ?s = _ :: trace ?s |- _ => injection H as H
  end;
  try no_growth; try discriminate; try congruence.

Lemma emits_signal (s : State) (l : label) :
  aborted s = false -> trace (step l s) = EvSignal :: trace s ->
  l = LWorker /\ (wpc s = W_fail_signal \/ wpc s = W_signal_ok).
Proof.
  intros Hab. step_cases s l t; simpl; emitter; auto.
Qed.

Lemma emits_spawn (s : State) (l : label) :
  aborted s = false -> trace (step l s) = EvSpawn :: trace s ->
  exists t a, l = LStep t /\ cpcs s t = S_spawn a.
Proof.
  intros Hab. step_cases s l t; simpl; emitter; eauto.
Qed.

Lemma Inv_join_reachable : forall s, Reachable s -> Inv_join s.
Proof.
  apply Reachable_invariant.
  - intros. exact I.
  - intros s l Hr Hab Hjn. life_facts s Hr. clear Hw Hj.
    step_cases0 s l t; try assumption; try not_controller Ht;
      unfold Inv_join, controller in *; simpl in *; rewrite ?Et in *;
      try assumption; try exact I; try reflexivity;
      exfalso; intuition congruence.
Qed.

(** ** StartEmulationThread *)

Lemma start_ok_true (a : StartArgs) :
  start_ok a = true -> display_ok a = true /\ audio_ok a = true /\ boot_ok a = true.
Proof.
  unfold start_ok. intros H.
  apply andb_prop in H as [H Hb]. apply andb_prop in H as [Hd Ha]. auto.
Qed.

(** Along the schedule that lets the worker finish its start-up,
    [StartEmulationThread] reaches its [return] with the value
    [start_ok]: the call does return, on success and on every failure. *)
Lemma StartEmulationThread_returns (stop0 result0 : bool) (h : Host) (a : StartArgs) :
  cpcs (exec (start_schedule a) (initial_state stop0 result0 h)) controller
  = S_ret a (start_ok a).
Proof.
  destruct a as [d ac ar sc sb ha].
  destruct d, ac, ar, sc, sb; reflexivity.
Qed.

(** C1.  In every reachable state in which [StartEmulationThread] is about
    to return [result] (lines 94 and 97): [result] is the conjunction of the
    three acquisition steps, so [true] is returned only if the display, the
    audio stream and the boot all succeeded; and if one of them failed the
    call returns [false], the worker function has returned and the thread has
    been joined, nothing is held, and [IsEmulationThreadRunning] answers
    [false] both at the [return] and right after it. *)
Theorem StartEmulationThread_result (s : State) (a : StartArgs) (result : bool) :
  Reachable s ->
  cpcs s controller = S_ret a result ->
  result = start_ok a
  /\ (result = true ->
      display_ok a = true /\ audio_ok a = true /\ boot_ok a = true)
  /\ (start_ok a = false ->
      result = false
      /\ wpc s = W_exited
      /\ joined_since_spawn (trace s) = true
      /\ nothing_held s
      /\ IsEmulationThreadRunning s = false
      /\ IsEmulationThreadRunning (step (LStep controller) s) = false).
Proof.
  intros Hr Hpc.
  pose proof (Inv_life_reachable s Hr) as (Hw & Hc & _ & _).
  pose proof (Inv_join_reachable s Hr) as Hjn.
  unfold controller_inv in Hc. unfold Inv_join in Hjn. rewrite Hpc in Hc, Hjn.
  destruct Hc as (_ & Hres & Hif).
  split; [exact Hres|]. split.
  - intros ->. apply start_ok_true. now symmetry.
  - intros Hfail. rewrite Hfail in Hres. subst result.
    destruct Hif as [Hj Hex].
    unfold worker_inv in Hw. rewrite Hex in Hw.
    repeat split; auto; try apply Hw.
    unfold IsEmulationThreadRunning, step, caller_step.
    destruct (aborted s); [exact Hj|]. rewrite Hpc. simpl. exact Hj.
Qed.

(** A start whose boot fails, run to the [return] of the call. *)
Lemma StartEmulationThread_result_witness :
  let s := exec (start_schedule corrupt_game) fresh_state in
  false = start_ok corrupt_game
  /\ (false = true ->
      display_ok corrupt_game = true /\ audio_ok corrupt_game = true
      /\ boot_ok corrupt_game = true)
  /\ (start_ok corrupt_game = false ->
      false = false
      /\ wpc s = W_exited
      /\ joined_since_spawn (trace s) = true
      /\ nothing_held s
      /\ IsEmulationThreadRunning s = false
      /\ IsEmulationThreadRunning (step (LStep controller) s) = false).
Proof.
  intros s.
  apply (StartEmulationThread_result s corrupt_game false).
  - exists false, false, (mkHost false false false), (start_schedule corrupt_game).
    reflexivity.
  - reflexivity.
Defined.


(** ** The ready signal *)

(** The worker never waits during its start-up: from any point before the
    signal, at most nine of its own steps take it past the signal. *)
Lemma startup_reaches_signal (s : State) :
  aborted s = false -> in_startup (wpc s) = true ->
  exists n, n <= 9 /\ after_signal (wpc (exec (repeat LWorker n) s)) = true.
Proof.
  intros Hab Hin.
  destruct s as [sr res ev jn mx q im dp au h [d ac ar sc sb ha] pc cp ab tr].
  simpl in *. subst ab.
  destruct pc; try discriminate Hin; clear Hin;
    destruct d, ac, ar, sc, sb;
    first [ exists 1; split; [lia | reflexivity] | exists 2; split; [lia | reflexivity]
          | exists 3; split; [lia | reflexivity] | exists 4; split; [lia | reflexivity]
          | exists 5; split; [lia | reflexivity] | exists 6; split; [lia | reflexivity]
          | exists 7; split; [lia | reflexivity] | exists 8; split; [lia | reflexivity]
          | exists 9; split; [lia | reflexivity] ].
Qed.

(** C2.  In every reachable state: the number of [Signal] calls since the
    thread was started is 0 before the worker passes its signal statement and
    1 ever after; whenever [Signal] was called, it was the first call of this
    start-up, the start-result flag had been stored before it, and if the
    stored value was [false] no resource (overlay context, display, audio
    stream) was held at that moment; when the starter has been woken and
    finds the flag [false], nothing is held and the worker has returned; and
    from every point of the start-up the worker reaches its signal within
    nine steps of its own. *)
Theorem ready_signal_once_after_unwinding (s : State) :
  Reachable s ->
  signals_since_spawn (trace s) = (if after_signal (wpc s) then 1 else 0)
  /\ (forall post pre, trace s = post ++ EvSignal :: pre ->
       signals_since_spawn pre = 0
       /\ exists b, result_stored_since_spawn pre = Some b
                    /\ (b = false -> forall r, holds_since_spawn r pre = false))
  /\ (forall a, cpcs s controller = S_load a \/ cpcs s controller = S_join a ->
       m_emulation_thread_start_result s = false ->
       nothing_held s /\ wpc s = W_exited)
  /\ (aborted s = false -> in_startup (wpc s) = true ->
      exists n, n <= 9 /\ after_signal (wpc (exec (repeat LWorker n) s)) = true).
Proof.
  intros Hr. split; [|split; [|split]].
  - apply (Inv_signal_reachable s Hr).
  - revert s Hr. apply history_invariant.
    intros s l Hr Hab Hemit.
    destruct (emits_signal s l Hab Hemit) as [_ Hpc].
    destruct (Inv_signal_reachable s Hr) as (Hh & Hn & Hs).
    pose proof (Inv_life_reachable s Hr) as (Hw & _).
    unfold worker_inv in Hw.
    destruct Hpc as [Hpc|Hpc]; rewrite Hpc in *; simpl in *.
    + split; [exact Hn|]. exists false. split; [exact Hs|].
      intros _ r. rewrite Hh. destruct Hw as ((Hi & Hd & Ha) & _).
      destruct r; assumption.
    + split; [exact Hn|]. exists true. split; [exact Hs|]. discriminate.
  - intros a Hpc Hres.
    pose proof (Inv_life_reachable s Hr) as (Hw & Hc & _ & _).
    unfold controller_inv in Hc. unfold worker_inv in Hw.
    assert (Hfail : after_signal (wpc s) = true /\ start_ok (wargs s) = false).
    { destruct Hpc as [Hpc|Hpc]; rewrite Hpc in Hc.
      - destruct Hc as (_ & _ & <- & Haf & Hsr). split; congruence.
      - destruct Hc as (_ & _ & <- & Haf & Hsr). split; congruence. }
    destruct Hfail as [Haf Hno].
    destruct (wpc s); simpl in Haf; try discriminate Haf;
      try (destruct Hw as [_ Hw]; congruence);
      try (destruct Hw as (_ & _ & _ & Hw); congruence).
    split; [exact Hw | reflexivity].
  - apply startup_reaches_signal.
Qed.

(** The same failing start: one signal, nothing held. *)
Lemma ready_signal_once_after_unwinding_witness :
  let s := exec (start_schedule corrupt_game) fresh_state in
  signals_since_spawn (trace s) = 1
  /\ nothing_held s.
Proof.
  intros s.
  assert (Hr : Reachable s).
  { exists false, false, (mkHost false false false), (start_schedule corrupt_game).
    reflexivity. }
  destruct (ready_signal_once_after_unwinding s Hr) as (Hn & _).
  split; [exact Hn | repeat split].
Defined.

(** ** The stop-request flag *)

(** C10.  In every reachable state: whenever a worker thread was started,
    the newest store into the stop-request flag before that moment was the
    [store(false)] of line 86; while a thread exists the flag holds [true]
    exactly if [StopEmulationThread] stored its request after that thread was
    started; so a worker that finds the flag set at its loop test was asked
    to stop during its own cycle, and a worker that was not asked to stop
    enters the loop body, whatever the flag held before the start. *)
Theorem stop_request_cleared_before_spawn (s : State) :
  Reachable s ->
  (forall post pre, trace s = post ++ EvSpawn :: pre -> last_stop_store pre = Some false)
  /\ (m_emulation_thread_joinable s = true ->
      m_emulation_thread_stop_request s = stop_stored_since_spawn (trace s))
  /\ (wpc s = W_loop_check -> m_emulation_thread_stop_request s = true ->
      stop_stored_since_spawn (trace s) = true)
  /\ (wpc s = W_loop_check -> aborted s = false ->
      stop_stored_since_spawn (trace s) = false ->
      wpc (step LWorker s) = W_lock).
Proof.
  intros Hr.
  assert (Hloop : wpc s = W_loop_check ->
                  m_emulation_thread_stop_request s = stop_stored_since_spawn (trace s)).
  { intros Hpc. apply (Inv_stop_reachable s Hr).
    pose proof (Inv_life_reachable s Hr) as (_ & _ & Hj & _).
    destruct (m_emulation_thread_joinable s); auto.
    destruct Hj as [E|E]; auto; congruence. }
  split; [|split; [|split]].
  - revert s Hr Hloop. intros s Hr _. revert s Hr. apply history_invariant.
    intros s l Hr Hab Hemit.
    destruct (emits_spawn s l Hab Hemit) as (t & a & -> & Hpc).
    assert (t = controller).
    { apply (lifecycle_is_controller s t Hr). now rewrite Hpc. }
    subst t. apply (Inv_stop_reachable s Hr) with a. exact Hpc.
  - apply (Inv_stop_reachable s Hr).
  - intros Hpc Hstop. rewrite <- Hloop; auto.
  - intros Hpc Hab Hno. unfold step. rewrite Hab.
    unfold EmulationThreadEntryPoint_step. rewrite Hpc.
    rewrite (Hloop Hpc), Hno. reflexivity.
Qed.

(** A start, a stop and a second start: the request of the first cycle is
    still in the flag when the second call begins, and the second worker
    enters its loop. *)
Lemma stop_request_cleared_before_spawn_witness :
  let before := exec restart_schedule fresh_state in
  let s := exec (repeat (LStep controller) 2 ++ repeat LWorker 7) before in
  m_emulation_thread_stop_request before = true
  /\ wpc s = W_loop_check
  /\ m_emulation_thread_stop_request s = false
  /\ wpc (step LWorker s) = W_lock.
Proof.
  intros before s.
  assert (Hr : Reachable s).
  { exists false, false, (mkHost false false false),
      (restart_schedule ++ repeat (LStep controller) 2 ++ repeat LWorker 7).
    unfold s, before. now rewrite <- exec_app. }
  destruct (stop_request_cleared_before_spawn s Hr) as (_ & Hflag & _ & Hgo).
  split; [vm_compute; reflexivity|]. split; [vm_compute; reflexivity|]. split.
  - rewrite Hflag; vm_compute; reflexivity.
  - apply Hgo; vm_compute; reflexivity.
Defined.

(** ** Blocking submissions *)

Lemma appended_in_call_cons (t id : nat) (e : event) (tr : list event) :
  is_run_call t e = false -> appended_in_call t id tr -> appended_in_call t id (e :: tr).
Proof.
  intros He (b & c & -> & Hb). exists (e :: b), c. split; [reflexivity|].
  unfold no_run_call in *. simpl. now rewrite He.
Qed.

Lemma seen_empty_cons (t id : nat) (e : event) (tr : list event) :
  is_run_call t e = false ->
  seen_empty_after_append t id tr -> seen_empty_after_append t id (e :: tr).
Proof.
  intros He (a & b & c & -> & Hb). exists (e :: a), b, c. split; [reflexivity|].
  unfold no_run_call in *. simpl. now rewrite He.
Qed.

Lemma appended_in_call_now (t id : nat) (tr : list event) :
  appended_in_call t id (EvAppend t id :: tr).
Proof. exists [], tr. split; reflexivity. Qed.

Lemma seen_empty_now (t id : nat) (tr : list event) :
  appended_in_call t id tr -> seen_empty_after_append t id (EvSeenEmpty t :: tr).
Proof.
  intros (b & c & -> & Hb). exists [], b, c. split; [reflexivity|]. exact Hb.
Qed.

Lemma block_ok_cons (t : nat) (pc : caller_pc) (e : event) (tr : list event) :
  is_run_call t e = false -> block_ok t pc tr -> block_ok t pc (e :: tr).
Proof.
  intros He. destruct pc; simpl; auto using appended_in_call_cons, seen_empty_cons.
  - destruct blocking; auto using seen_empty_cons.
  - destruct blocking, queued; auto using seen_empty_cons.
Qed.

(** A step of another thread leaves the program point of caller [t] alone
    and writes nothing on behalf of [t]. *)
Lemma other_step (s : State) (l : label) (t : nat) :
  moves t l = false ->
  cpcs (step l s) t = cpcs s t
  /\ (trace (step l s) = trace s
      \/ exists e, trace (step l s) = e :: trace s /\ is_event_of t e = false).
Proof.
  intros Hm. destruct (aborted s) eqn:Hab.
  - unfold step. rewrite Hab. auto.
  - step_cases s l t0; simpl in *;
      try (rewrite Nat.eqb_sym in Hm; congruence);
      rewrite ?(Nat.eqb_sym t t0), ?Hm;
      (split; [reflexivity | eauto]).
Qed.

Lemma is_event_of_run_call (t : nat) (e : event) :
  is_event_of t e = false -> is_run_call t e = false.
Proof. destruct e; simpl; auto. Qed.

Lemma Inv_block_reachable : forall s, Reachable s -> Inv_block s.
Proof.
  apply Reachable_invariant.
  - intros b1 b2 h t. exact I.
  - intros s l Hr Hab IH t.
    destruct (moves t l) eqn:Hm.
    + destruct l as [|t0 c|t0]; simpl in Hm; try discriminate;
        apply Nat.eqb_eq in Hm; subst t0; unfold step; rewrite Hab.
      * unfold begin_call. destruct (cpcs s t) eqn:Et; try apply IH.
        destruct c; try destruct (Nat.eqb t controller);
          unfold_ops; simpl; rewrite ?Nat.eqb_refl; simpl; auto;
          rewrite ?Et; try exact I.
      * unfold caller_step.
        pose proof (IH t) as IHt.
        destruct (cpcs s t) eqn:Et; try apply IH;
          unfold StartEmulationThread_step, StopEmulationThread_step,
            RunOnEmulationThread_step;
          unfold_ops; simpl; repeat (break_if; simpl);
          rewrite ?Nat.eqb_refl, ?Et; simpl in *;
          auto using appended_in_call_cons, seen_empty_cons, appended_in_call_now,
            seen_empty_now.
        rewrite Nat.eqb_refl in Heqb. discriminate.
    + destruct (other_step s l t Hm) as [Hpc [Htr|(e & Htr & He)]];
        rewrite Hpc, Htr.
      * apply IH.
      * apply block_ok_cons; [now apply is_event_of_run_call | apply IH].
Qed.

Lemma emits_run_return (s : State) (l : label) (t id : nat) (b q : bool) :
  aborted s = false -> trace (step l s) = EvRunReturn t id b q :: trace s ->
  exists f, l = LStep t /\ cpcs s t = R_ret f b q /\ cmd_id f = id.
Proof.
  intros Hab. step_cases s l t0; simpl; intros H;
    try no_growth; try discriminate H.
  injection H as -> <- -> ->. eauto.
Qed.

Lemma emits_seen_empty (s : State) (l : label) (t : nat) :
  aborted s = false -> trace (step l s) = EvSeenEmpty t :: trace s ->
  l = LStep t /\ m_callback_queue s = [] /\ exists f, cpcs s t = R_test f.
Proof.
  intros Hab. step_cases s l t0; simpl; intros H;
    try no_growth; try discriminate H.
  injection H as ->. eauto.
Qed.

(** A caller inside a locked region is the owner of the mutex. *)
Lemma caller_holds_mutex (s : State) (t : nat) :
  Reachable s -> caller_holds (cpcs s t) = true ->
  m_callback_mutex s = Some (Caller t).
Proof.
  intros Hr Hh. destruct (Inv_mutex_queue_reachable s Hr) as [Hm _].
  unfold Inv_mutex in Hm.
  destruct (m_callback_mutex s) as [[|t0]|].
  - destruct Hm as [_ Hm]. rewrite Hm in Hh. discriminate.
  - destruct Hm as (_ & _ & Hm). destruct (Nat.eq_dec t t0) as [->|Hne]; auto.
    rewrite (Hm t Hne) in Hh. discriminate.
  - destruct Hm as [_ Hm]. rewrite Hm in Hh. discriminate.
Qed.

Lemma worker_holds_mutex (s : State) :
  Reachable s -> worker_holds (wpc s) = true -> m_callback_mutex s = Some Worker.
Proof.
  intros Hr Hh. destruct (Inv_mutex_queue_reachable s Hr) as [Hm _].
  unfold Inv_mutex in Hm.
  destruct (m_callback_mutex s) as [[|t0]|]; auto;
    destruct Hm as [Hm _]; rewrite Hm in Hh; discriminate.
Qed.

(** The append of line 118: the step that records it is the step of the
    caller that puts its entry at the back of [m_callback_queue]. *)
Lemma emits_append (s : State) (l : label) (t id : nat) :
  aborted s = false -> trace (step l s) = EvAppend t id :: trace s ->
  exists f b, l = LStep t /\ cpcs s t = R_push f b /\ cmd_id f = id
              /\ m_callback_queue (step l s) = m_callback_queue s ++ [f].
Proof.
  intros Hab. step_cases s l t0; simpl; intros H;
    try no_growth; try discriminate H.
  injection H as -> <-. eauto 10.
Qed.

(** C4.  In every reachable state: whenever a call of
    [RunOnEmulationThread] with [blocking = true] that went through the queue
    has returned, the same call had appended its entry and had afterwards
    found the queue empty (line 125) before it returned; a caller records
    that it saw the queue empty only at a step at which, holding the mutex,
    it found [m_callback_queue] empty; and a caller records an append only
    at the step of line 118 at which, holding the mutex, it puts its entry
    at the back of [m_callback_queue]. *)
Theorem blocking_call_returns_after_queue_seen_empty (s : State) :
  Reachable s ->
  (forall t id post pre,
      trace s = post ++ EvRunReturn t id true true :: pre ->
      seen_empty_after_append t id pre)
  /\ (forall t f, cpcs s t = R_unlock f true ->
       seen_empty_after_append t (cmd_id f) (trace s))
  /\ (forall t l, aborted s = false ->
       trace (step l s) = EvSeenEmpty t :: trace s ->
       m_callback_queue s = [] /\ m_callback_mutex s = Some (Caller t))
  /\ (forall t id l, aborted s = false ->
       trace (step l s) = EvAppend t id :: trace s ->
       exists f b,
         l = LStep t /\ cpcs s t = R_push f b /\ cmd_id f = id
         /\ m_callback_mutex s = Some (Caller t)
         /\ m_callback_queue (step l s) = m_callback_queue s ++ [f]).
Proof.
  intros Hr. split; [|split; [|split]].
  4: { intros t id l Hab Hemit.
       destruct (emits_append s l t id Hab Hemit) as (f & b & Hl & Hpc & Hid & Hq).
       exists f, b. repeat split; auto.
       apply caller_holds_mutex; auto. now rewrite Hpc. }
  - intros t id. revert s Hr. apply history_invariant.
    intros s l Hr Hab Hemit.
    destruct (emits_run_return s l t id true true Hab Hemit) as (f & _ & Hpc & <-).
    pose proof (Inv_block_reachable s Hr t) as H. rewrite Hpc in H. exact H.
  - intros t f Hpc.
    pose proof (Inv_block_reachable s Hr t) as H. rewrite Hpc in H. exact H.
  - intros t l Hab Hemit.
    destruct (emits_seen_empty s l t Hab Hemit) as (_ & Hq & f & Hpc).
    split; [exact Hq|]. apply caller_holds_mutex; auto. now rewrite Hpc.
Qed.


(** A blocking submission to a running worker, run to its [return]; and
    the same submission at line 118, where command 7 enters the queue. *)
Lemma blocking_call_returns_after_queue_seen_empty_witness :
  let s0 := exec blocking_schedule fresh_state in
  let sp := exec (running_schedule
                  ++ [LCall 1 (CallRun (command 7) true); LStep 1; LStep 1])
                 fresh_state in
  seen_empty_after_append 1 7 (trace s0)
  /\ map cmd_id (m_callback_queue (step (LStep 1) sp))
     = map cmd_id (m_callback_queue sp) ++ [7].
Proof.
  intros s0 sp. split.
  - assert (Hr : Reachable (step (LStep 1) s0)).
    { exists false, false, (mkHost false false false), (blocking_schedule ++ [LStep 1]).
      unfold s0. now rewrite exec_snoc. }
    destruct (blocking_call_returns_after_queue_seen_empty _ Hr) as (H & _).
    apply (H 1 7 []). vm_compute. reflexivity.
  - assert (Hr : Reachable sp).
    { exists false, false, (mkHost false false false),
        (running_schedule ++ [LCall 1 (CallRun (command 7) true); LStep 1; LStep 1]).
      reflexivity. }
    destruct (blocking_call_returns_after_queue_seen_empty _ Hr) as (_ & _ & _ & H).
    destruct (H 1 7 (LStep 1)) as (f & b & _ & _ & Hid & _ & Hq).
    + vm_compute. reflexivity.
    + vm_compute. reflexivity.
    + rewrite Hq, map_app. apply f_equal.
      change (map cmd_id [f]) with [cmd_id f]. now rewrite Hid.
Defined.

(** ** The drain *)

Lemma step_caller (s : State) (t : nat) :
  aborted s = false -> step (LStep t) s = caller_step t s.
Proof. intros Hab. unfold step. now rewrite Hab. Qed.

Lemma step_worker (s : State) :
  aborted s = false -> step LWorker s = EmulationThreadEntryPoint_step s.
Proof. intros Hab. unfold step. now rewrite Hab. Qed.

Lemma lock_then_push (s : State) (t : nat) (f : Command) (b : bool) :
  aborted s = false -> m_callback_mutex s = None -> cpcs s t = R_lock f b ->
  let s' := exec [LStep t; LStep t] s in
  m_callback_queue s' = m_callback_queue s ++ [f]
  /\ wpc s' = wpc s
  /\ trace s' = EvAppend t (cmd_id f) :: trace s.
Proof.
  intros Hab Hmx Ht.
  assert (E1 : step (LStep t) s
               = cgoto t (R_push f b) (set_m_callback_mutex (Some (Caller t)) s)).
  { rewrite step_caller by exact Hab. unfold caller_step. rewrite Ht.
    unfold RunOnEmulationThread_step, or_wait, option_map, mutex_lock.
    now rewrite Hmx. }
  cbv zeta. unfold exec. simpl fold_left. rewrite E1.
  rewrite step_caller by exact Hab.
  unfold caller_step. rewrite cgoto_same. simpl. auto.
Qed.

(** The call of line 197: the step that records it is the step of the
    worker that runs the entry it holds. *)
Lemma emits_exec_worker (s : State) (l : label) (id : nat) :
  aborted s = false -> trace (step l s) = EvExec Worker id :: trace s ->
  exists c, l = LWorker /\ wpc s = W_call c /\ cmd_id c = id
            /\ host (step l s) = cmd_run c (host s).
Proof.
  intros Hab. step_cases s l t0; simpl; intros H;
    try no_growth; try discriminate H.
  injection H as <-. eauto.
Qed.

(** One round of the drain, by the worker alone: the front entry is
    removed and run. *)
Lemma drain_round_runs (s : State) (c : Command) (rest : list Command) :
  aborted s = false -> wpc s = W_drain_test -> m_callback_queue s = c :: rest ->
  let s' := exec (repeat LWorker 5) s in
  wpc s' = W_drain_test /\ m_callback_queue s' = rest /\ aborted s' = false
  /\ host s' = cmd_run c (host s)
  /\ executed_ids (trace s') = executed_ids (trace s) ++ [cmd_id c].
Proof.
  intros Hab Hpc Hq.
  destruct s as [sr res ev jn mx q im dp au h a pc cp ab tr].
  simpl in *. subst ab pc q. repeat split.
Qed.

(** A whole drain, by the worker alone: every queued entry is run, front
    first, and the drain ends with the queue empty. *)
Lemma drain_runs_queue (q : list Command) : forall s,
  aborted s = false -> wpc s = W_drain_test -> m_callback_queue s = q ->
  let s' := exec (repeat LWorker (5 * List.length q + 1)) s in
  wpc s' = W_drain_unlock /\ m_callback_queue s' = [] /\ aborted s' = false
  /\ host s' = run_all q (host s)
  /\ executed_ids (trace s') = executed_ids (trace s) ++ map cmd_id q.
Proof.
  induction q as [|c rest IH]; intros s Hab Hpc Hq.
  - destruct s as [sr res ev jn mx q im dp au h a pc cp ab tr].
    simpl in *. subst ab pc q. simpl. rewrite app_nil_r. repeat split.
  - destruct (drain_round_runs s c rest Hab Hpc Hq) as (Hpc' & Hq' & Hab' & Hh' & Hx').
    replace (5 * List.length (c :: rest) + 1) with (5 + (5 * List.length rest + 1))
      by (simpl; lia).
    cbv zeta. rewrite repeat_app, exec_app.
    destruct (IH _ Hab' Hpc' Hq') as (H1 & H2 & H3 & H4 & H5).
    repeat split; auto.
    + rewrite H4, Hh'. reflexivity.
    + rewrite H5, Hx'. simpl. now rewrite <- app_assoc.
Qed.

(** C5.  In every reachable state: the identities appended so far are, in
    this order, those the worker has run, the one it holds, and those still
    queued; at line 194 the worker holds the mutex and removes the front
    entry; line 196 unlocks before the entry is called; the call of line 197
    runs the entry the worker holds, that is, applies its effect to the host
    members, while the worker does not hold the mutex, so that a caller
    waiting at line 117 can lock and append; the worker records a call only
    at such a step; left alone, the worker runs every queued entry, front
    first, and ends the drain with the queue empty; and the test of line 191
    leaves the drain exactly when the queue is empty. *)
Theorem drain_is_fifo_and_unlocked (s : State) :
  Reachable s ->
  appended_ids (trace s)
  = executed_ids (trace s) ++ in_flight (wpc s) ++ map cmd_id (m_callback_queue s)
  /\ (wpc s = W_pop -> aborted s = false ->
      m_callback_mutex s = Some Worker
      /\ exists front rest,
           m_callback_queue s = front :: rest
           /\ wpc (step LWorker s) = W_unlock_cb front
           /\ m_callback_queue (step LWorker s) = rest)
  /\ (forall c, wpc s = W_unlock_cb c -> aborted s = false ->
       wpc (step LWorker s) = W_call c
       /\ m_callback_mutex (step LWorker s) = None
       /\ host (step LWorker s) = host s)
  /\ (forall c, wpc s = W_call c ->
       m_callback_mutex s <> Some Worker
       /\ (aborted s = false ->
           trace (step LWorker s) = EvExec Worker (cmd_id c) :: trace s
           /\ host (step LWorker s) = cmd_run c (host s)
           /\ wpc (step LWorker s) = W_relock))
  /\ (forall l id, aborted s = false ->
       trace (step l s) = EvExec Worker id :: trace s ->
       exists c, l = LWorker /\ wpc s = W_call c /\ cmd_id c = id
                 /\ host (step l s) = cmd_run c (host s))
  /\ (wpc s = W_drain_test -> aborted s = false ->
      let s' := exec (repeat LWorker (5 * List.length (m_callback_queue s) + 1)) s in
      wpc s' = W_drain_unlock
      /\ m_callback_queue s' = []
      /\ host s' = run_all (m_callback_queue s) (host s)
      /\ executed_ids (trace s')
         = executed_ids (trace s) ++ map cmd_id (m_callback_queue s))
  /\ (forall c t f b,
       wpc s = W_call c -> aborted s = false ->
       m_callback_mutex s = None -> cpcs s t = R_lock f b ->
       let s' := exec [LStep t; LStep t] s in
       m_callback_queue s' = m_callback_queue s ++ [f] /\ wpc s' = W_call c)
  /\ (wpc s = W_drain_test -> aborted s = false ->
      m_callback_mutex s = Some Worker
      /\ (m_callback_queue s = [] <-> wpc (step LWorker s) = W_drain_unlock)
      /\ (m_callback_queue s <> [] <-> wpc (step LWorker s) = W_pop))
  /\ (wpc s = W_drain_unlock -> m_callback_queue s = []).
Proof.
  intros Hr.
  pose proof (Inv_mutex_queue_reachable s Hr) as [Hm Hq].
  unfold Inv_queue in Hq.
  repeat apply conj.
  - apply (Inv_fifo_reachable s Hr).
  - intros Hpc Hab. split.
    + apply worker_holds_mutex; auto. now rewrite Hpc.
    + rewrite Hpc in Hq. unfold step. rewrite Hab.
      unfold EmulationThreadEntryPoint_step. rewrite Hpc.
      destruct (m_callback_queue s) as [|front rest]; [congruence|].
      exists front, rest. auto.
  - intros c Hpc Hab. unfold step. rewrite Hab.
    unfold EmulationThreadEntryPoint_step. rewrite Hpc. repeat split.
  - intros c Hpc. split.
    + intros Hw. unfold Inv_mutex in Hm. rewrite Hw, Hpc in Hm.
      destruct Hm as [Hm _]. discriminate.
    + intros Hab. unfold step. rewrite Hab.
      unfold EmulationThreadEntryPoint_step. rewrite Hpc. repeat split.
  - intros l id Hab Hemit. now apply emits_exec_worker.
  - intros Hpc Hab.
    destruct (drain_runs_queue _ s Hab Hpc eq_refl) as (H1 & H2 & _ & H4 & H5).
    repeat split; assumption.
  - intros c t f b Hpc Hab Hmx Ht.
    destruct (lock_then_push s t f b Hab Hmx Ht) as (Hq' & Hpc' & _).
    split; [exact Hq' | congruence].
  - intros Hpc Hab. split; [|split].
    + apply worker_holds_mutex; auto. now rewrite Hpc.
    + unfold step. rewrite Hab. unfold EmulationThreadEntryPoint_step. rewrite Hpc.
      destruct (m_callback_queue s); simpl; split; intros; congruence.
    + unfold step. rewrite Hab. unfold EmulationThreadEntryPoint_step. rewrite Hpc.
      destruct (m_callback_queue s); simpl; split; intros; congruence.
  - intros Hpc. rewrite Hpc in Hq. exact Hq.
Qed.

(** Caller 2 appends command 2 while the worker is running command 1; and
    a drain that finds [pause_emulation] queued leaves the emulation
    paused. *)
Lemma drain_is_fifo_and_unlocked_witness :
  let s := exec mid_drain_schedule fresh_state in
  let s' := exec [LStep 2; LStep 2] s in
  let sd := exec pause_queued_schedule fresh_state in
  let sd' := exec (repeat LWorker (5 * List.length (m_callback_queue sd) + 1)) sd in
  wpc s = W_call (command 1)
  /\ map cmd_id (m_callback_queue s') = [2]
  /\ wpc s' = W_call (command 1)
  /\ appended_ids (trace s') = executed_ids (trace s') ++ [1] ++ [2]
  /\ m_paused (host sd) = false
  /\ m_paused (host sd') = true
  /\ m_callback_queue sd' = [].
Proof.
  intros s s' sd sd'.
  assert (Hr : Reachable s).
  { exists false, false, (mkHost false false false), mid_drain_schedule. reflexivity. }
  assert (Hrd : Reachable sd).
  { exists false, false, (mkHost false false false), pause_queued_schedule.
    reflexivity. }
  destruct (drain_is_fifo_and_unlocked s Hr) as (_ & _ & _ & _ & _ & _ & Happ & _).
  destruct (drain_is_fifo_and_unlocked sd Hrd) as (_ & _ & _ & _ & _ & Hdrain & _).
  destruct (Happ (command 1) 2 (command 2) false) as [Hq Hpc];
    try (vm_compute; reflexivity).
  destruct Hdrain as (_ & Hempty & Hhost & _); try (vm_compute; reflexivity).
  split; [vm_compute; reflexivity|]. split; [|split; [|split; [|split; [|split]]]].
  - unfold s'. rewrite Hq. vm_compute. reflexivity.
  - exact Hpc.
  - vm_compute. reflexivity.
  - vm_compute. reflexivity.
  - unfold sd'. rewrite Hhost. vm_compute. reflexivity.
  - exact Hempty.
Defined.

(** ** StopEmulationThread and the queue *)

Lemma emits_drain_empty (s : State) (l : label) :
  aborted s = false -> trace (step l s) = EvDrainEmpty :: trace s ->
  l = LWorker /\ wpc s = W_drain_test /\ m_callback_queue s = [].
Proof.
  intros Hab. step_cases s l t; simpl; intros H;
    try no_growth; try discriminate H. auto.
Qed.

(** C3, counterexample.  Three commands are submitted with
    [blocking = false] while the worker is running and past its drain, then
    [StopEmulationThread] is called: when the call is about to return, the
    worker has exited without running any of them, and they are still in the
    queue. *)
Lemma stop_leaves_submitted_commands_unexecuted :
  let s := exec submit_then_stop_schedule fresh_state in
  cpcs s controller = T_ret
  /\ wpc s = W_exited
  /\ appended_before_stop (trace s) = [1; 2; 3]
  /\ executed_ids (trace s) = []
  /\ map cmd_id (m_callback_queue s) = [1; 2; 3]
  /\ ~ all_submitted_before_stop_executed.
Proof.
  intros s.
  assert (H : cpcs s controller = T_ret /\ wpc s = W_exited
              /\ appended_before_stop (trace s) = [1; 2; 3]
              /\ executed_ids (trace s) = []
              /\ map cmd_id (m_callback_queue s) = [1; 2; 3]).
  { vm_compute. repeat split. }
  destruct H as (Hpc & Hw & Happ & Hex & Hq).
  repeat split; auto.
  intros Hall.
  assert (Hr : Reachable s).
  { exists false, false, (mkHost false false false), submit_then_stop_schedule.
    reflexivity. }
  specialize (Hall s Hr Hpc 1). rewrite Happ, Hex in Hall.
  apply Hall. simpl. auto.
Qed.

(** C3, amended.  In every reachable state: whatever had been appended
    when the worker found the queue empty (line 191) had been run by then;
    and when [StopEmulationThread] is about to return, the worker has exited,
    the commands it has run are exactly those appended before it last found
    the queue empty, in the order of their submission, and every command
    appended after that moment is still in the queue, not run. *)
Theorem stop_returns_after_last_drain (s : State) :
  Reachable s ->
  (forall post pre, trace s = post ++ EvDrainEmpty :: pre ->
                    executed_ids pre = appended_ids pre)
  /\ (cpcs s controller = T_ret ->
      wpc s = W_exited
      /\ executed_ids (trace s) = drained_prefix (trace s)
      /\ appended_ids (trace s)
         = executed_ids (trace s) ++ map cmd_id (m_callback_queue s)).
Proof.
  intros Hr. split.
  - revert s Hr. apply history_invariant.
    intros s l Hr Hab Hemit.
    destruct (emits_drain_empty s l Hab Hemit) as (_ & Hpc & Hq).
    pose proof (Inv_fifo_reachable s Hr) as Hf. unfold Inv_fifo in Hf.
    rewrite Hpc, Hq in Hf. simpl in Hf. now rewrite app_nil_r in Hf.
  - intros Hpc.
    pose proof (Inv_life_reachable s Hr) as (_ & Hc & _ & _).
    unfold controller_inv in Hc. rewrite Hpc in Hc. destruct Hc as (_ & _ & Hex).
    pose proof (Inv_fifo_reachable s Hr) as Hf. unfold Inv_fifo in Hf.
    pose proof (Inv_drained_reachable s Hr) as Hd. unfold Inv_drained in Hd.
    rewrite Hex in Hf, Hd. simpl in Hf. auto.
Qed.

(** The schedule of the counterexample: nothing was appended before the
    last empty drain, nothing was run, three commands are left. *)
Lemma stop_returns_after_last_drain_witness :
  let s := exec submit_then_stop_schedule fresh_state in
  wpc s = W_exited
  /\ executed_ids (trace s) = drained_prefix (trace s)
  /\ appended_ids (trace s)
     = executed_ids (trace s) ++ map cmd_id (m_callback_queue s).
Proof.
  intros s.
  assert (Hr : Reachable s).
  { exists false, false, (mkHost false false false), submit_then_stop_schedule.
    reflexivity. }
  apply (proj2 (stop_returns_after_last_drain s Hr)).
  vm_compute. reflexivity.
Defined.

(** ** RunOnEmulationThread without a worker *)

Lemma aborted_step (s : State) (l : label) :
  aborted s = true -> step l s = s.
Proof. intros H. unfold step. now rewrite H. Qed.

Lemma aborted_exec (s : State) (sched : list label) :
  aborted s = true -> exec sched s = s.
Proof.
  intros H. induction sched as [|l sched IH]; simpl; auto.
  now rewrite aborted_step.
Qed.

Lemma not_aborted_before (s : State) (sched : list label) :
  aborted (exec sched s) = false -> aborted s = false.
Proof.
  intros H. destruct (aborted s) eqn:E; auto.
  rewrite aborted_exec in H by exact E. congruence.
Qed.

(** Steps of other threads leave the program point of caller [t] alone and
    put nothing of [t] into the trace. *)
Lemma other_steps (t : nat) (sched : list label) (s : State) :
  forallb (fun l => negb (moves t l)) sched = true ->
  cpcs (exec sched s) t = cpcs s t
  /\ exists new, trace (exec sched s) = new ++ trace s /\ events_of t new = [].
Proof.
  revert s. induction sched as [|l sched IH]; intros s Hall.
  - split; [reflexivity|]. exists []. auto.
  - simpl in Hall. apply andb_prop in Hall as [Hl Hall].
    apply negb_true_iff in Hl.
    destruct (IH (step l s) Hall) as (Hpc & new & Htr & Hnew).
    destruct (other_step s l t Hl) as [Hpc1 Htr1].
    simpl. split; [congruence|].
    destruct Htr1 as [E|(e & E & He)]; rewrite E in Htr.
    + exists new. auto.
    + exists (new ++ [e]). split.
      * now rewrite <- app_assoc.
      * unfold events_of in *. rewrite filter_app, Hnew. simpl. now rewrite He.
Qed.

(** C6.  Caller [t] is at the test of line 111 and no worker thread is
    running.  Whatever the other threads do in between, the next three steps
    of [t] run the entry on the thread of [t] and return.  The second of
    them is the call of line 113: it applies the effect of the entry to the
    host members as it finds them.  None of the three touches
    [m_callback_queue] or [m_callback_mutex]: the entry is not appended and
    [t] never waits.  The trace entries of [t] are the inline execution
    followed by the return, none of them an append. *)
Theorem RunOnEmulationThread_inline
    (s : State) (t : nat) (f : Command) (blocking : bool)
    (others1 others2 : list label) :
  cpcs s t = R_check f blocking ->
  IsEmulationThreadRunning s = false ->
  forallb (fun l => negb (moves t l)) (others1 ++ others2) = true ->
  let s' := exec ([LStep t] ++ others1 ++ [LStep t] ++ others2 ++ [LStep t]) s in
  aborted s' = false ->
  cpcs s' t = C_idle
  /\ (let before := exec ([LStep t] ++ others1) s in
      let after := exec ([LStep t] ++ others1 ++ [LStep t]) s in
      host after = cmd_run f (host before)
      /\ m_callback_queue after = m_callback_queue before
      /\ m_callback_mutex after = m_callback_mutex before)
  /\ (m_callback_queue (exec [LStep t] s) = m_callback_queue s
      /\ m_callback_mutex (exec [LStep t] s) = m_callback_mutex s
      /\ host (exec [LStep t] s) = host s)
  /\ (let before := exec ([LStep t] ++ others1 ++ [LStep t] ++ others2) s in
      m_callback_queue s' = m_callback_queue before
      /\ m_callback_mutex s' = m_callback_mutex before
      /\ host s' = host before)
  /\ exists new,
      trace s' = new ++ trace s
      /\ events_of t new
         = [EvRunReturn t (cmd_id f) blocking false; EvExec (Caller t) (cmd_id f)]
      /\ appended_ids (events_of t new) = [].
Proof.
  intros Hpc Hrun Hall s' Hab'.
  rewrite forallb_app in Hall. apply andb_prop in Hall as [Ho1 Ho2].
  unfold s' in *. clear s'.
  rewrite !exec_app in *.
  set (s1 := exec [LStep t] s) in *.
  set (s2 := exec others1 s1) in *.
  set (s3 := exec [LStep t] s2) in *.
  set (s4 := exec others2 s3) in *.
  assert (Hab4 : aborted s4 = false) by (eapply not_aborted_before; eauto).
  assert (Hab3 : aborted s3 = false) by (eapply not_aborted_before; eauto).
  assert (Hab2 : aborted s2 = false) by (eapply not_aborted_before; eauto).
  assert (Hab1 : aborted s1 = false) by (eapply not_aborted_before; eauto).
  assert (Hab0 : aborted s = false) by (eapply not_aborted_before; eauto).
  (* line 111 *)
  assert (E1 : s1 = cgoto t (R_inline f blocking) s).
  { unfold s1. simpl. rewrite step_caller by exact Hab0.
    unfold caller_step. rewrite Hpc. simpl. now rewrite Hrun. }
  destruct (other_steps t others1 s1 Ho1) as (Hpc2 & new1 & Htr2 & Hn1).
  fold s2 in Hpc2, Htr2.
  rewrite E1, cgoto_same in Hpc2. rewrite E1 in Htr2. simpl in Htr2.
  (* line 113 *)
  assert (E3 : s3 = cgoto t (R_ret f blocking false)
                      (emit (EvExec (Caller t) (cmd_id f))
                         (set_host (cmd_run f (host s2)) s2))).
  { unfold s3. simpl. rewrite step_caller by exact Hab2.
    unfold caller_step. now rewrite Hpc2. }
  destruct (other_steps t others2 s3 Ho2) as (Hpc4 & new2 & Htr4 & Hn2).
  fold s4 in Hpc4, Htr4.
  rewrite E3, cgoto_same in Hpc4. rewrite E3 in Htr4. simpl in Htr4.
  (* line 114 *)
  assert (E5 : exec [LStep t] s4
               = cgoto t C_idle (emit (EvRunReturn t (cmd_id f) blocking false) s4)).
  { simpl. rewrite step_caller by exact Hab4.
    unfold caller_step. now rewrite Hpc4. }
  rewrite E5.
  split; [apply cgoto_same|].
  split; [cbv zeta; rewrite E3; repeat split|].
  split; [rewrite E1; repeat split|].
  split; [cbv zeta; repeat split|].
  simpl.
  exists (EvRunReturn t (cmd_id f) blocking false
          :: new2 ++ EvExec (Caller t) (cmd_id f) :: new1).
  split.
  - rewrite Htr4, Htr2. simpl. rewrite <- app_assoc. reflexivity.
  - unfold events_of in *. simpl. rewrite Nat.eqb_refl.
    rewrite filter_app, Hn2. simpl. rewrite Nat.eqb_refl, Hn1. simpl. auto.
Qed.

(** Before any start, caller 1 submits [pause_emulation] while caller 2
    is busy with a submission of its own: the emulation is paused when the
    call returns, and nothing was queued. *)
Lemma RunOnEmulationThread_inline_witness :
  let s := exec [LCall 1 (CallRun pause_emulation true)] fresh_state in
  let s' := exec ([LStep 1] ++ [LCall 2 (CallRun (command 6) false)] ++ [LStep 1]
                  ++ [LStep 2] ++ [LStep 1]) s in
  cpcs s' 1 = C_idle
  /\ m_paused (host s) = false
  /\ m_paused (host s') = true
  /\ m_callback_queue s' = []
  /\ exists new,
      trace s' = new ++ trace s
      /\ events_of 1 new = [EvRunReturn 1 5 true false; EvExec (Caller 1) 5]
      /\ appended_ids (events_of 1 new) = [].
Proof.
  intros s s'.
  destruct (RunOnEmulationThread_inline s 1 pause_emulation true
              [LCall 2 (CallRun (command 6) false)] [LStep 2])
    as (Hpc & (Hrun & _) & _ & (_ & _ & Hlast) & Htr);
    try (vm_compute; reflexivity).
  split; [exact Hpc|]. split; [reflexivity|]. split; [|split; [reflexivity | exact Htr]].
  fold s' in Hlast. rewrite Hlast.
  change (exec ([LStep 1] ++ [LCall 2 (CallRun (command 6) false)] ++ [LStep 1]
                ++ [LStep 2]) s)
    with (step (LStep 2)
            (exec ([LStep 1] ++ [LCall 2 (CallRun (command 6) false)] ++ [LStep 1]) s)).
  replace (host (step (LStep 2)
             (exec ([LStep 1] ++ [LCall 2 (CallRun (command 6) false)] ++ [LStep 1]) s)))
    with (host (exec ([LStep 1] ++ [LCall 2 (CallRun (command 6) false)] ++ [LStep 1]) s))
    by reflexivity.
  cbv zeta in Hrun. rewrite Hrun. reflexivity.
Defined.

(** ** Order of release *)

Lemma Inv_release_reachable : forall s, Reachable s -> Inv_release s.
Proof.
  apply Reachable_invariant.
  - intros. intros _. exact I.
  - intros s l Hr Hab IH. life_facts s Hr. clear Hc Ht.
    step_cases s l t; try assumption;
      unfold Inv_release in *; simpl in *; rewrite ?Epc in *; simpl in *;
      try assumption; try (intros Hok; specialize (IH Hok));
      try (destruct IH as [IH1 IH2]; rewrite ?IH1, ?IH2; simpl; auto; fail);
      try (intros; split; reflexivity);
      try solve [ exfalso; repeat match goal with H : _ /\ _ |- _ => destruct H end;
                  congruence
                | exfalso; unfold start_ok, display_ok, audio_ok, boot_ok in *;
                  args_cases (wargs s) ].
    apply andb_prop in Heqb as [Hc _]. rewrite Hc.
    destruct IH as [-> ->]. auto.
Qed.

(** On the normal shutdown path the display is released first, then the
    audio stream, then the overlay context. *)
Lemma normal_shutdown_release_order (s : State) :
  Reachable s -> start_ok (wargs s) = true -> wpc s = W_exited ->
  acquired_since_spawn (trace s) = [ImGuiContext; Display; AudioStream]
  /\ released_since_spawn (trace s) = [Display; AudioStream; ImGuiContext].
Proof.
  intros Hr Hok Hpc.
  pose proof (Inv_release_reachable s Hr Hok) as H. now rewrite Hpc in H.
Qed.

(** C8.  A successful start followed by [StopEmulationThread]: the
    resources were acquired in the order overlay context, display, audio
    stream, and lines 230-232 release them in the order display, audio
    stream, overlay context, which is not the reverse of the acquisition
    order; the exit taken when the boot fails (lines 171-173) does release
    in reverse order. *)
Theorem shutdown_releases_display_before_audio :
  let s := exec start_stop_schedule fresh_state in
  let failed := exec (start_schedule corrupt_game) fresh_state in
  cpcs s controller = T_ret
  /\ acquired_since_spawn (trace s) = [ImGuiContext; Display; AudioStream]
  /\ released_since_spawn (trace s) = [Display; AudioStream; ImGuiContext]
  /\ released_since_spawn (trace s) <> rev (acquired_since_spawn (trace s))
  /\ acquired_since_spawn (trace failed) = [ImGuiContext; Display; AudioStream]
  /\ released_since_spawn (trace failed) = [AudioStream; Display; ImGuiContext]
  /\ released_since_spawn (trace failed) = rev (acquired_since_spawn (trace failed)).
Proof.
  vm_compute. repeat split. discriminate.
Qed.


(** ** The frame loop *)

Lemma emits_throttle (s : State) (l : label) :
  aborted s = false -> trace (step l s) = EvThrottle :: trace s ->
  l = LWorker /\ wpc s = W_limiter /\ m_speed_limiter_enabled (host s) = true.
Proof.
  intros Hab. step_cases s l t; simpl; intros H;
    try no_growth; try discriminate H. auto.
Qed.

Lemma emits_restore (s : State) (l : label) :
  aborted s = false -> trace (step l s) = EvRestoreGfx :: trace s ->
  l = LWorker /\ wpc s = W_restore_gfx /\ m_system (host s) = true.
Proof.
  intros Hab. step_cases s l t; simpl; intros H;
    try no_growth; try discriminate H. auto.
Qed.

Lemma emits_reset (s : State) (l : label) :
  aborted s = false -> trace (step l s) = EvResetGfx :: trace s ->
  l = LWorker /\ wpc s = W_reset_gfx /\ m_system (host s) = true.
Proof.
  intros Hab. step_cases s l t; simpl; intros H;
    try no_growth; try discriminate H. auto.
Qed.

Lemma emits_update_perf (s : State) (l : label) :
  aborted s = false -> trace (step l s) = EvUpdatePerf :: trace s ->
  l = LWorker /\ wpc s = W_update_perf.
Proof.
  intros Hab. step_cases s l t; simpl; intros H;
    try no_growth; try discriminate H. auto.
Qed.

(** One iteration of the worker alone, from line 203, without a system:
    overlay, render, present, new frame, counters; no frame is simulated, the
    graphics state is neither reset nor restored, and nothing is throttled,
    whatever the speed limiter says. *)
Lemma iteration_without_system (s : State) :
  aborted s = false -> wpc s = W_simulate -> m_system (host s) = false ->
  let s' := exec (repeat LWorker 8) s in
  wpc s' = W_loop_check
  /\ trace s' = [EvUpdatePerf; EvNewFrame; EvDisplayRender; EvImGuiRender; EvDrawImGui]
                ++ trace s.
Proof.
  destruct s as [sr res ev jn mx q im dp au [sys pa lim] wa pc cp ab tr].
  simpl. intros -> -> ->. split; reflexivity.
Qed.

(** The same with a system: the frame is simulated unless paused, the
    graphics state is reset before and restored after the present, and the
    throttle follows the restore exactly if the speed limiter is enabled. *)
Lemma iteration_with_system (s : State) :
  aborted s = false -> wpc s = W_simulate -> m_system (host s) = true ->
  let s' := exec (repeat LWorker 9) s in
  wpc s' = W_loop_check
  /\ trace s' = [EvUpdatePerf] ++ opt (m_speed_limiter_enabled (host s)) EvThrottle
                ++ [EvRestoreGfx; EvNewFrame; EvDisplayRender; EvImGuiRender;
                    EvResetGfx; EvDrawImGui]
                ++ opt (negb (m_paused (host s))) EvRunFrame ++ trace s.
Proof.
  destruct s as [sr res ev jn mx q im dp au [sys pa lim] wa pc cp ab tr].
  simpl. intros -> -> ->. destruct pa, lim; split; reflexivity.
Qed.

(** C9.  In every reachable state: every completed loop iteration
    consists of the drain, an optional simulated frame, the overlay, an
    optional graphics reset, render, present and new frame, followed by
    nothing, by the graphics restore alone, or by the restore and then the
    throttle; the throttle is executed only at line 223 with the speed limiter
    enabled, and line 223 is reached only through the restore of line 220,
    which is executed only when [m_system] is non-null; when [m_system] is
    null the restore and the limiter test are skipped together and the reset
    of line 211 is skipped; the present of line 214 is unconditional. *)
Theorem throttle_only_with_system_and_limiter (s : State) :
  Reachable s ->
  (forall post pre, trace s = post ++ EvUpdatePerf :: pre ->
     exists sim reset tail,
       valid_tail tail /\ iteration_events pre = tail ++ rendered sim reset)
  /\ (forall l, aborted s = false -> trace (step l s) = EvThrottle :: trace s ->
      l = LWorker /\ wpc s = W_limiter /\ m_speed_limiter_enabled (host s) = true
      /\ exists sim reset,
           iteration_events (trace s) = [EvRestoreGfx] ++ rendered sim reset)
  /\ (forall l, aborted s = false -> trace (step l s) = EvRestoreGfx :: trace s ->
      l = LWorker /\ wpc s = W_restore_gfx /\ m_system (host s) = true)
  /\ (forall l, aborted s = false -> trace (step l s) = EvResetGfx :: trace s ->
      l = LWorker /\ wpc s = W_reset_gfx /\ m_system (host s) = true)
  /\ (aborted s = false -> wpc s = W_restore_gfx -> m_system (host s) = false ->
      trace (step LWorker s) = trace s /\ wpc (step LWorker s) = W_update_perf)
  /\ (aborted s = false -> wpc s = W_reset_gfx -> m_system (host s) = false ->
      trace (step LWorker s) = trace s /\ wpc (step LWorker s) = W_imgui_render)
  /\ (aborted s = false -> wpc s = W_limiter ->
      trace (step LWorker s)
      = opt (m_speed_limiter_enabled (host s)) EvThrottle ++ trace s
      /\ wpc (step LWorker s) = W_update_perf)
  /\ (aborted s = false -> wpc s = W_display_render ->
      trace (step LWorker s) = EvDisplayRender :: trace s)
  /\ (aborted s = false -> wpc s = W_simulate -> m_system (host s) = false ->
      let s' := exec (repeat LWorker 8) s in
      wpc s' = W_loop_check
      /\ trace s' = [EvUpdatePerf; EvNewFrame; EvDisplayRender; EvImGuiRender;
                     EvDrawImGui] ++ trace s).
Proof.
  intros Hr. repeat apply conj.
  - revert s Hr. apply history_invariant.
    intros s l Hr Hab Hemit.
    destruct (emits_update_perf s l Hab Hemit) as [_ Hpc].
    pose proof (Inv_frame_reachable s Hr) as H. unfold Inv_frame in H.
    rewrite Hpc in H. exact H.
  - intros l Hab Hemit.
    destruct (emits_throttle s l Hab Hemit) as (-> & Hpc & Hlim).
    repeat split; auto.
    pose proof (Inv_frame_reachable s Hr) as H. unfold Inv_frame in H.
    rewrite Hpc in H. exact H.
  - intros l Hab Hemit. now apply emits_restore.
  - intros l Hab Hemit. now apply emits_reset.
  - intros Hab Hpc Hsys. rewrite step_worker by exact Hab.
    unfold EmulationThreadEntryPoint_step. rewrite Hpc, Hsys. auto.
  - intros Hab Hpc Hsys. rewrite step_worker by exact Hab.
    unfold EmulationThreadEntryPoint_step. rewrite Hpc, Hsys. auto.
  - intros Hab Hpc. rewrite step_worker by exact Hab.
    unfold EmulationThreadEntryPoint_step. rewrite Hpc.
    destruct (m_speed_limiter_enabled (host s)); auto.
  - intros Hab Hpc. rewrite step_worker by exact Hab.
    unfold EmulationThreadEntryPoint_step. rewrite Hpc. reflexivity.
  - apply iteration_without_system.
Qed.

(** After a command has destroyed the system, with the speed limiter
    enabled: one iteration without reset, restore and throttle. *)
Lemma throttle_only_with_system_and_limiter_witness :
  let s := exec no_system_schedule fresh_state in
  let s' := exec (repeat LWorker 8) s in
  m_speed_limiter_enabled (host s) = true
  /\ wpc s' = W_loop_check
  /\ trace s' = [EvUpdatePerf; EvNewFrame; EvDisplayRender; EvImGuiRender; EvDrawImGui]
                ++ trace s.
Proof.
  intros s s'. split; [vm_compute; reflexivity|].
  assert (Hr : Reachable s).
  { exists false, false, (mkHost false false false), no_system_schedule. reflexivity. }
  destruct (throttle_only_with_system_and_limiter s Hr)
    as (_ & _ & _ & _ & _ & _ & _ & _ & H).
  apply H; vm_compute; reflexivity.
Defined.

(** ** The speed read-out *)

Section SpeedBand.
Local Open Scope Z_scope.

Lemma digits2_pos_size (m : positive) : digits2_pos m = Pos.size m.
Proof. induction m; simpl; congruence. Qed.

(** A canonical binary32 mantissa and exponent: the exponent lies between
    -149 and 104, the mantissa has at most 24 bits, and exactly 24 unless
    the number is subnormal. *)
Lemma bounded32 (m : positive) (e : Z) :
  bounded prec32 emax32 m e = true ->
  -149 <= e <= 104 /\ Zpos m < 2 ^ 24 /\ (-149 < e -> 2 ^ 23 <= Zpos m).
Proof.
  unfold bounded, canonical_mantissa, fexp, emin, prec32, emax32.
  rewrite digits2_pos_size. intros H.
  apply andb_prop in H as [H1 H2]. apply Z.eqb_eq in H1. apply Z.leb_le in H2.
  pose proof (Pos.size_gt m) as Hgt. pose proof (Pos.size_le m) as Hle.
  apply Pos2Z.pos_lt_pos in Hgt. apply Pos2Z.pos_le_pos in Hle.
  rewrite Pos2Z.inj_pow in Hgt, Hle. rewrite Pos2Z.inj_xO in Hle.
  set (k := Zpos (Pos.size m)) in *.
  assert (Hk : 0 < k) by (unfold k; lia).
  assert (Hk24 : k <= 24) by lia.
  split; [lia|]. split.
  - apply Z.lt_le_trans with (2 ^ k); [exact Hgt|].
    apply Z.pow_le_mono_r; lia.
  - intros He. assert (k = 24) by lia. subst k.
    replace (Z.pos (Pos.size m)) with 24 in Hle by lia.
    change (2 ^ 24) with (2 * 2 ^ 23) in Hle. lia.
Qed.

(** Comparing a canonical positive number with a canonical constant of
    exponent -17 is comparing their exact values. *)
Lemma SFltb_exact (m mc : positive) (e : Z) :
  bounded prec32 emax32 m e = true ->
  2 ^ 23 <= Zpos mc < 2 ^ 24 ->
  SFltb (S754_finite false m e) (S754_finite false mc (-17))
  = (Zpos m * 2 ^ (e + 149) <? Zpos mc * 2 ^ 132).
Proof.
  intros Hb Hc. destruct (bounded32 m e Hb) as (He & Hm & Hn).
  unfold SFltb, SFcompare.
  destruct (Z.compare_spec e (-17)) as [E|E|E].
  - subst e. change (-17 + 149) with 132.
    change (Pos.compare_cont Eq m mc) with (Pos.compare m mc).
    assert (0 < 2 ^ 132) by (apply Z.pow_pos_nonneg; lia).
    destruct (Pos.compare_spec m mc) as [E|E|E]; symmetry.
    + apply Z.ltb_ge. rewrite E. lia.
    + apply Z.ltb_lt. apply Pos2Z.pos_lt_pos in E. nia.
    + apply Z.ltb_ge. apply Pos2Z.pos_lt_pos in E. nia.
  - symmetry. apply Z.ltb_lt.
    assert (Hp : 2 ^ (e + 149) <= 2 ^ 131) by (apply Z.pow_le_mono_r; lia).
    assert (0 < 2 ^ (e + 149)) by (apply Z.pow_pos_nonneg; lia).
    change (2 ^ 132) with (2 * 2 ^ 131).
    assert (0 < 2 ^ 131) by (apply Z.pow_pos_nonneg; lia).
    change (2 ^ 24) with 16777216 in *. change (2 ^ 23) with 8388608 in *.
    nia.
  - symmetry. apply Z.ltb_ge.
    assert (Hp : 2 ^ 133 <= 2 ^ (e + 149)) by (apply Z.pow_le_mono_r; lia).
    change (2 ^ 133) with (2 * 2 ^ 132) in Hp.
    assert (0 < 2 ^ 132) by (apply Z.pow_pos_nonneg; lia).
    assert (2 ^ 23 <= Zpos m) by (apply Hn; lia).
    change (2 ^ 24) with 16777216 in *. change (2 ^ 23) with 8388608 in *.
    nia.
Qed.

(** On finite values the band drawn is the band of the exact value, with
    the boundaries 90 (first nominal value) and 110 (first fast value). *)
Lemma speed_band_finite (x : spec_float) (u : Z) :
  is_float32 x -> f32_units x = Some u -> speed_band x = band_of_units u.
Proof.
  unfold is_float32. intros Hv Hu.
  destruct x as [s|s| |s m e]; unfold f32_units in Hu; try discriminate.
  - replace u with 0 by congruence. reflexivity.
  - assert (Hu' : u = (if s then -1 else 1) * (Z.pos m * 2 ^ (e + 149)))
      by congruence.
    rewrite Hu'. clear Hu Hu' u.
    unfold valid_binary in Hv. destruct s.
    + assert (0 < 2 ^ (e + 149)).
      { apply Z.pow_pos_nonneg; [lia|]. destruct (bounded32 m e Hv); lia. }
      assert (H90 : 0 < 90 * units_per_one) by reflexivity.
      assert (E : (-1 * (Z.pos m * 2 ^ (e + 149)) <? 90 * units_per_one) = true)
        by (apply Z.ltb_lt; nia).
      unfold band_of_units. change (if true then -1 else 1) with (-1).
      rewrite E. reflexivity.
    + change (if false then -1 else 1) with 1.
      unfold speed_band, band_of_units, f32_90, f32_110.
      rewrite !SFltb_exact
        by first [exact Hv | vm_compute; split; [discriminate | reflexivity]].
      rewrite Z.mul_1_l.
      change (90 * units_per_one) with (11796480 * 2 ^ 132).
      change (110 * units_per_one) with (14417920 * 2 ^ 132).
      reflexivity.
Qed.

(** [rounded_speed], when defined, fits in 32 unsigned bits and lies
    within one half of the exact value. *)
Lemma rounded_speed_nearest (x : spec_float) (n : Z) :
  is_float32 x -> rounded_speed x = Some n ->
  0 <= n <= u32_max
  /\ exists u, f32_units x = Some u
               /\ Z.abs (2 * u - 2 * n * units_per_one) <= units_per_one.
Proof.
  unfold is_float32, rounded_speed, cast_u32. intros Hv Hr.
  destruct x as [s|s| |s m e]; unfold std_round in Hr; try discriminate.
  - simpl in Hr. injection Hr as <-. split; [split; [lia | discriminate]|].
    exists 0. split; [reflexivity|]. simpl. discriminate.
  - unfold valid_binary in Hv. destruct (bounded32 m e Hv) as (He & Hm & _).
    match type of Hr with
    | (if ?c then _ else _) = _ => destruct c eqn:Hc; [|discriminate]
    end.
    injection Hr as <-. apply andb_prop in Hc as [H0 H1].
    apply Z.leb_le in H0. apply Z.leb_le in H1.
    split; [lia|].
    eexists. split; [reflexivity|].
    assert (Hrm : Z.abs (2 * (Zpos m * 2 ^ (e + 149))
                         - 2 * round_magnitude m e * units_per_one)
                  <= units_per_one /\ 0 <= round_magnitude m e).
    { unfold round_magnitude, units_per_one. destruct e as [|p|d].
      - rewrite Z.mul_1_r. simpl (0 + 149). split; [|lia].
        replace (2 * (Z.pos m * 2 ^ 149) - 2 * Z.pos m * 2 ^ 149) with 0 by ring.
        simpl. discriminate.
      - split; [|apply Z.mul_nonneg_nonneg; [lia|apply Z.pow_nonneg; lia]].
        rewrite Z.pow_add_r by lia.
        replace (2 * (Z.pos m * (2 ^ Z.pos p * 2 ^ 149))
                 - 2 * (Z.pos m * 2 ^ Z.pos p) * 2 ^ 149) with 0 by ring.
        simpl. discriminate.
      - assert (Hd : Z.pos d <= 149) by lia.
        set (D := 2 ^ Z.pos d).
        assert (HD : 0 < D) by (apply Z.pow_pos_nonneg; lia).
        set (K := 2 ^ (149 - Z.pos d)).
        assert (HK : 0 < K) by (apply Z.pow_pos_nonneg; lia).
        replace (2 ^ (Z.neg d + 149)) with K by (unfold K; f_equal; lia).
        replace (2 ^ 149) with (D * K)
          by (unfold D, K; rewrite <- Z.pow_add_r by lia; f_equal; lia).
        set (q := (2 * Z.pos m + D) / (2 * D)).
        assert (Hq : 2 * D * q <= 2 * Z.pos m + D < 2 * D * q + 2 * D).
        { unfold q. pose proof (Z.mul_div_le (2 * Z.pos m + D) (2 * D)).
          pose proof (Z.mul_succ_div_gt (2 * Z.pos m + D) (2 * D)). lia. }
        split.
        + replace (2 * (Z.pos m * K) - 2 * q * (D * K))
            with ((2 * Z.pos m - 2 * q * D) * K) by ring.
          rewrite Z.abs_mul, (Z.abs_eq K) by lia.
          apply Z.mul_le_mono_nonneg_r; lia.
        + apply Z.div_pos; lia. }
    destruct Hrm as [Hrm Hpos].
    destruct s.
    + change (if true then -1 else 1) with (-1).
      assert (round_magnitude m e = 0) by lia.
      replace (- round_magnitude m e) with 0 in * by lia.
      rewrite H in Hrm. rewrite Z.mul_0_r, Z.mul_0_l, Z.sub_0_r in *.
      rewrite Z.abs_eq in Hrm
        by (apply Z.mul_nonneg_nonneg; [lia|];
            apply Z.mul_nonneg_nonneg; [lia|apply Z.pow_nonneg; lia]).
      rewrite Z.abs_neq; lia.
    + change (if false then -1 else 1) with 1. rewrite Z.mul_1_l. exact Hrm.
Qed.

(** C7, counterexample.  The value 110.0 lies in the range 90 to 110
    inclusive, which would make it nominal, and is drawn in the fast
    colour. *)
Lemma speed_110_is_fast :
  is_float32 f32_110
  /\ f32_units f32_110 = Some (110 * units_per_one)
  /\ spec_band_inclusive (110 * units_per_one) = Nominal
  /\ speed_band f32_110 = Fast
  /\ DrawFPSWindow_speed f32_110 = Some (TextColored color_fast "110%").
Proof. repeat split. Qed.

(** C7, amended.  For every binary32 value of [m_speed].  If the value is
    finite, lines 305-310 select the band of its exact value: slow below 90,
    nominal from 90 up to but not including 110, fast from 110 on.  Whenever
    the rounded speed of line 304 is defined, the value is finite, the text
    drawn is that integer, which fits in 32 unsigned bits and lies within one
    half of the value, followed by a percent sign, and its colour is the
    colour of the band of the value.  Whenever the rounded speed is not
    defined, no text is determined.  The values 85.0, 100.0 and 120.0 are
    drawn as 85%, 100% and 120% in the slow, the nominal and the fast
    colour. *)
Theorem speed_band_by_value (m_speed : spec_float) :
  is_float32 m_speed ->
  (forall u, f32_units m_speed = Some u -> speed_band m_speed = band_of_units u)
  /\ (forall n, rounded_speed m_speed = Some n ->
       exists u,
         f32_units m_speed = Some u
         /\ DrawFPSWindow_speed m_speed
            = Some (TextColored (band_color (band_of_units u)) (format_percent n))
         /\ 0 <= n <= u32_max
         /\ Z.abs (2 * u - 2 * n * units_per_one) <= units_per_one)
  /\ (rounded_speed m_speed = None <-> DrawFPSWindow_speed m_speed = None)
  /\ DrawFPSWindow_speed f32_85 = Some (TextColored color_slow "85%")
  /\ DrawFPSWindow_speed f32_100 = Some (TextColored color_nominal "100%")
  /\ DrawFPSWindow_speed f32_120 = Some (TextColored color_fast "120%").
Proof.
  intros Hv. split; [|split; [|split]].
  - intros u Hu. now apply speed_band_finite.
  - intros n Hn.
    destruct (rounded_speed_nearest m_speed n Hv Hn) as (Hrange & u & Hu & Hnear).
    exists u. split; [exact Hu|]. split; [|split; assumption].
    unfold DrawFPSWindow_speed. rewrite Hn.
    now rewrite (speed_band_finite m_speed u Hv Hu).
  - unfold DrawFPSWindow_speed.
    destruct (rounded_speed m_speed); split; intros H; congruence.
  - repeat split.
Qed.

(** The value 85.0: drawn as 85% in the colour of the band of 85. *)
Lemma speed_band_by_value_witness :
  is_float32 f32_85
  /\ speed_band f32_85 = band_of_units (85 * units_per_one)
  /\ exists u,
       f32_units f32_85 = Some u
       /\ DrawFPSWindow_speed f32_85
          = Some (TextColored (band_color (band_of_units u)) (format_percent 85)).
Proof.
  assert (Hv : is_float32 f32_85) by reflexivity.
  destruct (speed_band_by_value f32_85 Hv) as (Hband & Hdraw & _).
  split; [exact Hv|]. split; [apply Hband; reflexivity|].
  destruct (Hdraw 85 eq_refl) as (u & Hu & Hd & _).
  exists u. split; assumption.
Defined.

End SpeedBand.

(* ================================================================== *)
(** * Further properties of the thread, the queue and the glue        *)
(* ================================================================== *)

(** ** Mutual exclusion on the callback queue *)

(** X1.  In every reachable state the owner recorded in [m_callback_mutex]
    is exactly the thread whose program point lies between a [lock] and the
    matching [unlock]: the worker inside its drain, or one caller inside
    [RunOnEmulationThread]; the worker and a caller are never both inside,
    and neither are two callers. *)
Theorem callback_mutex_mutual_exclusion (s : State) :
  Reachable s ->
  (worker_holds (wpc s) = true <-> m_callback_mutex s = Some Worker)
  /\ (forall t, caller_holds (cpcs s t) = true <-> m_callback_mutex s = Some (Caller t))
  /\ (forall t, worker_holds (wpc s) = true -> caller_holds (cpcs s t) = false)
  /\ (forall t1 t2, caller_holds (cpcs s t1) = true -> caller_holds (cpcs s t2) = true ->
                    t1 = t2).
Proof.
  intros Hr. destruct (Inv_mutex_queue_reachable s Hr) as [Hm _].
  pose proof (worker_holds_mutex s Hr) as Hwm.
  pose proof (fun t => caller_holds_mutex s t Hr) as Hcm.
  assert (Hex : forall t, worker_holds (wpc s) = true -> caller_holds (cpcs s t) = false).
  { intros t H. apply Hwm in H. destruct (caller_holds (cpcs s t)) eqn:E; auto.
    apply Hcm in E. congruence. }
  split; [|split; [|split]].
  - split; [exact Hwm|]. intros E. unfold Inv_mutex in Hm. rewrite E in Hm. apply Hm.
  - intros t. split; [apply Hcm|]. intros E. unfold Inv_mutex in Hm. rewrite E in Hm.
    apply Hm.
  - exact Hex.
  - intros t1 t2 H1 H2. apply Hcm in H1, H2. congruence.
Qed.

(** Caller 1 has appended command 1 and still holds the mutex while caller 2
    waits for it at line 117. *)
Lemma callback_mutex_mutual_exclusion_witness :
  let s := exec contended_schedule fresh_state in
  caller_holds (cpcs s 1) = true
  /\ m_callback_mutex s = Some (Caller 1)
  /\ caller_holds (cpcs s 2) = false
  /\ worker_holds (wpc s) = false.
Proof.
  intros s.
  assert (Hr : Reachable s).
  { exists false, false, (mkHost false false false), contended_schedule. reflexivity. }
  destruct (callback_mutex_mutual_exclusion s Hr) as (_ & Hc & _ & _).
  assert (H1 : caller_holds (cpcs s 1) = true) by (vm_compute; reflexivity).
  split; [exact H1|]. split; [apply Hc; exact H1|].
  split; vm_compute; reflexivity.
Defined.

(** X2.  [m_callback_queue] is changed only by the thread that owns
    [m_callback_mutex]: by the worker at the [pop_front] of line 195, or by a
    caller at the [push_back] of line 118. *)
Theorem callback_queue_changes_under_mutex (s : State) (l : label) :
  Reachable s ->
  m_callback_queue (step l s) <> m_callback_queue s ->
  (l = LWorker /\ wpc s = W_pop /\ m_callback_mutex s = Some Worker)
  \/ (exists t f b, l = LStep t /\ cpcs s t = R_push f b
                    /\ m_callback_mutex s = Some (Caller t)).
Proof.
  intros Hr Hne.
  destruct (aborted s) eqn:Hab.
  { unfold step in Hne. rewrite Hab in Hne. now elim Hne. }
  revert Hne.
  step_cases s l t; simpl; intros Hne; try (now elim Hne).
  - left. repeat split. apply (worker_holds_mutex s Hr). now rewrite Epc.
  - right. exists t, f, blocking. repeat split; auto.
    apply (caller_holds_mutex s t Hr). now rewrite Et.
Qed.

(** Caller 1 appends command 1 while it owns the mutex. *)
Lemma callback_queue_changes_under_mutex_witness :
  let s := exec pushing_schedule fresh_state in
  exists f b, cpcs s 1 = R_push f b /\ m_callback_mutex s = Some (Caller 1).
Proof.
  intros s.
  assert (Hr : Reachable s).
  { exists false, false, (mkHost false false false), pushing_schedule. reflexivity. }
  destruct (callback_queue_changes_under_mutex s (LStep 1) Hr)
    as [(H & _)|(t & f & b & Hl & Hpc & Hm)].
  - vm_compute. discriminate.
  - discriminate H.
  - injection Hl as <-. exists f, b. split; assumption.
Defined.

(** ** Preconditions of the queue, thread and mutex operations *)

(** X3.  The queue, thread and mutex operations of
    [StartEmulationThread], [StopEmulationThread], [RunOnEmulationThread]
    and [EmulationThreadEntryPoint] are called within their preconditions,
    in every reachable state.  When the worker stands at lines 194-195 the
    queue is not empty, so [front()] and [pop_front()] are defined.  When the controller stands at line 87 the
    thread object is not joinable, so the assignment does not call
    [std::terminate]; when it stands at a [join] (lines 92 and 105) the
    thread is joinable.  A thread that stands at an [unlock] owns the mutex,
    and a thread that stands at a [lock] does not own it already. *)
Theorem library_preconditions_met (s : State) :
  Reachable s ->
  (wpc s = W_pop -> m_callback_queue s <> [])
  /\ (forall a, cpcs s controller = S_spawn a -> m_emulation_thread_joinable s = false)
  /\ (forall a, cpcs s controller = S_join a \/ cpcs s controller = T_join ->
       m_emulation_thread_joinable s = true)
  /\ (forall c, wpc s = W_unlock_cb c \/ wpc s = W_drain_unlock ->
       m_callback_mutex s = Some Worker)
  /\ (forall t f b, cpcs s t = R_spin_unlock f \/ cpcs s t = R_unlock f b ->
       m_callback_mutex s = Some (Caller t))
  /\ (wpc s = W_lock \/ wpc s = W_relock -> m_callback_mutex s <> Some Worker)
  /\ (forall t f b, cpcs s t = R_lock f b \/ cpcs s t = R_spin_lock f ->
       m_callback_mutex s <> Some (Caller t)).
Proof.
  intros Hr.
  pose proof (Inv_life_reachable s Hr) as (_ & Hc & _).
  destruct (Inv_mutex_queue_reachable s Hr) as [Hm Hq].
  unfold controller_inv in Hc. unfold Inv_queue in Hq. unfold Inv_mutex in Hm.
  split; [|split; [|split; [|split; [|split; [|split]]]]].
  - intros E. now rewrite E in Hq.
  - intros a E. rewrite E in Hc. apply Hc.
  - intros a [E|E]; rewrite E in Hc; apply Hc.
  - intros c E. apply worker_holds_mutex; auto. destruct E as [E|E]; now rewrite E.
  - intros t f b E. apply caller_holds_mutex; auto. destruct E as [E|E]; now rewrite E.
  - intros E Hmx. rewrite Hmx in Hm. destruct Hm as [Hm _].
    destruct E as [E|E]; rewrite E in Hm; discriminate.
  - intros t f b E Hmx. rewrite Hmx in Hm. destruct Hm as (_ & Hm & _).
    destruct E as [E|E]; rewrite E in Hm; discriminate.
Qed.

(** The worker stands at line 194 with command 1 queued. *)
Lemma library_preconditions_met_witness :
  m_callback_queue (exec popping_schedule fresh_state) <> [].
Proof.
  assert (Hr : Reachable (exec popping_schedule fresh_state)).
  { exists false, false, (mkHost false false false), popping_schedule. reflexivity. }
  destruct (library_preconditions_met _ Hr) as (Hpop & _).
  apply Hpop. vm_compute. reflexivity.
Defined.

(** ** After [StopEmulationThread] *)

(** X4.  In every reachable state in which [StopEmulationThread] is about
    to return: the worker function has returned and the thread has been
    joined, [IsEmulationThreadRunning] answers [false], neither the overlay
    context nor the display nor the audio stream is held, the worker does not
    own the mutex; and a following [StartEmulationThread] passes its
    assertion. *)
Theorem StopEmulationThread_postcondition (s : State) :
  Reachable s -> cpcs s controller = T_ret ->
  wpc s = W_exited
  /\ joined_since_spawn (trace s) = true
  /\ IsEmulationThreadRunning s = false
  /\ nothing_held s
  /\ m_callback_mutex s <> Some Worker
  /\ (aborted s = false ->
      forall a,
        cpcs (exec [LStep controller; LCall controller (CallStart a); LStep controller] s)
             controller = S_store_stop a).
Proof.
  intros Hr Hpc. life_facts s Hr.
  pose proof (Inv_join_reachable s Hr) as Hjn. unfold Inv_join in Hjn.
  destruct (Inv_mutex_queue_reachable s Hr) as [Hm _]. unfold Inv_mutex in Hm.
  rewrite Hpc in Hc, Hjn. destruct Hc as ((Hev & _) & Hjoin & Hex).
  rewrite Hex in Hw, Hm.
  repeat split; auto; try apply Hw.
  - intros E. rewrite E in Hm. destruct Hm as [Hm _]. discriminate Hm.
  - intros Hab a. unfold exec. simpl fold_left.
    unfold step at 3. rewrite Hab. unfold caller_step. rewrite Hpc. simpl.
    unfold step at 2. simpl. rewrite Hab. unfold begin_call. simpl.
    unfold step. simpl. rewrite Hab. unfold caller_step. simpl.
    unfold IsEmulationThreadRunning. simpl. rewrite Hjoin. reflexivity.
Qed.

Lemma StopEmulationThread_postcondition_witness :
  let s := exec start_stop_schedule fresh_state in
  wpc s = W_exited /\ nothing_held s /\ IsEmulationThreadRunning s = false.
Proof.
  intros s.
  assert (Hr : Reachable s).
  { exists false, false, (mkHost false false false), start_stop_schedule. reflexivity. }
  destruct (StopEmulationThread_postcondition s Hr) as (H1 & _ & H3 & H4 & _).
  - vm_compute. reflexivity.
  - auto.
Defined.

(** ** After a successful [StartEmulationThread] *)

Lemma Inv_running_reachable : forall s, Reachable s -> Inv_running s.
Proof.
  apply Reachable_invariant.
  - intros. unfold Inv_running. simpl. repeat split; intros; discriminate.
  - intros s l Hr Hab (Hw' & Hc' & Ha'). life_facts s Hr.
    destruct (Inv_stop_reachable s Hr) as [Hst _].
    step_cases0 s l t; try (repeat split; assumption); try not_controller Ht;
      unfold Inv_running, controller in *; simpl in *; rewrite ?Epc, ?Et in *;
      simpl in *;
      (split; [|split]);
      try assumption; try exact I; try discriminate; try congruence;
      try (intros; discriminate);
      try solve [ intuition congruence
                | intros a' r' E'; injection E' as <- <-; intuition congruence
                | destruct (wpc s); simpl in *; intuition congruence ].
    destruct (m_emulation_thread_joinable s);
      [ symmetry; auto | destruct Hj as [E|E]; auto; discriminate E ].
Qed.

(** X5.  In every reachable state in which [StartEmulationThread] is about
    to return [true]: [IsEmulationThreadRunning] answers [true], the worker
    is inside the frame loop and holds the overlay context, the display and
    the audio stream, and the stop request is clear.  More generally, a
    worker whose start-up succeeded stays inside the loop, holding all three,
    for as long as [StopEmulationThread] has not stored its request. *)
Theorem StartEmulationThread_success_postcondition (s : State) :
  Reachable s ->
  (forall a, cpcs s controller = S_ret a true ->
     IsEmulationThreadRunning s = true
     /\ in_frame_loop (wpc s) = true
     /\ all_held s
     /\ m_emulation_thread_stop_request s = false)
  /\ (IsEmulationThreadRunning s = true -> in_startup (wpc s) = false ->
      start_ok (wargs s) = true -> stop_stored_since_spawn (trace s) = false ->
      in_frame_loop (wpc s) = true /\ all_held s).
Proof.
  intros Hr.
  destruct (Inv_running_reachable s Hr) as (Hw' & Hc' & Ha').
  destruct (Inv_stop_reachable s Hr) as [Hst _].
  pose proof (Inv_life_reachable s Hr) as (Hw & Hc & Hj & _).
  assert (Hgen : m_emulation_thread_joinable s = true -> in_startup (wpc s) = false ->
                 start_ok (wargs s) = true -> stop_stored_since_spawn (trace s) = false ->
                 in_frame_loop (wpc s) = true /\ all_held s).
  { intros Hjn Hin Hok Hno. unfold worker_inv in Hw.
    destruct (wpc s); simpl in *; try discriminate Hin;
      try (split; [reflexivity | apply Hw]); try congruence.
    - destruct Hw; congruence.
    - rewrite Hw' in Hno; auto. discriminate. }
  split; [|exact Hgen].
  intros a Hpc. unfold controller_inv in Hc. rewrite Hpc in Hc.
  destruct Hc as ((Hev & Hin) & Hres & Hjn).
  assert (Hno : stop_stored_since_spawn (trace s) = false)
    by (apply Hc'; rewrite Hpc; reflexivity).
  assert (Hok : start_ok (wargs s) = true) by (rewrite (Ha' a true Hpc); auto).
  destruct (Hgen Hjn Hin Hok Hno) as [Hloop Hall].
  repeat split; auto; try apply Hall.
  rewrite (Hst Hjn). exact Hno.
Qed.

(** A start of a valid game, run to the [return] of the call. *)
Lemma StartEmulationThread_success_postcondition_witness :
  let s := exec (start_schedule valid_game) fresh_state in
  IsEmulationThreadRunning s = true /\ in_frame_loop (wpc s) = true /\ all_held s.
Proof.
  intros s.
  assert (Hr : Reachable s).
  { exists false, false, (mkHost false false false), (start_schedule valid_game).
    reflexivity. }
  destruct (StartEmulationThread_success_postcondition s Hr) as [Hret _].
  destruct (Hret valid_game) as (H1 & H2 & H3 & _).
  - vm_compute. reflexivity.
  - auto.
Defined.

(** ** The worker leaves the loop once asked to *)

Lemma repeat_exec_add (l : label) (n m : nat) (s : State) :
  exec (repeat l (n + m)) s = exec (repeat l m) (exec (repeat l n) s).
Proof. now rewrite repeat_app, exec_app. Qed.

(** From the end of a drain the worker needs no other thread: it finishes
    the iteration, tests the flag and releases what it holds. *)
Lemma past_drain_exits (s : State) :
  aborted s = false -> m_emulation_thread_stop_request s = true ->
  past_drain (wpc s) = true ->
  exists n, n <= 14 /\ wpc (exec (repeat LWorker n) s) = W_exited
                      /\ aborted (exec (repeat LWorker n) s) = false.
Proof.
  intros Hab Hstop Hpc.
  destruct s as [sr res ev jn mx q im dp au [sys pa lim] a pc cp ab tr].
  simpl in *. subst ab sr.
  destruct pc; try discriminate Hpc; clear Hpc;
    destruct sys, pa, lim;
    first [ exists 4; split; [lia | split; reflexivity] | exists 5; split; [lia | split; reflexivity]
          | exists 6; split; [lia | split; reflexivity] | exists 7; split; [lia | split; reflexivity]
          | exists 8; split; [lia | split; reflexivity] | exists 9; split; [lia | split; reflexivity]
          | exists 10; split; [lia | split; reflexivity] | exists 11; split; [lia | split; reflexivity]
          | exists 12; split; [lia | split; reflexivity] | exists 13; split; [lia | split; reflexivity]
          | exists 14; split; [lia | split; reflexivity] ].
Qed.

(** One round of the drain: test, pop, unlock, call, lock again. *)
Lemma drain_round (s : State) (c : Command) (rest : list Command) :
  aborted s = false -> wpc s = W_drain_test -> m_callback_queue s = c :: rest ->
  let s' := exec (repeat LWorker 5) s in
  wpc s' = W_drain_test /\ m_callback_queue s' = rest /\ aborted s' = false
  /\ m_emulation_thread_stop_request s' = m_emulation_thread_stop_request s.
Proof.
  intros Hab Hpc Hq.
  destruct s as [sr res ev jn mx q im dp au h a pc cp ab tr].
  simpl in *. subst ab pc q. repeat split.
Qed.

(** The drain ends after five steps for each queued command and one more. *)
Lemma drain_finishes (q : list Command) : forall s,
  aborted s = false -> wpc s = W_drain_test -> m_callback_queue s = q ->
  let s' := exec (repeat LWorker (5 * List.length q + 1)) s in
  wpc s' = W_drain_unlock /\ aborted s' = false
  /\ m_emulation_thread_stop_request s' = m_emulation_thread_stop_request s.
Proof.
  induction q as [|c rest IH]; intros s Hab Hpc Hq.
  - destruct s as [sr res ev jn mx q im dp au h a pc cp ab tr].
    simpl in *. subst ab pc q. repeat split.
  - destruct (drain_round s c rest Hab Hpc Hq) as (Hpc' & Hq' & Hab' & Hst').
    replace (5 * List.length (c :: rest) + 1) with (5 + (5 * List.length rest + 1))
      by (simpl; lia).
    cbv zeta. rewrite repeat_exec_add.
    destruct (IH _ Hab' Hpc' Hq') as (H1 & H2 & H3).
    repeat split; auto. congruence.
Qed.

(** From inside a round the worker is back at the test within four steps,
    provided the mutex is free where it has to lock. *)
Lemma drain_resumes (s : State) :
  aborted s = false -> in_drain (wpc s) = true ->
  (worker_holds (wpc s) = false -> m_callback_mutex s = None) ->
  (wpc s = W_pop -> m_callback_queue s <> []) ->
  exists n, n <= 4
    /\ let s' := exec (repeat LWorker n) s in
       wpc s' = W_drain_test /\ aborted s' = false
       /\ List.length (m_callback_queue s') <= List.length (m_callback_queue s)
       /\ m_emulation_thread_stop_request s' = m_emulation_thread_stop_request s.
Proof.
  intros Hab Hpc Hmx Hq.
  destruct s as [sr res ev jn mx q im dp au h a pc cp ab tr].
  simpl in *. subst ab.
  destruct pc; try discriminate Hpc; clear Hpc; simpl in *.
  - exists 0. repeat split; auto.
  - destruct q as [|c rest]; [now elim Hq|]. exists 4. simpl. repeat split; auto.
  - exists 3. repeat split; auto.
  - rewrite Hmx by reflexivity. exists 2. repeat split; auto.
  - rewrite Hmx by reflexivity. exists 1. repeat split; auto.
Qed.

(** The three statements after the loop. *)
Lemma shutdown_exits (s : State) :
  aborted s = false -> after_signal (wpc s) = true -> in_frame_loop (wpc s) = false ->
  exists n, n <= 3 /\ wpc (exec (repeat LWorker n) s) = W_exited
                     /\ aborted (exec (repeat LWorker n) s) = false.
Proof.
  intros Hab Haf Hloop.
  destruct s as [sr res ev jn mx q im dp au h a pc cp ab tr].
  simpl in *. subst ab.
  destruct pc; try discriminate Haf; try discriminate Hloop;
    first [ exists 0; split; [lia | split; reflexivity]
          | exists 1; split; [lia | split; reflexivity]
          | exists 2; split; [lia | split; reflexivity]
          | exists 3; split; [lia | split; reflexivity] ].
Qed.

Lemma worker_steps_cpcs (n : nat) : forall s t,
  cpcs (exec (repeat LWorker n) s) t = cpcs s t.
Proof.
  induction n as [|n IH]; intros s t; simpl; auto.
  rewrite IH. now destruct (other_step s LWorker t eq_refl).
Qed.

(** X6.  A stop request is honoured without the help of any other thread,
    and the pending [StopEmulationThread] returns.  From every reachable
    state in which the worker has passed its start-up, the stop request is
    set and no caller is inside a locked region, the worker's own steps
    finish the drain in progress (five steps for each queued command),
    complete the iteration, find the request at the loop test and release
    everything: the worker function returns after at most
    [5 * queue length + 20] steps, and nothing is held then.  If the
    controller is waiting in the [join] of line 105, its next step returns
    from the [join], and [IsEmulationThreadRunning] answers [false]. *)
Theorem worker_exits_after_stop_request (s : State) :
  Reachable s -> aborted s = false ->
  after_signal (wpc s) = true ->
  m_emulation_thread_stop_request s = true ->
  (forall t, caller_holds (cpcs s t) = false) ->
  exists n, n <= 5 * List.length (m_callback_queue s) + 20
    /\ let s' := exec (repeat LWorker n) s in
       wpc s' = W_exited
       /\ nothing_held s'
       /\ (cpcs s controller = T_join ->
           cpcs (step (LStep controller) s') controller = T_ret
           /\ IsEmulationThreadRunning (step (LStep controller) s') = false).
Proof.
  intros Hr Hab Haf Hstop Hfree.
  destruct (Inv_mutex_queue_reachable s Hr) as [Hm Hq].
  assert (Hmx : worker_holds (wpc s) = false -> m_callback_mutex s = None).
  { intros Hw. unfold Inv_mutex in Hm.
    destruct (m_callback_mutex s) as [[|t0]|]; auto.
    - destruct Hm as [Hm _]. congruence.
    - destruct Hm as (_ & Hm & _). rewrite Hfree in Hm. discriminate. }
  assert (Hexit : exists n, n <= 5 * List.length (m_callback_queue s) + 20
                    /\ wpc (exec (repeat LWorker n) s) = W_exited
                    /\ aborted (exec (repeat LWorker n) s) = false).
  { destruct (in_frame_loop (wpc s)) eqn:Hloop.
    - assert (Hin : exists k, k <= 4
                /\ let s1 := exec (repeat LWorker k) s in
                   aborted s1 = false /\ m_emulation_thread_stop_request s1 = true
                   /\ (past_drain (wpc s1) = true
                       \/ wpc s1 = W_drain_test
                          /\ List.length (m_callback_queue s1)
                             <= List.length (m_callback_queue s))).
      { destruct (past_drain (wpc s)) eqn:Hpd.
        - exists 0. simpl. auto with arith.
        - destruct (in_drain (wpc s)) eqn:Hd.
          + destruct (drain_resumes s Hab Hd Hmx) as (k & Hk & H1 & H2 & H3 & H4).
            { intros E. unfold Inv_queue in Hq. now rewrite E in Hq. }
            exists k. split; [exact Hk|]. cbv zeta. repeat split; auto. congruence.
          + assert (E : wpc s = W_lock)
              by (destruct (wpc s); simpl in *; congruence).
            exists 1. split; [lia|].
            specialize (Hmx ltac:(rewrite E; reflexivity)).
            destruct s as [sr res ev jn mx q im dp au h a pc cp ab tr].
            simpl in *. subst ab pc mx sr. simpl. auto. }
      destruct Hin as (k & Hk & Hab1 & Hstop1 & [Hpd|[Hpc1 Hlen]]).
      + destruct (past_drain_exits _ Hab1 Hstop1 Hpd) as (m & Hm' & Hex & Habx).
        rewrite <- repeat_exec_add in Hex, Habx.
        exists (k + m). split; [lia|]. split; assumption.
      + destruct (drain_finishes _ _ Hab1 Hpc1 eq_refl) as (Hpc2 & Hab2 & Hstop2).
        rewrite <- repeat_exec_add in Hpc2, Hab2, Hstop2.
        destruct (past_drain_exits _ Hab2) as (m & Hm' & Hex & Habx).
        { congruence. }
        { rewrite Hpc2. reflexivity. }
        rewrite <- repeat_exec_add in Hex, Habx.
        eexists. split; [|split; [exact Hex | exact Habx]]. lia.
    - destruct (shutdown_exits s Hab Haf Hloop) as (n & Hn & Hex & Habx).
      exists n. split; [lia|]. split; assumption. }
  destruct Hexit as (n & Hn & Hex & Habx).
  exists n. split; [exact Hn|]. cbv zeta.
  set (s' := exec (repeat LWorker n) s) in *.
  assert (Hr' : Reachable s') by (apply Reachable_exec; exact Hr).
  pose proof (Inv_life_reachable s' Hr') as (Hw & Hc & _).
  split; [exact Hex|]. split.
  - unfold worker_inv in Hw. rewrite Hex in Hw. exact Hw.
  - intros Hpc.
    assert (Hpc' : cpcs s' controller = T_join)
      by (unfold s'; rewrite worker_steps_cpcs; exact Hpc).
    unfold controller_inv in Hc. rewrite Hpc' in Hc. destruct Hc as [_ Hj].
    unfold step. rewrite Habx. unfold caller_step. rewrite Hpc'.
    unfold StopEmulationThread_step, thread_join. rewrite Hj, Hex.
    unfold IsEmulationThreadRunning. simpl. split; reflexivity.
Qed.

(** The stop request is stored while command 1 is still queued and the
    worker is past its drain: the worker exits on its own, and the
    controller's [join] returns. *)
Lemma worker_exits_after_stop_request_witness :
  let s := exec stop_requested_schedule fresh_state in
  exists n, n <= 25
    /\ wpc (exec (repeat LWorker n) s) = W_exited
    /\ cpcs (step (LStep controller) (exec (repeat LWorker n) s)) controller = T_ret.
Proof.
  intros s.
  assert (Hr : Reachable s).
  { exists false, false, (mkHost false false false), stop_requested_schedule.
    reflexivity. }
  destruct (worker_exits_after_stop_request s Hr) as (n & Hn & Hex & _ & Hret).
  - vm_compute. reflexivity.
  - vm_compute. reflexivity.
  - vm_compute. reflexivity.
  - intros t. destruct t as [|[|t]]; vm_compute; reflexivity.
  - exists n. split; [|split; [exact Hex|]].
    + replace (List.length (m_callback_queue s)) with 1 in Hn by (vm_compute; reflexivity).
      lia.
    + apply Hret. vm_compute. reflexivity.
Defined.

(** ** A blocking call while the worker runs *)

(** Without a stop request the worker comes back to the test of line 191
    within twelve steps of its own. *)
Lemma past_drain_resumes (s : State) :
  aborted s = false -> m_emulation_thread_stop_request s = false ->
  past_drain (wpc s) = true ->
  (wpc s <> W_drain_unlock -> m_callback_mutex s = None) ->
  exists n, n <= 12
    /\ let s' := exec (repeat LWorker n) s in
       wpc s' = W_drain_test /\ aborted s' = false
       /\ m_callback_queue s' = m_callback_queue s
       /\ m_emulation_thread_stop_request s' = false.
Proof.
  intros Hab Hstop Hpc Hmx.
  destruct s as [sr res ev jn mx q im dp au [sys pa lim] a pc cp ab tr].
  simpl in *. subst ab sr.
  destruct pc; try discriminate Hpc; clear Hpc;
    try (specialize (Hmx ltac:(discriminate)); subst mx);
    destruct sys, pa, lim;
    first [ exists 2; split; [lia | repeat split; fail]
          | exists 3; split; [lia | repeat split; fail]
          | exists 4; split; [lia | repeat split; fail]
          | exists 5; split; [lia | repeat split; fail]
          | exists 6; split; [lia | repeat split; fail]
          | exists 7; split; [lia | repeat split; fail]
          | exists 8; split; [lia | repeat split; fail]
          | exists 9; split; [lia | repeat split; fail]
          | exists 10; split; [lia | repeat split; fail]
          | exists 11; split; [lia | repeat split; fail]
          | exists 12; split; [lia | repeat split; fail] ].
Qed.

(** With the mutex free and the queue empty, a caller waiting at line 129
    leaves the loop and reaches its [return] in three steps. *)
Lemma spin_exit (s : State) (t : nat) (f : Command) :
  aborted s = false -> cpcs s t = R_spin_lock f ->
  m_callback_mutex s = None -> m_callback_queue s = [] ->
  cpcs (exec (repeat (LStep t) 3) s) t = R_ret f true true
  /\ aborted (exec (repeat (LStep t) 3) s) = false.
Proof.
  intros Hab Hpc Hmx Hq.
  destruct s as [sr res ev jn mx q im dp au h a pc cp ab tr].
  simpl in *. subst ab mx q.
  unfold exec, step, caller_step. simpl. rewrite Hpc. simpl.
  rewrite !Nat.eqb_refl. simpl. rewrite !Nat.eqb_refl. simpl.
  rewrite !Nat.eqb_refl. auto.
Qed.

(** X7.  A blocking call returns while the worker runs.  From every
    reachable state in which the worker is inside the frame loop, no stop is
    requested, a caller waits at line 129 of a blocking call and no caller
    is inside a locked region: the worker's own steps empty the queue (five
    steps for each queued command, after at most one iteration), and three
    steps of the caller then take it to its [return]. *)
Theorem blocking_call_returns_with_worker (s : State) (t : nat) (f : Command) :
  Reachable s -> aborted s = false ->
  in_frame_loop (wpc s) = true ->
  m_emulation_thread_stop_request s = false ->
  cpcs s t = R_spin_lock f ->
  (forall t', caller_holds (cpcs s t') = false) ->
  exists n, n <= 5 * List.length (m_callback_queue s) + 14
    /\ let s' := exec (repeat LWorker n ++ repeat (LStep t) 3) s in
       cpcs s' t = R_ret f true true /\ aborted s' = false.
Proof.
  intros Hr Hab Hloop Hstop Hpc Hfree.
  destruct (Inv_mutex_queue_reachable s Hr) as [Hm Hq].
  assert (Hmx : worker_holds (wpc s) = false -> m_callback_mutex s = None).
  { intros Hw. unfold Inv_mutex in Hm.
    destruct (m_callback_mutex s) as [[|t0]|]; auto.
    - destruct Hm as [Hm _]. congruence.
    - destruct Hm as (_ & Hm & _). rewrite Hfree in Hm. discriminate. }
  (* the worker reaches the test of line 191 *)
  assert (Hin : exists k, k <= 12
            /\ let s1 := exec (repeat LWorker k) s in
               wpc s1 = W_drain_test /\ aborted s1 = false
               /\ List.length (m_callback_queue s1) <= List.length (m_callback_queue s)
               /\ m_emulation_thread_stop_request s1 = false).
  { destruct (past_drain (wpc s)) eqn:Hpd.
    - destruct (past_drain_resumes s Hab Hstop Hpd) as (k & Hk & H1 & H2 & H3 & H4).
      { intros Hne. apply Hmx. destruct (wpc s); simpl in *; congruence. }
      exists k. split; [exact Hk|]. cbv zeta in *. rewrite H3. auto.
    - destruct (in_drain (wpc s)) eqn:Hd.
      + destruct (drain_resumes s Hab Hd Hmx) as (k & Hk & H1 & H2 & H3 & H4).
        { intros E. unfold Inv_queue in Hq. now rewrite E in Hq. }
        exists k. split; [lia|]. cbv zeta in *. repeat split; auto. congruence.
      + assert (E : wpc s = W_lock)
          by (destruct (wpc s); simpl in *; congruence).
        exists 1. split; [lia|].
        specialize (Hmx ltac:(rewrite E; reflexivity)).
        destruct s as [sr res ev jn mx q im dp au h a pc cp ab tr].
        simpl in *. subst ab pc mx sr. simpl. auto. }
  destruct Hin as (k & Hk & Hpc1 & Hab1 & Hlen & Hstop1).
  (* the drain ends, and the worker unlocks *)
  destruct (drain_finishes _ _ Hab1 Hpc1 eq_refl) as (Hpc2 & Hab2 & _).
  rewrite <- repeat_exec_add in Hpc2, Hab2.
  set (n2 := k + (5 * List.length (m_callback_queue (exec (repeat LWorker k) s)) + 1)) in *.
  set (s2 := exec (repeat LWorker n2) s) in *.
  assert (Hr2 : Reachable s2) by (apply Reachable_exec; exact Hr).
  destruct (Inv_mutex_queue_reachable s2 Hr2) as [_ Hq2].
  unfold Inv_queue in Hq2. rewrite Hpc2 in Hq2.
  set (s3 := exec (repeat LWorker 1) s2).
  assert (E3 : s3 = goto W_simulate (mutex_unlock s2)).
  { unfold s3, exec. simpl. unfold step. rewrite Hab2.
    unfold EmulationThreadEntryPoint_step. now rewrite Hpc2. }
  assert (Hs3 : s3 = exec (repeat LWorker (n2 + 1)) s)
    by (unfold s3, s2; now rewrite repeat_exec_add).
  exists (n2 + 1). split; [unfold n2; lia|].
  cbv zeta. rewrite exec_app, <- Hs3.
  apply spin_exit.
  - rewrite E3. exact Hab2.
  - rewrite Hs3, worker_steps_cpcs. exact Hpc.
  - rewrite E3. reflexivity.
  - rewrite E3. exact Hq2.
Qed.

(** Caller 1 waits at line 129 with command 7 in the queue. *)
Lemma blocking_call_returns_with_worker_witness :
  let s := exec spinning_schedule fresh_state in
  exists n, n <= 19
    /\ cpcs (exec (repeat LWorker n ++ repeat (LStep 1) 3) s) 1
       = R_ret (command 7) true true.
Proof.
  intros s.
  assert (Hr : Reachable s).
  { exists false, false, (mkHost false false false), spinning_schedule. reflexivity. }
  destruct (blocking_call_returns_with_worker s 1 (command 7) Hr) as (n & Hn & Hret & _).
  - vm_compute. reflexivity.
  - vm_compute. reflexivity.
  - vm_compute. reflexivity.
  - vm_compute. reflexivity.
  - intros t. destruct t as [|[|t]]; vm_compute; reflexivity.
  - exists n. split; [|exact Hret].
    replace (List.length (m_callback_queue s)) with 1 in Hn by (vm_compute; reflexivity).
    lia.
Defined.

(** ** What the return of a blocking call tells *)

Lemma appended_ids_app (b c : list event) :
  appended_ids (b ++ c) = appended_ids c ++ appended_ids b.
Proof.
  induction b as [|e b IH]; simpl.
  - now rewrite app_nil_r.
  - destruct e; auto. rewrite IH. now rewrite app_assoc.
Qed.

Lemma appended_in_call_In (t id : nat) (tr : list event) :
  appended_in_call t id tr -> In id (appended_ids tr).
Proof.
  intros (b & c & -> & _). rewrite appended_ids_app. simpl.
  apply in_or_app. left. apply in_or_app. right. left. reflexivity.
Qed.

(** What the worker has taken only grows. *)
Lemma taken_ids_step (s : State) (l : label) (id : nat) :
  Reachable s -> In id (taken_ids s) -> In id (taken_ids (step l s)).
Proof.
  intros Hr Hin. destruct (aborted s) eqn:Hab.
  { unfold step. now rewrite Hab. }
  pose proof (Inv_life_reachable s Hr) as (_ & _ & Hj & _).
  unfold taken_ids in *.
  step_cases s l t; simpl; rewrite ?Epc in *; simpl in *; rewrite ?app_nil_r in *;
    try assumption;
    try (apply in_or_app; left; assumption);
    try (destruct Hj as [E|E]; auto; rewrite E in Hin; simpl in Hin;
         rewrite ?app_nil_r in Hin; assumption);
    try (match goal with H : wpc s = _ |- _ => rewrite H; assumption end).
Qed.

(** A caller gets past the loop of a blocking call only by finding the
    queue empty at line 125. *)
Lemma leaves_spin (s : State) (l : label) (t : nat) (f : Command) :
  aborted s = false ->
  cpcs (step l s) t = R_unlock f true \/ cpcs (step l s) t = R_ret f true true ->
  (cpcs s t = R_unlock f true \/ cpcs s t = R_ret f true true)
  \/ (cpcs s t = R_test f /\ m_callback_queue s = [] /\ l = LStep t).
Proof.
  intros Hab H.
  destruct (moves t l) eqn:Hmv.
  - destruct l as [|t0 c|t0]; simpl in Hmv; try discriminate;
      apply Nat.eqb_eq in Hmv; subst t0; revert H; unfold step; rewrite Hab.
    + unfold begin_call. destruct (cpcs s t) eqn:Et; try (rewrite Et; auto; fail).
      destruct c; try destruct (Nat.eqb t controller);
        unfold_ops; simpl; rewrite ?Nat.eqb_refl, ?Et;
        intros [H|H]; discriminate H.
    + unfold caller_step. destruct (cpcs s t) eqn:Et; try (rewrite Et; auto; fail);
        unfold StartEmulationThread_step, StopEmulationThread_step,
          RunOnEmulationThread_step;
        unfold_ops; simpl; repeat (break_if; simpl);
        rewrite ?Nat.eqb_refl, ?Et; simpl;
        intros [H|H]; try discriminate H;
        inversion H; subst;
        first [ left; auto; fail | right; repeat split; auto ].
  - destruct (other_step s l t Hmv) as [Hpc _]. rewrite Hpc in H. auto.
Qed.

Lemma Inv_taken_reachable : forall s, Reachable s -> Inv_taken s.
Proof.
  apply Reachable_invariant.
  - intros b1 b2 h t f [H|H]; discriminate H.
  - intros s l Hr Hab IH t f H.
    destruct (leaves_spin s l t f Hab H) as [Hold|(Hpc & Hq & ->)].
    + apply taken_ids_step; auto. now apply (IH t f).
    + pose proof (Inv_block_reachable s Hr t) as Hb. rewrite Hpc in Hb. simpl in Hb.
      apply appended_in_call_In in Hb.
      pose proof (Inv_fifo_reachable s Hr) as Hf. unfold Inv_fifo in Hf.
      rewrite Hf, Hq in Hb. simpl in Hb. rewrite app_nil_r in Hb.
      apply taken_ids_step; auto.
Qed.

(** X8.  In every reachable state in which a call of
    [RunOnEmulationThread] with [blocking = true] that went through the
    queue is about to return, the worker has taken the entry of this call
    out of the queue: it has run it, or it holds it and has not run it yet.
    The call waits for the queue to be empty, not for its entry to have
    run. *)
Theorem blocking_return_means_entry_taken (s : State) (t : nat) (f : Command) :
  Reachable s ->
  cpcs s t = R_ret f true true ->
  In (cmd_id f) (executed_ids (trace s) ++ in_flight (wpc s)).
Proof.
  intros Hr Hpc. apply (Inv_taken_reachable s Hr t f). now right.
Qed.

(** The call of caller 1 is about to return while the worker still holds
    command 7 and has run nothing. *)
Lemma blocking_return_means_entry_taken_witness :
  let s := exec early_return_schedule fresh_state in
  In 7 (executed_ids (trace s) ++ in_flight (wpc s))
  /\ executed_ids (trace s) = []
  /\ wpc s = W_call (command 7).
Proof.
  intros s.
  assert (Hr : Reachable s).
  { exists false, false, (mkHost false false false), early_return_schedule.
    reflexivity. }
  split; [|split; vm_compute; reflexivity].
  apply (blocking_return_means_entry_taken s 1 (command 7) Hr).
  vm_compute. reflexivity.
Defined.

(** ** A blocking call after the worker has left *)

(** One step that is not a call of [StartEmulationThread]. *)
Lemma spin_step (s : State) (l : label) (t : nat) :
  Reachable s -> is_start l = false ->
  wpc s = W_exited -> m_callback_queue s <> [] -> in_spin (cpcs s t) = true ->
  in_start_call (cpcs s controller) = false ->
  wpc (step l s) = W_exited /\ m_callback_queue (step l s) <> []
  /\ in_spin (cpcs (step l s) t) = true
  /\ in_start_call (cpcs (step l s) controller) = false.
Proof.
  intros Hr Hl Hpc Hq Hsp Hst.
  destruct (aborted s) eqn:Hab.
  { unfold step. rewrite Hab. auto. }
  pose proof (Inv_life_reachable s Hr) as (_ & _ & _ & Ht).
  assert (Happ : forall f, m_callback_queue s ++ [f] <> []).
  { intros f E. apply app_eq_nil in E. destruct E; discriminate. }
  step_cases0 s l t0; try discriminate Hl; try discriminate Hpc;
    try not_controller Ht; unfold controller in *;
    simpl in *; rewrite ?Et in *; try discriminate Hst; auto;
    try congruence;
    repeat split; auto;
    try (destruct (Nat.eqb_spec t 0); subst; rewrite ?Et in *; simpl in *; auto;
         congruence);
    try (destruct (Nat.eqb_spec t (S t0)); subst; rewrite ?Et in *; simpl in *; auto;
         congruence).
Qed.

(** X9.  A blocking call does not return once the worker has left.  In a
    reachable state in which the worker function has returned, the queue is
    not empty and a caller is inside the loop of lines 123-130, the caller
    stays inside the loop, and the queue stays non-empty, along every
    schedule in which [StartEmulationThread] is not called: nothing but a
    worker empties the queue, and the loop leaves only on an empty queue. *)
Theorem blocking_call_spins_without_worker (sched : list label) : forall (s : State) (t : nat),
  Reachable s ->
  wpc s = W_exited -> m_callback_queue s <> [] -> in_spin (cpcs s t) = true ->
  in_start_call (cpcs s controller) = false ->
  forallb (fun l => negb (is_start l)) sched = true ->
  in_spin (cpcs (exec sched s) t) = true
  /\ m_callback_queue (exec sched s) <> []
  /\ wpc (exec sched s) = W_exited.
Proof.
  induction sched as [|l sched IH]; intros s t Hr Hpc Hq Hsp Hst Hs.
  - simpl. auto.
  - simpl in Hs. apply andb_prop in Hs as [Hl Hs]. apply negb_true_iff in Hl.
    destruct (spin_step s l t Hr Hl Hpc Hq Hsp Hst) as (H1 & H2 & H3 & H4).
    simpl. apply IH; auto. now apply Reachable_step.
Qed.

(** Command 7 is appended after the worker's last drain; the worker
    returns; whatever the caller and the controller do then, the caller
    stays in its loop. *)
Lemma blocking_call_spins_without_worker_witness :
  let s := exec late_blocking_schedule fresh_state in
  let s' := exec (repeat (LStep 1) 7 ++ [LStep controller; LStep controller]
                  ++ repeat (LStep 1) 7) s in
  in_spin (cpcs s' 1) = true /\ wpc s' = W_exited.
Proof.
  intros s s'.
  assert (Hr : Reachable s).
  { exists false, false, (mkHost false false false), late_blocking_schedule.
    reflexivity. }
  destruct (blocking_call_spins_without_worker
              (repeat (LStep 1) 7 ++ [LStep controller; LStep controller]
               ++ repeat (LStep 1) 7) s 1 Hr) as (H1 & _ & H3).
  - vm_compute. reflexivity.
  - vm_compute. discriminate.
  - vm_compute. reflexivity.
  - vm_compute. reflexivity.
  - reflexivity.
  - split; assumption.
Defined.

(** ** Guarding the life-cycle calls *)

(** A step of the worker or of a submitting thread, while the controller
    is outside every call: the thread handle is not touched, no assertion of
    the four functions fails, and the controller stays where it is. *)
Lemma bystander_step (s : State) (l : label) :
  Reachable s -> aborted s = false -> cpcs s controller = C_idle ->
  moves controller l = false ->
  IsEmulationThreadRunning (step l s) = IsEmulationThreadRunning s
  /\ aborted (step l s) = false
  /\ cpcs (step l s) controller = C_idle.
Proof.
  intros Hr Hab Hpc Hm.
  pose proof (Inv_life_reachable s Hr) as (_ & _ & _ & Ht).
  destruct (Inv_mutex_queue_reachable s Hr) as [_ Hq]. unfold Inv_queue in Hq.
  unfold IsEmulationThreadRunning.
  step_cases0 s l t; simpl in *; try discriminate Hm; try not_controller Ht;
    rewrite ?Epc in *; auto; try congruence.
Qed.

Lemma bystander_steps (others : list label) : forall s,
  Reachable s -> aborted s = false -> cpcs s controller = C_idle ->
  forallb (fun l => negb (moves controller l)) others = true ->
  IsEmulationThreadRunning (exec others s) = IsEmulationThreadRunning s
  /\ aborted (exec others s) = false
  /\ cpcs (exec others s) controller = C_idle.
Proof.
  induction others as [|l others IH]; intros s Hr Hab Hpc Hall.
  - simpl. auto.
  - simpl in Hall. apply andb_prop in Hall as [Hl Hall]. apply negb_true_iff in Hl.
    destruct (bystander_step s l Hr Hab Hpc Hl) as (H1 & H2 & H3).
    destruct (IH (step l s) (Reachable_step s l Hr) H2 H3 Hall) as (H4 & H5 & H6).
    simpl. repeat split; congruence.
Qed.

(** X10.  The answer of [IsEmulationThreadRunning] stays valid for the
    controller until its next call.  From a reachable state in which the
    controller is outside every call, whatever the worker and the submitting
    threads do next, the answer does not change: only the controller's own
    statements (lines 87, 92 and 105) change the thread handle.  Hence, when
    the controller's next call is reached, a [StartEmulationThread] that
    follows the answer [false] finds the condition of line 83 true, and a
    [StopEmulationThread] that follows the answer [true] finds the condition
    of line 102 true. *)
Theorem guarded_lifecycle_calls_pass (s : State) (others : list label) :
  Reachable s -> cpcs s controller = C_idle ->
  forallb (fun l => negb (moves controller l)) others = true ->
  IsEmulationThreadRunning (exec others s) = IsEmulationThreadRunning s
  /\ cpcs (exec others s) controller = C_idle
  /\ (aborted (exec others s) = false ->
      (IsEmulationThreadRunning s = false -> forall a,
         cpcs (exec (others ++ [LCall controller (CallStart a); LStep controller]) s)
              controller = S_store_stop a)
      /\ (IsEmulationThreadRunning s = true ->
          cpcs (exec (others ++ [LCall controller CallStop; LStep controller]) s)
               controller = T_store)).
Proof.
  intros Hr Hpc Hall.
  destruct (aborted s) eqn:Hab.
  { rewrite (aborted_exec s others Hab).
    split; [reflexivity|]. split; [exact Hpc|]. intros E. congruence. }
  destruct (bystander_steps others s Hr Hab Hpc Hall) as (Hrun & Hab1 & Hpc1).
  split; [exact Hrun|]. split; [exact Hpc1|]. intros _.
  unfold IsEmulationThreadRunning in *.
  split; intros Hans; [intros a|]; rewrite exec_app;
    set (s1 := exec others s) in *; rewrite Hans in Hrun.
  - assert (E1 : step (LCall controller (CallStart a)) s1
                 = cgoto controller (S_assert a) (emit EvStartCall s1)).
    { unfold step. rewrite Hab1. unfold begin_call. rewrite Hpc1. reflexivity. }
    unfold exec. simpl fold_left. rewrite E1.
    unfold step. simpl aborted. rewrite Hab1.
    unfold caller_step. rewrite cgoto_same.
    unfold StartEmulationThread_step, IsEmulationThreadRunning.
    simpl m_emulation_thread_joinable. rewrite Hrun.
    apply cgoto_same.
  - assert (E1 : step (LCall controller CallStop) s1
                 = cgoto controller T_assert (emit EvStopCall s1)).
    { unfold step. rewrite Hab1. unfold begin_call. rewrite Hpc1. reflexivity. }
    unfold exec. simpl fold_left. rewrite E1.
    unfold step. simpl aborted. rewrite Hab1.
    unfold caller_step. rewrite cgoto_same.
    unfold StopEmulationThread_step, IsEmulationThreadRunning.
    simpl m_emulation_thread_joinable. rewrite Hrun.
    apply cgoto_same.
Qed.

(** The thread is running; caller 1 submits a command and the worker goes
    on; the answer is still [true] and the controller's
    [StopEmulationThread] then passes line 102. *)
Lemma guarded_lifecycle_calls_pass_witness :
  let s := exec (running_schedule ++ [LStep controller]) fresh_state in
  let others := submit 1 1 ++ repeat LWorker 3 in
  IsEmulationThreadRunning (exec others s) = true
  /\ cpcs (exec (others ++ [LCall controller CallStop; LStep controller]) s)
          controller = T_store.
Proof.
  intros s others.
  assert (Hr : Reachable s).
  { exists false, false, (mkHost false false false),
      (running_schedule ++ [LStep controller]). reflexivity. }
  destruct (guarded_lifecycle_calls_pass s others Hr) as (Hans & _ & Hcall).
  - vm_compute. reflexivity.
  - vm_compute. reflexivity.
  - split.
    + rewrite Hans. vm_compute. reflexivity.
    + apply Hcall; vm_compute; reflexivity.
Defined.

(** ** How long the mutex is held *)

(** X19.  No thread keeps [m_callback_mutex] for more than three of its
    own statements, and none waits for another thread while it holds it.
    From every reachable state in which the worker is inside a locked region,
    at most three steps of the worker release the mutex, and the worker runs
    no command in between; from every reachable state in which a caller is
    inside a locked region, at most three steps of that caller release it. *)
Theorem callback_mutex_released_promptly (s : State) :
  Reachable s -> aborted s = false ->
  (worker_holds (wpc s) = true ->
   exists n, n <= 3
     /\ m_callback_mutex (exec (repeat LWorker n) s) = None
     /\ executed_ids (trace (exec (repeat LWorker n) s)) = executed_ids (trace s))
  /\ (forall t, caller_holds (cpcs s t) = true ->
      exists n, n <= 3 /\ m_callback_mutex (exec (repeat (LStep t) n) s) = None).
Proof.
  intros Hr Hab.
  destruct (Inv_mutex_queue_reachable s Hr) as [_ Hq]. unfold Inv_queue in Hq.
  destruct s as [sr res ev jn mx q im dp au h a pc cp ab tr].
  simpl in *. subst ab. split.
  - intros Hh. destruct pc; try discriminate Hh; clear Hh.
    + destruct q as [|c rest].
      * exists 2. split; [lia | split; reflexivity].
      * exists 3. split; [lia | split; reflexivity].
    + destruct q as [|c rest]; [now elim Hq|].
      exists 2. split; [lia | split; reflexivity].
    + exists 1. split; [lia | split; reflexivity].
    + exists 1. split; [lia | split; reflexivity].
  - intros t Hh. clear Hq.
    destruct (cp t) eqn:Hpc; try discriminate Hh; clear Hh.
    + destruct blocking.
      * exists 3. split; [lia|].
        unfold exec, step, caller_step. simpl. rewrite Hpc. simpl.
        rewrite !Nat.eqb_refl. simpl.
        destruct (q ++ [f]) eqn:Eq;
          [apply app_eq_nil in Eq; destruct Eq; discriminate|].
        simpl. rewrite !Nat.eqb_refl. reflexivity.
      * exists 2. split; [lia|].
        unfold exec, step, caller_step. simpl. rewrite Hpc. simpl.
        rewrite !Nat.eqb_refl. reflexivity.
    + exists 2. split; [lia|].
      unfold exec, step, caller_step. simpl. rewrite Hpc. simpl.
      destruct q; simpl; rewrite !Nat.eqb_refl; reflexivity.
    + exists 1. split; [lia|].
      unfold exec, step, caller_step. simpl. rewrite Hpc. reflexivity.
    + exists 1. split; [lia|].
      unfold exec, step, caller_step. simpl. rewrite Hpc. reflexivity.
Qed.

(** Caller 1 has appended command 1 and holds the mutex. *)
Lemma callback_mutex_released_promptly_witness :
  let s := exec contended_schedule fresh_state in
  exists n, n <= 3 /\ m_callback_mutex (exec (repeat (LStep 1) n) s) = None.
Proof.
  intros s.
  assert (Hr : Reachable s).
  { exists false, false, (mkHost false false false), contended_schedule. reflexivity. }
  destruct (callback_mutex_released_promptly s Hr) as [_ Hc].
  - vm_compute. reflexivity.
  - apply (Hc 1). vm_compute. reflexivity.
Defined.

(** ** Absence of deadlock *)

(** The worker can move unless it is outside its function or waits for
    the mutex. *)
Lemma worker_enabled (s : State) :
  Reachable s -> aborted s = false ->
  wpc s <> W_idle -> wpc s <> W_exited ->
  (worker_holds (wpc s) = false -> in_drain (wpc s) = true \/ wpc s = W_lock ->
   m_callback_mutex s = None) ->
  enabled LWorker s.
Proof.
  intros Hr Hab Hidle Hex Hmx E. unfold enabled in *.
  destruct (Inv_mutex_queue_reachable s Hr) as [_ Hq]. unfold Inv_queue in Hq.
  apply (f_equal wpc) in E. revert E. unfold step. rewrite Hab.
  unfold EmulationThreadEntryPoint_step.
  destruct (wpc s) eqn:Epc; try congruence; unfold_ops; simpl;
    try (specialize (Hmx eq_refl ltac:(simpl; auto)));
    unfold mutex_lock; rewrite ?Hmx; simpl;
    repeat (break_if; simpl); try discriminate; try congruence.
Qed.

(** A caller inside a call can move unless it waits for the event, for the
    worker to return, or for the mutex. *)
Lemma caller_enabled (s : State) (t : nat) :
  aborted s = false -> cpcs s t <> C_idle ->
  (forall a, cpcs s t = S_wait a -> m_emulation_thread_started s = true) ->
  (forall a, cpcs s t = S_join a \/ cpcs s t = T_join ->
             m_emulation_thread_joinable s = true /\ wpc s = W_exited) ->
  (forall f b, cpcs s t = R_lock f b \/ cpcs s t = R_spin_lock f ->
               m_callback_mutex s = None) ->
  enabled (LStep t) s.
Proof.
  intros Hab Hidle Hwait Hjoin Hlock E. unfold enabled in *.
  assert (Ea : aborted (step (LStep t) s) = false) by (rewrite E; exact Hab).
  apply (f_equal (fun s => cpcs s t)) in E. revert E Ea.
  unfold step. rewrite Hab. unfold caller_step.
  destruct (cpcs s t) eqn:Et; try congruence;
    unfold StartEmulationThread_step, StopEmulationThread_step,
      RunOnEmulationThread_step;
    try (rewrite (Hwait _ eq_refl) || fail);
    unfold_ops; unfold Event_Wait, thread_join, mutex_lock;
    try (rewrite (Hwait _ eq_refl));
    try (destruct (Hjoin a (or_introl eq_refl)) as [-> ->]);
    try (destruct (Hjoin no_args (or_intror eq_refl)) as [-> ->]);
    try (rewrite (Hlock _ _ (or_introl eq_refl)));
    try (rewrite (Hlock f true (or_intror eq_refl)));
    simpl; rewrite ?Nat.eqb_refl;
    repeat (break_if; simpl; rewrite ?Nat.eqb_refl);
    try discriminate; try congruence.
Qed.

(** X20.  The worker, the controller and the submitting threads never
    deadlock.  In every reachable state that has not aborted and in which
    some thread is inside the code of this file, a thread that is inside the
    code can execute its next statement: the worker, or a caller that is
    inside a call (a thread that enters a new call does not count).  A thread
    that waits for the mutex waits for a holder that can move, the controller
    waits for the ready event only while the worker is in its start-up, which
    never blocks, and it waits in [join] only for a worker that can move or
    has returned.  A failing assertion counts as a statement, and a caller
    that spins in the loop of lines 123-130 counts as moving. *)
Theorem no_deadlock (s : State) :
  Reachable s -> aborted s = false -> active s ->
  can_move s.
Proof.
  intros Hr Hab Hact. unfold can_move.
  pose proof (Inv_life_reachable s Hr) as (Hw & Hc & Hj & Ht).
  destruct (Inv_mutex_queue_reachable s Hr) as [Hm _].
  (* whoever holds the mutex can move *)
  assert (Hholder : forall t0, m_callback_mutex s = Some (Caller t0) ->
                               cpcs s t0 <> C_idle /\ enabled (LStep t0) s).
  { intros t0 E0. unfold Inv_mutex in Hm. rewrite E0 in Hm. destruct Hm as (_ & Hh & _).
    assert (Hin : cpcs s t0 <> C_idle) by (intros E; rewrite E in Hh; discriminate).
    split; [exact Hin|].
    apply caller_enabled; auto.
    - intros a E. rewrite E in Hh. discriminate.
    - intros a [E|E]; rewrite E in Hh; discriminate.
    - intros f b [E|E]; rewrite E in Hh; discriminate. }
  assert (Hworker : wpc s <> W_idle -> wpc s <> W_exited ->
                    enabled LWorker s
                    \/ exists t, cpcs s t <> C_idle /\ enabled (LStep t) s).
  { intros Hidle Hex.
    destruct (m_callback_mutex s) as [[|t0]|] eqn:Emx.
    - left. apply worker_enabled; auto.
      intros Hh _. unfold Inv_mutex in Hm. rewrite Emx in Hm. destruct Hm; congruence.
    - right. exists t0. now apply Hholder.
    - left. apply worker_enabled; auto. }
  destruct (wpc s) eqn:Epc;
    try (apply Hworker; discriminate).
  all: destruct Hact as [[H1 H2]|[t Hpc]]; try congruence.
  all: destruct (m_callback_mutex s) as [[|t0]|] eqn:Emx;
    try (right; exists t0; now apply Hholder);
    try (unfold Inv_mutex in Hm; rewrite Emx, Epc in Hm; destruct Hm; discriminate).
  all: right; exists t; split; [exact Hpc|]; apply caller_enabled; auto.
  all: try (intros a Ea;
            assert (t = controller)
              by (apply (lifecycle_is_controller s t Hr); rewrite Ea; reflexivity);
            subst t; unfold controller_inv in Hc; rewrite Ea, Epc in Hc;
            destruct (m_emulation_thread_started s); auto;
            destruct Hc as (_ & _ & Hc); discriminate Hc).
  all: intros a Ea;
       assert (t = controller)
         by (apply (lifecycle_is_controller s t Hr);
             destruct Ea as [Ea|Ea]; rewrite Ea; reflexivity);
       subst t; unfold controller_inv in Hc;
       unfold worker_inv in Hw; rewrite Epc in Hw;
       destruct Ea as [Ea|Ea]; rewrite Ea in Hc; intuition congruence.
Qed.

(** Caller 2 waits for the mutex that caller 1 holds: some thread inside
    the code can move. *)
Lemma no_deadlock_witness :
  can_move (exec contended_schedule fresh_state).
Proof.
  apply no_deadlock.
  - exists false, false, (mkHost false false false), contended_schedule. reflexivity.
  - vm_compute. reflexivity.
  - right. exists 1. vm_compute. discriminate.
Defined.

(** ** The overlay frame protocol *)

Lemma Inv_imgui_reachable : forall s, Reachable s -> Inv_imgui s.
Proof.
  apply Reachable_invariant.
  - intros. exact I.
  - intros s l Hr Hab Hi.
    step_cases s l t; try assumption;
      unfold Inv_imgui, frame_open in *; simpl in *; rewrite ?Epc in *; simpl in *;
      try assumption; try exact I; auto;
      try solve [destruct (wpc s); simpl in *; auto].
Qed.

Lemma emits_draw_imgui (s : State) (l : label) :
  aborted s = false -> trace (step l s) = EvDrawImGui :: trace s ->
  l = LWorker /\ wpc s = W_draw_imgui.
Proof.
  intros Hab. step_cases s l t; simpl; emitter; auto.
Qed.

Lemma emits_imgui_render (s : State) (l : label) :
  aborted s = false -> trace (step l s) = EvImGuiRender :: trace s ->
  l = LWorker /\ wpc s = W_imgui_render.
Proof.
  intros Hab. step_cases s l t; simpl; emitter; auto.
Qed.

Lemma emits_display_render (s : State) (l : label) :
  aborted s = false -> trace (step l s) = EvDisplayRender :: trace s ->
  l = LWorker /\ wpc s = W_display_render.
Proof.
  intros Hab. step_cases s l t; simpl; emitter; auto.
Qed.

(** X11.  The worker uses the overlay library and the display as their
    protocols demand, in every interleaving.  Whenever [DrawImGui] is called
    (line 208), a frame is open: the newest overlay call before it is a
    [NewFrame], that of line 183 in the first iteration and that of line 216
    afterwards.  Whenever [ImGui::Render] is called at line 213, the newest
    overlay call before it is the [DrawImGui] of the same iteration.
    Whenever [m_display->Render()] is called (line 214), the display and the
    overlay context exist. *)
Theorem overlay_calls_inside_frame (s : State) :
  Reachable s ->
  (forall post pre, trace s = post ++ EvDrawImGui :: pre -> frame_open pre)
  /\ (forall post pre, trace s = post ++ EvImGuiRender :: pre ->
        last_imgui_event pre = Some EvDrawImGui)
  /\ (forall post pre, trace s = post ++ EvDisplayRender :: pre ->
        holds_since_spawn Display pre = true
        /\ holds_since_spawn ImGuiContext pre = true)
  /\ (aborted s = false -> wpc s = W_display_render ->
      m_display s = true /\ imgui_context s = true).
Proof.
  intros Hr. split; [|split; [|split]].
  - revert s Hr. apply history_invariant.
    intros s l Hr Hab Hemit.
    destruct (emits_draw_imgui s l Hab Hemit) as [_ Hpc].
    pose proof (Inv_imgui_reachable s Hr) as Hi. unfold Inv_imgui in Hi.
    now rewrite Hpc in Hi.
  - revert s Hr. apply history_invariant.
    intros s l Hr Hab Hemit.
    destruct (emits_imgui_render s l Hab Hemit) as [_ Hpc].
    pose proof (Inv_imgui_reachable s Hr) as Hi. unfold Inv_imgui in Hi.
    now rewrite Hpc in Hi.
  - revert s Hr. apply history_invariant.
    intros s l Hr Hab Hemit.
    destruct (emits_display_render s l Hab Hemit) as [_ Hpc].
    destruct (Inv_signal_reachable s Hr) as (Hh & _).
    pose proof (Inv_life_reachable s Hr) as (Hw & _).
    unfold worker_inv in Hw. rewrite Hpc in Hw. destruct Hw as ((Hi & Hd & _) & _).
    rewrite (Hh Display), (Hh ImGuiContext). simpl. auto.
  - intros _ Hpc.
    pose proof (Inv_life_reachable s Hr) as (Hw & _).
    unfold worker_inv in Hw. rewrite Hpc in Hw. destruct Hw as ((Hi & Hd & _) & _).
    auto.
Qed.

(** The first [DrawImGui] of a started worker: the frame was opened at
    line 183. *)
Lemma overlay_calls_inside_frame_witness :
  let s := exec (running_schedule ++ repeat LWorker 2) fresh_state in
  frame_open (tl (trace s)).
Proof.
  intros s.
  assert (Hr : Reachable s).
  { exists false, false, (mkHost false false false),
      (running_schedule ++ repeat LWorker 2). reflexivity. }
  destruct (overlay_calls_inside_frame s Hr) as (Hdraw & _).
  apply (Hdraw []). vm_compute. reflexivity.
Defined.

(** ** [SurfaceChanged] outside the life of the worker *)

(** X12.  In every reachable state in which no emulation thread is running,
    [m_display] is null; [SurfaceChanged], which dereferences [m_display]
    without a test, has no display to act on there.  This is the state in
    which [RunOnEmulationThread] runs a command on the calling thread. *)
Theorem SurfaceChanged_needs_running_thread (s : State) :
  Reachable s -> IsEmulationThreadRunning s = false ->
  m_display s = false
  /\ forall d window, SurfaceChanged (display_of s d) window = None.
Proof.
  intros Hr Hrun.
  pose proof (Inv_life_reachable s Hr) as (Hw & _ & Hj & _).
  assert (Hd : m_display s = false).
  { unfold worker_inv in Hw. destruct (Hj Hrun) as [E|E]; rewrite E in Hw; apply Hw. }
  split; [exact Hd|]. intros d window. unfold display_of. now rewrite Hd.
Qed.

Lemma SurfaceChanged_needs_running_thread_witness :
  let s := exec start_stop_schedule fresh_state in
  SurfaceChanged (display_of s (mkHostDisplay 4096)) 4096 = None.
Proof.
  intros s.
  assert (Hr : Reachable s).
  { exists false, false, (mkHost false false false), start_stop_schedule. reflexivity. }
  destruct (SurfaceChanged_needs_running_thread s Hr) as [_ H].
  - vm_compute. reflexivity.
  - apply H.
Defined.

(** ** Unwinding a failed start *)

Lemma Inv_unwind_reachable : forall s, Reachable s -> Inv_unwind s.
Proof.
  apply Reachable_invariant.
  - intros. exact I.
  - intros s l Hr Hab IH. life_facts s Hr. clear Hc Ht.
    step_cases s l t; try assumption;
      unfold Inv_unwind, unwound, acquired_before_failure in *;
      simpl in *; rewrite ?Epc in *; simpl in *;
      try assumption; try exact I;
      repeat match goal with
             | H : _ /\ _ |- _ => destruct H
             | H : andb _ _ = true |- _ => apply andb_prop in H; destruct H
             end;
      try match goal with H : acquired_since_spawn _ = _ |- _ => rewrite ?H end;
      try match goal with H : released_since_spawn _ = _ |- _ => rewrite ?H end;
      try solve [ intuition congruence
                | destruct (audio_created (wargs s)); simpl; intuition congruence
                | destruct IH as [(Hd & Ea & Er)|(Hd & Ea & Er)]; rewrite Ea, Er;
                  [left|right]; auto
                | intros; exfalso; unfold start_ok, display_ok, audio_ok, boot_ok in *;
                  intuition congruence ].
Qed.

(** X13.  A failed start unwinds completely and in reverse order, in
    every interleaving.  When the worker function has returned after a
    start-up that failed: if the display could not be created, the overlay
    context alone was acquired and it has been released; otherwise the
    overlay context and the display, and the audio stream if it was created,
    were acquired, and lines 157-159 (171-173) have released audio stream,
    display and overlay context in this order.  In all cases the resources
    that were acquired have been released in the reverse of the order of
    their acquisition. *)
Theorem failed_start_unwinds_in_reverse (s : State) :
  Reachable s -> wpc s = W_exited -> start_ok (wargs s) = false ->
  unwound s
  /\ filter (fun r => existsb (resource_eqb r) (acquired_since_spawn (trace s)))
            (released_since_spawn (trace s))
     = rev (acquired_since_spawn (trace s)).
Proof.
  intros Hr Hpc Hfail.
  pose proof (Inv_unwind_reachable s Hr) as H. unfold Inv_unwind in H.
  rewrite Hpc in H. specialize (H Hfail). split; [exact H|].
  destruct H as [(_ & -> & ->)|(_ & -> & ->)]; [reflexivity|].
  unfold acquired_before_failure. destruct (audio_created (wargs s)); reflexivity.
Qed.

(** A start whose audio stream cannot be created. *)
Lemma failed_start_unwinds_in_reverse_witness :
  let s := exec (start_schedule no_audio_game) fresh_state in
  acquired_since_spawn (trace s) = [ImGuiContext; Display]
  /\ released_since_spawn (trace s) = [AudioStream; Display; ImGuiContext].
Proof.
  intros s.
  assert (Hr : Reachable s).
  { exists false, false, (mkHost false false false), (start_schedule no_audio_game).
    reflexivity. }
  destruct (failed_start_unwinds_in_reverse s Hr) as [[(Hd & _)|(_ & Ha & Hrel)] _].
  - vm_compute. reflexivity.
  - vm_compute. reflexivity.
  - vm_compute in Hd. discriminate Hd.
  - split; [exact Ha | exact Hrel].
Defined.

(** ** Creation and destruction of the three resources *)

Lemma emits_create_imgui (s : State) (l : label) :
  aborted s = false -> trace (step l s) = EvCreateImGui :: trace s ->
  wpc s = W_create_imgui.
Proof.
  intros Hab. step_cases s l t; simpl; emitter; auto.
Qed.

Lemma emits_create_display (s : State) (l : label) (ok : bool) :
  aborted s = false -> trace (step l s) = EvCreateDisplay ok :: trace s ->
  wpc s = W_create_display.
Proof.
  intros Hab. step_cases s l t; simpl; emitter; auto.
Qed.

Lemma emits_create_audio (s : State) (l : label) (created configured : bool) :
  aborted s = false -> trace (step l s) = EvCreateAudio created configured :: trace s ->
  wpc s = W_create_audio.
Proof.
  intros Hab. step_cases s l t; simpl; emitter; auto.
Qed.

Lemma emits_reset_display (s : State) (l : label) :
  aborted s = false -> trace (step l s) = EvResetDisplay :: trace s ->
  wpc s = W_fail_reset_display \/ wpc s = W_shut_display.
Proof.
  intros Hab. step_cases s l t; simpl; emitter; auto.
Qed.

Lemma emits_destroy_imgui (s : State) (l : label) :
  aborted s = false -> trace (step l s) = EvDestroyImGui :: trace s ->
  wpc s = W_fail_destroy_imgui \/ wpc s = W_shut_imgui.
Proof.
  intros Hab. step_cases s l t; simpl; emitter; auto.
Qed.

(** What is held in a reachable state, as the trace tells it, by the
    program point of the worker. *)
Lemma held_at (s : State) :
  Reachable s ->
  holds_since_spawn ImGuiContext (trace s) = imgui_context s
  /\ holds_since_spawn Display (trace s) = m_display s
  /\ holds_since_spawn AudioStream (trace s) = m_audio_stream s
  /\ worker_inv s.
Proof.
  intros Hr. destruct (Inv_signal_reachable s Hr) as (Hh & _).
  pose proof (Inv_life_reachable s Hr) as (Hw & _).
  repeat split; try apply Hh. exact Hw.
Qed.

(** X21.  The three resources are created and destroyed in a nested
    discipline on every path and in every interleaving.  The overlay context
    is created while nothing is held; the display is created while the
    context is held and no display is; the audio stream is created while the
    display is held and no audio stream is; the display is reset only while
    a display is held; and the overlay context is destroyed only while it
    exists and after both the display and the audio stream are gone.  So no
    resource is created twice without a release in between, and the context
    outlives the other two. *)
Theorem resources_nested (s : State) :
  Reachable s ->
  (forall post pre, trace s = post ++ EvCreateImGui :: pre ->
     forall r, holds_since_spawn r pre = false)
  /\ (forall post pre ok, trace s = post ++ EvCreateDisplay ok :: pre ->
        holds_since_spawn ImGuiContext pre = true
        /\ holds_since_spawn Display pre = false
        /\ holds_since_spawn AudioStream pre = false)
  /\ (forall post pre created configured,
        trace s = post ++ EvCreateAudio created configured :: pre ->
        holds_since_spawn ImGuiContext pre = true
        /\ holds_since_spawn Display pre = true
        /\ holds_since_spawn AudioStream pre = false)
  /\ (forall post pre, trace s = post ++ EvResetDisplay :: pre ->
        holds_since_spawn ImGuiContext pre = true
        /\ holds_since_spawn Display pre = true)
  /\ (forall post pre, trace s = post ++ EvDestroyImGui :: pre ->
        holds_since_spawn ImGuiContext pre = true
        /\ holds_since_spawn Display pre = false
        /\ holds_since_spawn AudioStream pre = false).
Proof.
  intros Hr. split; [|split; [|split; [|split]]].
  - revert s Hr.
    apply (history_invariant EvCreateImGui
             (fun pre => forall r, holds_since_spawn r pre = false)).
    intros s l Hr Hab Hemit r.
    apply emits_create_imgui in Hemit; auto.
    destruct (held_at s Hr) as (Hi & Hd & Ha & Hw).
    unfold worker_inv in Hw. rewrite Hemit in Hw. destruct Hw as (? & ? & ?).
    destruct r; congruence.
  - intros post pre ok. revert s Hr post pre.
    apply (history_invariant (EvCreateDisplay ok)). intros s l Hr Hab Hemit.
    apply emits_create_display in Hemit; auto.
    destruct (held_at s Hr) as (Hi & Hd & Ha & Hw).
    unfold worker_inv in Hw. rewrite Hemit in Hw. destruct Hw as (? & ? & ?).
    repeat split; congruence.
  - intros post pre created configured. revert s Hr post pre.
    apply (history_invariant (EvCreateAudio created configured)).
    intros s l Hr Hab Hemit.
    apply emits_create_audio in Hemit; auto.
    destruct (held_at s Hr) as (Hi & Hd & Ha & Hw).
    unfold worker_inv in Hw. rewrite Hemit in Hw. destruct Hw as (? & ? & ? & _).
    repeat split; congruence.
  - revert s Hr. apply history_invariant. intros s l Hr Hab Hemit.
    apply emits_reset_display in Hemit; auto.
    destruct (held_at s Hr) as (Hi & Hd & Ha & Hw).
    unfold worker_inv, all_held in Hw.
    destruct Hemit as [E|E]; rewrite E in Hw;
      repeat match goal with H : _ /\ _ |- _ => destruct H end;
      split; congruence.
  - revert s Hr. apply history_invariant. intros s l Hr Hab Hemit.
    apply emits_destroy_imgui in Hemit; auto.
    destruct (held_at s Hr) as (Hi & Hd & Ha & Hw).
    unfold worker_inv in Hw.
    destruct Hemit as [E|E]; rewrite E in Hw;
      repeat match goal with H : _ /\ _ |- _ => destruct H end;
      repeat split; congruence.
Qed.

(** A start and a stop: when the overlay context is destroyed at line 232,
    display and audio stream are gone. *)
Lemma resources_nested_witness :
  let s := exec (start_schedule valid_game ++ [LStep controller]
                 ++ LCall controller CallStop :: repeat (LStep controller) 2
                 ++ repeat LWorker 20) fresh_state in
  holds_since_spawn Display (tl (trace s)) = false
  /\ holds_since_spawn AudioStream (tl (trace s)) = false.
Proof.
  intros s.
  assert (Hr : Reachable s).
  { exists false, false, (mkHost false false false),
      (start_schedule valid_game ++ [LStep controller]
       ++ LCall controller CallStop :: repeat (LStep controller) 2
       ++ repeat LWorker 20). reflexivity. }
  destruct (resources_nested s Hr) as (_ & _ & _ & _ & Hdestroy).
  destruct (Hdestroy [] (tl (trace s))) as (_ & Hd & Ha).
  - vm_compute. reflexivity.
  - split; assumption.
Defined.

(** ** [StartEmulationThread] returns *)

(** The start-up never waits and never fails an assertion: from any point
    before the signal, at most nine steps of the worker take it past the
    signal. *)
Lemma startup_completes (s : State) :
  aborted s = false -> in_startup (wpc s) = true ->
  exists n, n <= 9 /\ after_signal (wpc (exec (repeat LWorker n) s)) = true
                     /\ aborted (exec (repeat LWorker n) s) = false.
Proof.
  intros Hab Hin.
  destruct s as [sr res ev jn mx q im dp au h [d ac ar sc sb ha] pc cp ab tr].
  simpl in *. subst ab.
  destruct pc; try discriminate Hin; clear Hin;
    destruct d, ac, ar, sc, sb;
    first [ exists 1; split; [lia | split; reflexivity]
          | exists 2; split; [lia | split; reflexivity]
          | exists 3; split; [lia | split; reflexivity]
          | exists 4; split; [lia | split; reflexivity]
          | exists 5; split; [lia | split; reflexivity]
          | exists 6; split; [lia | split; reflexivity]
          | exists 7; split; [lia | split; reflexivity]
          | exists 8; split; [lia | split; reflexivity]
          | exists 9; split; [lia | split; reflexivity] ].
Qed.

(** Once the worker is past its signal, the waiting controller wakes, reads
    the result and, if the start failed, joins the worker, which has
    returned. *)
Lemma start_call_finishes (s : State) (a : StartArgs) :
  Reachable s -> aborted s = false -> cpcs s controller = S_wait a ->
  after_signal (wpc s) = true ->
  exists m, m <= 3
    /\ cpcs (exec (repeat (LStep controller) m) s) controller = S_ret a (start_ok a)
    /\ aborted (exec (repeat (LStep controller) m) s) = false.
Proof.
  intros Hr Hab Hpc Haf.
  pose proof (Inv_life_reachable s Hr) as (Hw & Hc & _).
  unfold controller_inv in Hc. rewrite Hpc in Hc. destruct Hc as (Hj & Ha & Hev).
  destruct (m_emulation_thread_started s) eqn:Hst;
    [|rewrite (after_signal_startup _ Haf) in Hev; discriminate].
  destruct Hev as [_ Hres].
  assert (Hex : start_ok a = false -> wpc s = W_exited).
  { intros Hno. unfold worker_inv in Hw. rewrite Ha in Hw.
    destruct (wpc s); simpl in Haf; try discriminate Haf; auto;
      repeat match goal with H : _ /\ _ |- _ => destruct H end; congruence. }
  destruct s as [sr res ev jn mx q im dp au h a' pc cp ab tr].
  simpl in *. subst ab ev jn a' res.
  destruct (start_ok a) eqn:Hok.
  - exists 2. split; [lia|].
    unfold exec, step, caller_step. simpl. rewrite Hpc. simpl. auto.
  - exists 3. split; [lia|]. rewrite (Hex eq_refl).
    unfold exec, step, caller_step. simpl. rewrite Hpc. simpl. auto.
Qed.

(** X17.  [StartEmulationThread] returns, on success and on every
    failure.  From every reachable state in which the controller waits for
    the ready signal (line 89), at most nine steps of the worker and three of
    the controller take the call to its [return], with the value that tells
    whether display, audio stream and boot all succeeded. *)
Theorem StartEmulationThread_returns_from_wait (s : State) (a : StartArgs) :
  Reachable s -> aborted s = false -> cpcs s controller = S_wait a ->
  exists n m, n <= 9 /\ m <= 3
    /\ let s' := exec (repeat LWorker n ++ repeat (LStep controller) m) s in
       cpcs s' controller = S_ret a (start_ok a) /\ aborted s' = false.
Proof.
  intros Hr Hab Hpc.
  assert (Hsig : exists n, n <= 9
            /\ after_signal (wpc (exec (repeat LWorker n) s)) = true
            /\ aborted (exec (repeat LWorker n) s) = false).
  { destruct (in_startup (wpc s)) eqn:Hin.
    - now apply startup_completes.
    - exists 0. split; [lia|]. simpl. split; [|exact Hab].
      pose proof (Inv_life_reachable s Hr) as (Hw & Hc & _).
      unfold controller_inv in Hc. rewrite Hpc in Hc. destruct Hc as (_ & _ & Hev).
      destruct (m_emulation_thread_started s); [apply Hev | congruence]. }
  destruct Hsig as (n & Hn & Haf & Hab1).
  destruct (start_call_finishes (exec (repeat LWorker n) s) a) as (m & Hm & Hret & Hab2);
    auto.
  - now apply Reachable_exec.
  - now rewrite worker_steps_cpcs.
  - exists n, m. split; [exact Hn|]. split; [exact Hm|].
    cbv zeta. rewrite exec_app. auto.
Qed.

(** The controller has started a thread for a game that does not boot
    and waits for the signal. *)
Lemma StartEmulationThread_returns_from_wait_witness :
  let s := exec (LCall controller (CallStart corrupt_game) :: repeat (LStep controller) 3)
                fresh_state in
  exists n m, n <= 9 /\ m <= 3
    /\ cpcs (exec (repeat LWorker n ++ repeat (LStep controller) m) s) controller
       = S_ret corrupt_game false.
Proof.
  intros s.
  assert (Hr : Reachable s).
  { exists false, false, (mkHost false false false),
      (LCall controller (CallStart corrupt_game) :: repeat (LStep controller) 3).
    reflexivity. }
  destruct (StartEmulationThread_returns_from_wait s corrupt_game Hr)
    as (n & m & Hn & Hm & Hret & _).
  - reflexivity.
  - reflexivity.
  - exists n, m. split; [exact Hn|]. split; [exact Hm|]. exact Hret.
Defined.

(** ** The range in which the speed figure is defined *)

Section SpeedDomain.
Local Open Scope Z_scope.

(** [round_magnitude] is the nearest integer, halfway cases upwards:
    the magnitude lies in the half-open interval from the result minus one
    half to the result plus one half. *)
Lemma round_magnitude_nearest (m : positive) (e : Z) :
  bounded prec32 emax32 m e = true ->
  0 <= round_magnitude m e
  /\ 2 * round_magnitude m e * units_per_one - units_per_one
     <= 2 * (Zpos m * 2 ^ (e + 149))
  /\ 2 * (Zpos m * 2 ^ (e + 149))
     < 2 * round_magnitude m e * units_per_one + units_per_one.
Proof.
  intros Hb. destruct (bounded32 m e Hb) as (He & Hm & _).
  assert (HU : 0 < units_per_one) by reflexivity.
  unfold round_magnitude. destruct e as [|p|d].
  - rewrite Z.mul_1_r. change (2 ^ (0 + 149)) with units_per_one. lia.
  - assert (0 < 2 ^ Z.pos p) by (apply Z.pow_pos_nonneg; lia).
    replace (2 ^ (Z.pos p + 149)) with (2 ^ Z.pos p * units_per_one)
      by (unfold units_per_one; rewrite <- Z.pow_add_r by lia; reflexivity).
    split; [nia|].
    replace (2 * (Z.pos m * (2 ^ Z.pos p * units_per_one)))
      with (2 * (Z.pos m * 2 ^ Z.pos p) * units_per_one) by ring.
    lia.
  - assert (Hd : Z.pos d <= 149) by lia.
    set (D := 2 ^ Z.pos d).
    assert (HD : 0 < D) by (apply Z.pow_pos_nonneg; lia).
    set (K := 2 ^ (149 - Z.pos d)).
    assert (HK : 0 < K) by (apply Z.pow_pos_nonneg; lia).
    replace (2 ^ (Z.neg d + 149)) with K by (unfold K; f_equal; lia).
    replace units_per_one with (D * K)
      by (unfold D, K, units_per_one; rewrite <- Z.pow_add_r by lia; f_equal; lia).
    set (q := (2 * Z.pos m + D) / (2 * D)).
    assert (Hq : 2 * D * q <= 2 * Z.pos m + D < 2 * D * q + 2 * D).
    { unfold q. pose proof (Z.mul_div_le (2 * Z.pos m + D) (2 * D)).
      pose proof (Z.mul_succ_div_gt (2 * Z.pos m + D) (2 * D)). lia. }
    split; [apply Z.div_pos; lia|].
    replace (2 * q * (D * K) - D * K) with ((2 * D * q - D) * K) by ring.
    replace (2 * q * (D * K) + D * K) with ((2 * D * q + D) * K) by ring.
    replace (2 * (Z.pos m * K)) with ((2 * Z.pos m) * K) by ring.
    split.
    + apply Z.mul_le_mono_nonneg_r; lia.
    + apply Z.mul_lt_mono_pos_r; lia.
Qed.

(** X14.  The percentage of line 304 is defined exactly for the speeds
    strictly between -0.5 and 4294967295.5.  For NaN and the infinities
    [std::round] yields no integer; for a finite speed of -0.5 or less the
    rounded value is negative, and from 4294967295.5 on it exceeds 32 bits:
    in both cases [static_cast<u32>] is undefined. *)
Theorem rounded_speed_defined_range (m_speed : spec_float) :
  is_float32 m_speed ->
  match f32_units m_speed with
  | Some u =>
      rounded_speed m_speed = None
      <-> (2 * u <= - units_per_one \/ (2 ^ 33 - 1) * units_per_one <= 2 * u)
  | None => rounded_speed m_speed = None
  end.
Proof.
  unfold is_float32. intros Hv.
  assert (HU : 0 < units_per_one) by reflexivity.
  destruct m_speed as [s|s| |s m e]; try reflexivity.
  - simpl. split; [discriminate|]. intros [H|H]; lia.
  - unfold valid_binary in Hv.
    destruct (round_magnitude_nearest m e Hv) as (H0 & Hlo & Hhi).
    destruct (bounded32 m e Hv) as (He & _).
    assert (Hp : 0 < Z.pos m * 2 ^ (e + 149)).
    { apply Z.mul_pos_pos; [lia | apply Z.pow_pos_nonneg; lia]. }
    unfold f32_units, rounded_speed, std_round, cast_u32, u32_max.
    set (r := round_magnitude m e) in *.
    set (v := Z.pos m * 2 ^ (e + 149)) in *.
    change (2 ^ 33 - 1) with (2 * (2 ^ 32 - 1) + 1).
    set (N := 2 ^ 32 - 1). assert (HN : 0 <= N) by (unfold N; lia).
    set (U := units_per_one) in *.
    clearbody r v N U. clear Hv He.
    destruct s.
    + change (if true then -1 else 1) with (-1).
      destruct (Z.leb_spec 0 (- r)) as [Hr|Hr]; unfold andb.
      * assert (r = 0) by lia. subst r.
        destruct (Z.leb_spec (- 0) N); [|lia].
        split; [discriminate|]. intros [H'|H']; nia.
      * split; [intros _|reflexivity]. left. nia.
    + change (if false then -1 else 1) with 1.
      destruct (Z.leb_spec 0 r) as [_|Hr]; [|lia]. unfold andb.
      destruct (Z.leb_spec r N) as [Hr|Hr].
      * split; [discriminate|]. intros [H'|H']; nia.
      * split; [intros _|reflexivity]. right. nia.
Qed.

(** The speed -1.0: a finite binary32 value for which the cast of
    line 304 is undefined. *)
Lemma rounded_speed_defined_range_witness :
  rounded_speed (S754_finite true 8388608 (-23)) = None.
Proof.
  pose proof (rounded_speed_defined_range (S754_finite true 8388608 (-23)) eq_refl) as H.
  simpl f32_units in H. apply H. left. vm_compute. discriminate.
Defined.

End SpeedDomain.

(** ** The layout of the overlay window *)

(** X15.  [DrawFPSWindow], for every choice of the three switches of
    lines 259-261 and every speed whose percentage is defined.  When
    [ImGui::Begin] returns [false], nothing is drawn and [End] is still
    called.  Otherwise the figures that are switched on are drawn in the
    order frame rate, video rate, speed, neighbours separated by a slash on
    the same line, with no separator before the first or after the last.
    On both paths [Begin] and [End] are each called exactly once and [End]
    comes last.  With the switches as compiled the window reads
    "fps / vps / speed%". *)
Theorem DrawFPSWindow_layout (show_fps show_vps show_speed : bool)
    (display_x m_fps m_vps m_speed : spec_float) (cmd : draw_cmd) :
  DrawFPSWindow_speed m_speed = Some cmd ->
  DrawFPSWindow_with show_fps show_vps show_speed display_x false m_fps m_vps m_speed
  = Some (fps_window_setup display_x ++ [ImGui_End])
  /\ DrawFPSWindow_with show_fps show_vps show_speed display_x true m_fps m_vps m_speed
     = Some (fps_window_setup display_x
             ++ separated ((if show_fps then [ImGui_Text_f2 m_fps] else [])
                           ++ (if show_vps then [ImGui_Text_f2 m_vps] else [])
                           ++ (if show_speed then [ImGui_TextColored cmd] else []))
             ++ [ImGui_End])
  /\ (forall begin_ok calls,
        DrawFPSWindow_with show_fps show_vps show_speed display_x begin_ok
                           m_fps m_vps m_speed = Some calls ->
        List.length (filter is_begin calls) = 1
        /\ List.length (filter is_end calls) = 1
        /\ last calls ImGui_SameLine = ImGui_End)
  /\ DrawFPSWindow display_x true m_fps m_vps m_speed
     = Some (fps_window_setup display_x
             ++ [ImGui_Text_f2 m_fps; ImGui_SameLine; ImGui_Text "/"; ImGui_SameLine;
                 ImGui_Text_f2 m_vps; ImGui_SameLine; ImGui_Text "/"; ImGui_SameLine;
                 ImGui_TextColored cmd; ImGui_End]).
Proof.
  intros Hs. unfold DrawFPSWindow, DrawFPSWindow_with. rewrite Hs.
  split; [reflexivity|]. split; [|split].
  - destruct show_fps, show_vps, show_speed; reflexivity.
  - intros [|] calls H; simpl in H.
    + destruct show_fps, show_vps, show_speed; injection H as <-; repeat split.
    + injection H as <-. repeat split.
  - reflexivity.
Qed.

(** A speed of 100: the window reads "fps / vps / 100%", the last in the
    nominal colour. *)
Lemma DrawFPSWindow_layout_witness :
  DrawFPSWindow f32_0 true f32_100 f32_100 f32_100
  = Some (fps_window_setup f32_0
          ++ [ImGui_Text_f2 f32_100; ImGui_SameLine; ImGui_Text "/"; ImGui_SameLine;
              ImGui_Text_f2 f32_100; ImGui_SameLine; ImGui_Text "/"; ImGui_SameLine;
              ImGui_TextColored (TextColored color_nominal "100%"); ImGui_End]).
Proof.
  apply (DrawFPSWindow_layout true true true f32_0 f32_100 f32_100 f32_100
           (TextColored color_nominal "100%")).
  reflexivity.
Defined.

(** ** The native pointer *)

Section NativePointer.
Local Open Scope Z_scope.

Lemma to_signed_range (bits x : Z) :
  0 < bits -> - 2 ^ (bits - 1) <= to_signed bits x < 2 ^ (bits - 1).
Proof.
  intros Hb. unfold to_signed.
  assert (H2 : 2 ^ bits = 2 * 2 ^ (bits - 1)).
  { rewrite <- Z.pow_succ_r by lia. f_equal. lia. }
  assert (0 < 2 ^ (bits - 1)) by (apply Z.pow_pos_nonneg; lia).
  pose proof (Z.mod_pos_bound (x + 2 ^ (bits - 1)) (2 ^ bits)). lia.
Qed.

Lemma to_signed_small (bits x : Z) :
  0 < bits -> - 2 ^ (bits - 1) <= x < 2 ^ (bits - 1) -> to_signed bits x = x.
Proof.
  intros Hb Hx. unfold to_signed.
  assert (H2 : 2 ^ bits = 2 * 2 ^ (bits - 1)).
  { rewrite <- Z.pow_succ_r by lia. f_equal. lia. }
  rewrite Z.mod_small by lia. lia.
Qed.

(** Converting to a signed type of at least as many bits and back to the
    unsigned type gives the value back. *)
Lemma to_unsigned_signed (pbits lbits x : Z) :
  0 < pbits <= lbits -> 0 <= x < 2 ^ pbits ->
  to_unsigned pbits (to_signed lbits x) = x.
Proof.
  intros Hb Hx. unfold to_unsigned, to_signed.
  assert (Hp : 0 < 2 ^ pbits) by (apply Z.pow_pos_nonneg; lia).
  assert (Hl : 2 ^ lbits = 2 ^ pbits * 2 ^ (lbits - pbits)).
  { rewrite <- Z.pow_add_r by lia. f_equal. lia. }
  set (h := 2 ^ (lbits - 1)).
  rewrite (Z.mod_eq (x + h) (2 ^ lbits))
    by (apply Z.pow_nonzero; lia).
  rewrite Hl at 1.
  replace (x + h - 2 ^ pbits * 2 ^ (lbits - pbits) * ((x + h) / 2 ^ lbits) - h)
    with (x + (- (2 ^ (lbits - pbits) * ((x + h) / 2 ^ lbits))) * 2 ^ pbits) by ring.
  rewrite Z.mod_add by lia. apply Z.mod_small. exact Hx.
Qed.

(** X16.  The address of the C++ object survives the passage through the
    Java field, on every ABI whose [long] is at least as wide as a pointer:
    [GetNativeClass] applied to the object [AndroidHostInterface_create]
    returns yields the address [new] returned.  This holds also for the
    addresses of the upper half of a 32-bit address space, which are stored
    as negative numbers. *)
Theorem GetNativeClass_of_created_object (abi : ABI) (java_obj : JObject)
    (global_ref cpp_obj : Z) (created : JObject) :
  valid_abi abi ->
  0 <= cpp_obj < 2 ^ pointer_bits abi ->
  AndroidHostInterface_create abi (Some java_obj) (Some global_ref) cpp_obj
  = Some (Some created) ->
  GetNativeClass abi created = cpp_obj
  /\ - 2 ^ 63 <= nativePointer created < 2 ^ 63.
Proof.
  intros (Hp & Hpl & Hl) Hx H. simpl in H. injection H as <-.
  assert (Hs : - 2 ^ 63 <= to_signed (long_bits abi) (to_unsigned (pointer_bits abi) cpp_obj)
               < 2 ^ 63).
  { pose proof (to_signed_range (long_bits abi)
                  (to_unsigned (pointer_bits abi) cpp_obj) ltac:(lia)) as Hr.
    assert (2 ^ (long_bits abi - 1) <= 2 ^ 63) by (apply Z.pow_le_mono_r; lia).
    lia. }
  unfold GetNativeClass, GetLongField, SetLongField. simpl nativePointer.
  rewrite to_signed_small by (try lia; exact Hs).
  split; [|exact Hs].
  unfold to_unsigned at 2. rewrite Z.mod_small by exact Hx.
  apply to_unsigned_signed; lia.
Qed.

(** A 32-bit address above [2 ^ 31]: the field holds a negative number. *)
Lemma GetNativeClass_of_created_object_witness :
  GetNativeClass abi32 (mkJObject (-268435456)) = 4026531840.
Proof.
  refine (proj1 (GetNativeClass_of_created_object abi32 (mkJObject 0) 1 4026531840
                   (mkJObject (-268435456)) _ _ _)).
  - unfold valid_abi. simpl. lia.
  - simpl. lia.
  - reflexivity.
Defined.

End NativePointer.

(** ** Loading the library *)

Section OnLoad.
Local Open Scope Z_scope.

(** X18.  [JNI_OnLoad], whenever the environment is available and whatever
    the statics held before.  The result is [JNI_VERSION_1_6] or [-1].  It is
    [JNI_VERSION_1_6] exactly if the class lookup, the global reference, the
    constructor lookup and the field lookup all succeeded, and exactly if all
    three statics are non-null afterwards: after a failure at least one of
    them is null.  On success the class static holds the global reference,
    not the local one, and constructor and field were looked up on it. *)
Theorem JNI_OnLoad_result (vm : JavaVM) (st st' : Statics) (result : Z) :
  JNI_OnLoad vm st = Some (result, st') ->
  (result = JNI_VERSION_1_6 \/ result = -1)
  /\ (result = JNI_VERSION_1_6 <-> all_set st' = true)
  /\ (result = JNI_VERSION_1_6 <->
      exists local class ctor field,
        vm_FindClass vm = Some local /\ vm_NewGlobalRef vm local = Some class
        /\ vm_GetMethodID vm class = Some ctor /\ vm_GetFieldID vm class = Some field
        /\ st' = mkStatics (Some class) (Some ctor) (Some field)).
Proof.
  unfold JNI_OnLoad. destruct (GetJNIEnv vm); [|discriminate]. simpl.
  destruct (vm_FindClass vm) as [local|] eqn:Ec.
  2: { intros H. injection H as <- <-. split; [auto|]. split; split; try discriminate.
       intros (l & ? & ? & ? & H & _). discriminate H. }
  destruct (vm_NewGlobalRef vm local) as [class|] eqn:Eg.
  2: { intros H. injection H as <- <-. split; [auto|]. split; split; try discriminate.
       intros (l & ? & ? & ? & H1 & H2 & _). congruence. }
  destruct (vm_GetMethodID vm class) as [ctor|] eqn:Em.
  2: { intros H. injection H as <- <-. split; [auto|]. split; split; try discriminate.
       intros (l & c & ? & ? & H1 & H2 & H3 & _). congruence. }
  destruct (vm_GetFieldID vm class) as [field|] eqn:Ef.
  2: { intros H. injection H as <- <-. split; [auto|]. split; split; try discriminate.
       intros (l & c & ? & ? & H1 & H2 & H3 & H4 & _). congruence. }
  intros H. injection H as <- <-. split; [auto|]. split; split; auto.
  intros _. exists local, class, ctor, field. auto.
Qed.

(** The class is found but has no field [nativePointer]: the load fails,
    and the field static is null. *)
Lemma JNI_OnLoad_result_witness :
  JNI_OnLoad no_field_vm (mkStatics None None (Some 7))
  = Some (-1, mkStatics (Some 32) (Some 33) None)
  /\ (all_set (mkStatics (Some 32) (Some 33) None) = true -> False).
Proof.
  split; [reflexivity|]. intros E.
  destruct (JNI_OnLoad_result no_field_vm (mkStatics None None (Some 7))
              (mkStatics (Some 32) (Some 33) None) (-1) eq_refl) as (_ & H & _).
  apply H in E. discriminate E.
Defined.

End OnLoad.

